(** * Aperio: the streaming file-analysis engine

    A shallow embedding of [internal/analyze/analyze.go] (binary sniffing and
    the chunked line/word/character counter), of the job-count handling in
    [ParseArgs] and [Run], and of the goroutine fan-out/fan-in of [Run]
    ([internal/run/run.go]), together with the properties of the
    specification that concern them; and of what surrounds them:
    [ParseArgs] as a whole, the exit codes, the ordering and the table of
    [Run], and the number formatting of [internal/util/format.go].

    Conventions.
    - A Go [byte] is a [Byte.byte]; [u8] gives its value in [0, 256).
    - A Go [int] or [rune] is a [Z].  The counters never wrap: each is
      bounded by the number of bytes read, which fits an [int64].
    - A slice [buf[i:n]] of a chunk is a [list byte]; [len4] counts its
      length up to four, which is all the decoder asks of it.
    - A call returns ([Ret]) or panics ([Panic]); the loops of the model
      run on fuel, and are shown never to exhaust it. *)

From Stdlib Require Import ZArith List Bool Lia Permutation.
From Stdlib Require Import Strings.String Strings.Byte.
Import ListNotations.
Local Open Scope Z_scope.

Abbreviation byte := Byte.byte.

(** The numeric value of a byte. *)
Definition u8 (b : byte) : Z := Z.of_N (Byte.to_N b).

(** [len p] is Go's [len(p)]. *)
Definition len {A : Type} (p : list A) : Z := Z.of_nat (List.length p).

(** [len4 p] is [len(p)] counted up to four, the length of the longest
    UTF-8 sequence: [min(len(p), 4)] (see [len4_min]).  The decoder compares
    the length of its argument with bounds of at most four only, so it may
    count this far and no further. *)
Definition len4 {A : Type} (p : list A) : Z := len (firstn 4 p).

(** [at_ p k] is [p[k]]; every use below is guarded by a length test, as in
    the Go code, so the default is never observed. *)
Definition at_ (p : list byte) (k : nat) : Z := u8 (nth k p Byte.x00).

(* ================================================================= *)
(** ** Package [unicode/utf8] of the Go standard library *)

Module utf8.

Definition RuneError : Z := 0xFFFD.

Definition maskx : Z := 0x3F.
Definition mask2 : Z := 0x1F.
Definition mask3 : Z := 0x0F.
Definition mask4 : Z := 0x07.

Definition locb : Z := 0x80.
Definition hicb : Z := 0xBF.

(** Entries of the table [first]: the low three bits are the sequence
    length, the high four bits index [acceptRanges]. *)
Definition xx : Z := 0xF1.
Definition as_ : Z := 0xF0.
Definition s1 : Z := 0x02.
Definition s2 : Z := 0x13.
Definition s3 : Z := 0x03.
Definition s4 : Z := 0x23.
Definition s5 : Z := 0x34.
Definition s6 : Z := 0x04.
Definition s7 : Z := 0x44.

(** The 256-entry table [first], written by the ranges of its rows. *)
Definition first (b : Z) : Z :=
  if b <? 0x80 then as_
  else if b <? 0xC2 then xx
  else if b <? 0xE0 then s1
  else if b =? 0xE0 then s2
  else if b <? 0xED then s3
  else if b =? 0xED then s4
  else if b <? 0xF0 then s3
  else if b =? 0xF0 then s5
  else if b <? 0xF4 then s6
  else if b =? 0xF4 then s7
  else xx.

Record acceptRange := { lo : Z; hi : Z }.

(** The 16-entry table [acceptRanges]; entries past the fifth are zero. *)
Definition acceptRanges (k : Z) : acceptRange :=
  if k =? 0 then {| lo := locb; hi := hicb |}
  else if k =? 1 then {| lo := 0xA0; hi := hicb |}
  else if k =? 2 then {| lo := locb; hi := 0x9F |}
  else if k =? 3 then {| lo := 0x90; hi := hicb |}
  else if k =? 4 then {| lo := locb; hi := 0x8F |}
  else {| lo := 0; hi := 0 |}.

(** [DecodeRune p]: the first rune of [p] and its width in bytes;
    [(RuneError, 0)] on empty input and [(RuneError, 1)] on an invalid or
    short encoding. *)
Definition DecodeRune (p : list byte) : Z * Z :=
  let n := len4 p in
  if n <? 1 then (RuneError, 0) else
  let p0 := at_ p 0 in
  let x := first p0 in
  if x >=? as_ then
    (* the mask-and-or of the Go code: [p0] for [as], [RuneError] for [xx] *)
    (if Z.testbit x 0 then RuneError else p0, 1)
  else
  let sz := Z.land x 7 in
  let accept := acceptRanges (Z.shiftr x 4) in
  if n <? sz then (RuneError, 1) else
  let b1 := at_ p 1 in
  if (b1 <? lo accept) || (hi accept <? b1) then (RuneError, 1) else
  if sz <=? 2 then
    (Z.lor (Z.shiftl (Z.land p0 mask2) 6) (Z.land b1 maskx), 2)
  else
  let b2 := at_ p 2 in
  if (b2 <? locb) || (hicb <? b2) then (RuneError, 1) else
  if sz <=? 3 then
    (Z.lor (Z.lor (Z.shiftl (Z.land p0 mask3) 12)
                  (Z.shiftl (Z.land b1 maskx) 6))
           (Z.land b2 maskx), 3)
  else
  let b3 := at_ p 3 in
  if (b3 <? locb) || (hicb <? b3) then (RuneError, 1) else
  (Z.lor (Z.lor (Z.lor (Z.shiftl (Z.land p0 mask4) 18)
                       (Z.shiftl (Z.land b1 maskx) 12))
                (Z.shiftl (Z.land b2 maskx) 6))
         (Z.land b3 maskx), 4).

(** [FullRune p]: whether [p] begins with a full encoding of a rune; an
    invalid encoding counts as full, since it decodes as a width-1 error. *)
Definition FullRune (p : list byte) : bool :=
  let n := len4 p in
  if n =? 0 then false else
  let x := first (at_ p 0) in
  if n >=? Z.land x 7 then true else
  let accept := acceptRanges (Z.shiftr x 4) in
  if (n >? 1) && ((at_ p 1 <? lo accept) || (hi accept <? at_ p 1)) then true else
  if (n >? 2) && ((at_ p 2 <? locb) || (hicb <? at_ p 2)) then true else
  false.

End utf8.

(* ================================================================= *)
(** ** Package [unicode] of the Go standard library: [IsSpace] *)

Module unicode.

Definition MaxLatin1 : Z := 0xFF.

Record Range16 := { Lo : Z; Hi : Z; Stride : Z }.

(** The table [White_Space] ([R16] rows; it has no [R32] rows). *)
Definition White_Space_R16 : list Range16 :=
  [ {| Lo := 0x0009; Hi := 0x000d; Stride := 1 |};
    {| Lo := 0x0020; Hi := 0x0085; Stride := 101 |};
    {| Lo := 0x00a0; Hi := 0x1680; Stride := 5600 |};
    {| Lo := 0x2000; Hi := 0x200a; Stride := 1 |};
    {| Lo := 0x2028; Hi := 0x2029; Stride := 1 |};
    {| Lo := 0x202f; Hi := 0x205f; Stride := 48 |};
    {| Lo := 0x3000; Hi := 0x3000; Stride := 1 |} ].

Definition White_Space_LatinOffset : nat := 2.

(** [is16] on a table of at most [linearMax] rows: the linear scan. *)
Fixpoint is16 (ranges : list Range16) (r : Z) : bool :=
  match ranges with
  | [] => false
  | range_ :: rest =>
      if r <? Lo range_ then false
      else if r <=? Hi range_ then
        (Stride range_ =? 1) || ((r - Lo range_) mod Stride range_ =? 0)
      else is16 rest r
  end.

(** [isExcludingLatin White_Space r]. *)
Definition isExcludingLatin_White_Space (r : Z) : bool :=
  let r16 := White_Space_R16 in
  if (0 <=? r) && (r <=? Hi (last r16 {| Lo := 0; Hi := 0; Stride := 1 |}))
  then is16 (skipn White_Space_LatinOffset r16) r
  else false.

(** [IsSpace r]: the Unicode White_Space property.  The test
    [uint32(r) <= MaxLatin1] fails on a negative rune. *)
Definition IsSpace (r : Z) : bool :=
  if (0 <=? r) && (r <=? MaxLatin1) then
    (r =? 0x09) || (r =? 0x0A) || (r =? 0x0B) || (r =? 0x0C) || (r =? 0x0D)
    || (r =? 0x20) || (r =? 0x85) || (r =? 0xA0)
  else isExcludingLatin_White_Space r.

End unicode.

(* ================================================================= *)
(** ** The operating system, as [AnalyzeFile] sees it *)

Inductive result (A : Type) : Type :=
| Ok (a : A)
| Err (msg : string).
Arguments Ok {A} a.
Arguments Err {A} msg.

(** What [os.Stat] reports: [info.Size()] and the two renderings of
    [info.ModTime()]. *)
Record FileInfo := {
  info_Size : Z;
  info_ModTime : string;
  info_ModUnix : Z
}.

(** How the reads of an open file end: [io.EOF] or another error.  An
    [*os.File] returns [n = 0] together with either. *)
Inductive ReadEnd :=
| EOF
| ReadErr (msg : string).

(** An open [*os.File]: the bytes [ReadAt(_, 0)] can deliver, the chunks
    the successive calls of [Read] deliver with a nil error, and the way
    the last call ends.  The reads of a file come to an end here, and
    [os.Open] answers: a call that stays in [os.Open] (a FIFO without a
    writer) or whose reads never end is no file of this model, which
    speaks of the calls of [AnalyzeFile] that return or panic.  Where the
    progress of [Run] depends on it, that the analyses return is a
    hypothesis ([all_return]). *)
Record File := {
  at0 : list byte;
  reads : list (list byte);
  read_end : ReadEnd
}.

Record Platform := {
  filepath_Base : string -> string;
  filepath_Ext : string -> string;
  util_HumanBytes : Z -> string;
  os_Stat : string -> result FileInfo;
  os_Open : string -> result File
}.

(** What a Go function call comes to: it returns, or it panics (a slice
    bound out of range).  [Fuel] is the step bound of a loop of the model
    running out; the loops below are given enough of it (see
    [count_loop_total] and [sniff_loop_total]). *)
Inductive outcome (A : Type) : Type :=
| Ret (a : A)
| Panic
| Fuel.
Arguments Ret {A} a.
Arguments Panic {A}.
Arguments Fuel {A}.

(** Sequencing of calls that may panic. *)
Definition bind {A B : Type} (x : outcome A) (k : A -> outcome B) : outcome B :=
  match x with
  | Ret a => k a
  | Panic => Panic
  | Fuel => Fuel
  end.

Notation "x <- e ;; k" := (bind e (fun x => k))
  (at level 61, e at next level, right associativity).

(* ================================================================= *)
(** ** Package [unicode/utf8], continued: [RuneCountInString] *)

Module utf8_count.

Definition RuneSelf : Z := 0x80.

(** One round of the loop of [RuneCountInString]: by how much [i]
    advances, [p] being [s[i:]].  The test [i+size > ns] is [len(p) < size],
    and [size] is at most four. *)
Definition rune_step (p : list byte) : Z :=
  let c := at_ p 0 in
  if c <? RuneSelf then 1 else
  let x := utf8.first c in
  if x =? utf8.xx then 1 else
  let size := Z.land x 7 in
  if len4 p <? size then 1 else
  let accept := utf8.acceptRanges (Z.shiftr x 4) in
  if (at_ p 1 <? utf8.lo accept) || (utf8.hi accept <? at_ p 1) then 1
  else if size =? 2 then size
  else if (at_ p 2 <? utf8.locb) || (utf8.hicb <? at_ p 2) then 1
  else if size =? 3 then size
  else if (at_ p 3 <? utf8.locb) || (utf8.hicb <? at_ p 3) then 1
  else size.

(** [for i := 0; i < ns; n++ { ... }]; [rest] is [s[i:]].  Each round
    consumes a byte at least, so [length rest] rounds are enough. *)
Fixpoint rune_loop (fuel : nat) (rest : list byte) (n : Z) : outcome Z :=
  match rest with
  | [] => Ret n
  | _ :: _ =>
      match fuel with
      | O => Fuel
      | S fuel' => rune_loop fuel' (skipn (Z.to_nat (rune_step rest)) rest) (n + 1)
      end
  end.

(** [RuneCountInString(s)]: erroneous and short encodings count as runes of
    one byte. *)
Definition RuneCountInString (s : list byte) : outcome Z :=
  rune_loop (List.length s) s 0.

End utf8_count.

(* ================================================================= *)
(** ** Package [fmt] of the Go standard library: the verb [%d] *)

Module fmt.

(** [byte('0' + d)] for a decimal digit [d]. *)
Definition digit (d : Z) : byte :=
  nth (Z.to_nat d)
      ["0"; "1"; "2"; "3"; "4"; "5"; "6"; "7"; "8"; "9"]%byte "0"%byte.

(** The base-10 loop of [fmtInteger], which fills its buffer from the
    right: [for u >= 10 { next := u / 10; buf[i] = byte('0' + u - next*10);
    u = next }], then the leading digit.  [buf] holds the digits written
    so far. *)
Fixpoint digits (fuel : nat) (u : Z) (buf : list byte) : outcome (list byte) :=
  if u >=? 10 then
    match fuel with
    | O => Fuel
    | S fuel' =>
        let next := u / 10 in
        digits fuel' next (digit (u - next * 10) :: buf)
    end
  else Ret (digit u :: buf).

(** [fmt.Sprintf("%d", n)] for a 64-bit [n]: the digits of the magnitude,
    of which a [uint64] has at most twenty, after a minus sign if [n] is
    negative. *)
Definition Sprintf_d (n : Z) : outcome (list byte) :=
  if n <? 0 then
    match digits 19 (- n) [] with
    | Ret s => Ret ("-"%byte :: s)
    | Panic => Panic
    | Fuel => Fuel
    end
  else digits 19 n [].

End fmt.

(* ================================================================= *)
(** ** Package [util] ([internal/util/format.go]) *)

(** A Go string is the list of its bytes. *)
Module util.

(** The slice expression [s[i:j]] of a string: Go panics unless
    [0 <= i <= j <= len(s)]. *)
Definition slice (s : list byte) (i j : Z) : outcome (list byte) :=
  if (0 <=? i) && (i <=? j) && (j <=? len s)
  then Ret (firstn (Z.to_nat (j - i)) (skipn (Z.to_nat i) s))
  else Panic.

(** [for i := rem; i < len(s); i += 3 { b.WriteByte(','); b.WriteString(s[i:i+3]) }]
    of [commaUnsigned]; [b] is the content of the builder. *)
Fixpoint comma_loop (fuel : nat) (s : list byte) (i : Z) (b : list byte) : outcome (list byte) :=
  if i <? len s then
    match fuel with
    | O => Fuel
    | S fuel' =>
        match slice s i (i + 3) with
        | Ret g => comma_loop fuel' s (i + 3) (b ++ [","%byte] ++ g)
        | Panic => Panic
        | Fuel => Fuel
        end
    end
  else Ret b.

Definition commaUnsigned (s : list byte) : outcome (list byte) :=
  if len s <=? 3 then Ret s else
  let rem := Z.rem (len s) 3 in
  let rem := if rem =? 0 then 3 else rem in
  match slice s 0 rem with
  | Ret head => comma_loop (List.length s) s rem head
  | Panic => Panic
  | Fuel => Fuel
  end.

(** [strings.HasPrefix(s, "-")]. *)
Definition HasPrefix_minus (s : list byte) : bool :=
  match s with
  | b :: _ => Byte.eqb b "-"%byte
  | [] => false
  end.

Definition commaSigned (s : list byte) : outcome (list byte) :=
  if HasPrefix_minus s then
    match slice s 1 (len s) with
    | Ret s' =>
        match commaUnsigned s' with
        | Ret out => Ret ("-"%byte :: out)
        | Panic => Panic
        | Fuel => Fuel
        end
    | Panic => Panic
    | Fuel => Fuel
    end
  else commaUnsigned s.

(** [CommaInt(n)] and [CommaInt64(n)]: [commaSigned(fmt.Sprintf("%d", n))]. *)
Definition CommaInt (n : Z) : outcome (list byte) :=
  match fmt.Sprintf_d n with
  | Ret s => commaSigned s
  | Panic => Panic
  | Fuel => Fuel
  end.

(** Arithmetic on [int64] wraps around. *)
Definition wrap64 (z : Z) : Z := (z + 2 ^ 63) mod 2 ^ 64 - 2 ^ 63.

Definition unit : Z := 1024.

Definition units : list (list byte) :=
  [ ["K"; "i"; "B"]; ["M"; "i"; "B"]; ["G"; "i"; "B"];
    ["T"; "i"; "B"]; ["P"; "i"; "B"]; ["E"; "i"; "B"] ]%byte.

(** [for exp < len(units)-1 && bytes >= div*unit { div *= unit; exp++ }]
    of [HumanBytes]. *)
Fixpoint scale_loop (fuel : nat) (bytes div exp : Z) : outcome (Z * Z) :=
  if (exp <? len units - 1) && (bytes >=? wrap64 (div * unit)) then
    match fuel with
    | O => Fuel
    | S fuel' => scale_loop fuel' bytes (wrap64 (div * unit)) (exp + 1)
    end
  else Ret (div, exp).

(** [units[exp]]: Go panics when the index is out of range. *)
Definition units_at (exp : Z) : outcome (list byte) :=
  if (0 <=? exp) && (exp <? len units) then Ret (nth (Z.to_nat exp) units []) else Panic.

Section HumanBytes.

(** The renderings [fmt.Sprintf("%.0f", v)] and [fmt.Sprintf("%.2f", v)] of
    the floating-point quotient [v := float64(bytes) / float64(div)], as
    functions of [bytes] and [div]. *)
Variable Sprintf_f0 : Z -> Z -> list byte.
Variable Sprintf_f2 : Z -> Z -> list byte.

Definition HumanBytes (bytes : Z) : outcome (list byte) :=
  if bytes <? unit then
    match fmt.Sprintf_d bytes with
    | Ret s => Ret (s ++ [" "; "B"]%byte)
    | Panic => Panic
    | Fuel => Fuel
    end
  else
    match scale_loop 5 bytes unit 0 with
    | Ret (div, exp) =>
        match units_at exp with
        | Ret u =>
            if Z.rem bytes div =? 0
            then Ret (Sprintf_f0 bytes div ++ [" "%byte] ++ u)
            else Ret (Sprintf_f2 bytes div ++ [" "%byte] ++ u)
        | Panic => Panic
        | Fuel => Fuel
        end
    | Panic => Panic
    | Fuel => Fuel
    end.

End HumanBytes.

End util.

(* ================================================================= *)
(** ** Package [analyze] *)

Module analyze.

Record FileStats := {
  Name : string;
  Ext : string;
  Kind : string;
  SizeBytes : Z;
  Size : string;
  Lines : Z;
  Words : Z;
  Chars : Z;
  ModTime : string;
  ModUnix : Z;
  HasError : bool;
  ErrorText : string
}.

(** [FileStats{Name: name, Ext: ext}]: every other field is zero. *)
Definition new_stats (name ext : string) : FileStats :=
  {| Name := name; Ext := ext; Kind := ""; SizeBytes := 0; Size := "";
     Lines := 0; Words := 0; Chars := 0; ModTime := ""; ModUnix := 0;
     HasError := false; ErrorText := "" |}.

(** [stat.HasError = true; stat.ErrorText = msg]. *)
Definition set_error (stat : FileStats) (msg : string) : FileStats :=
  {| Name := Name stat; Ext := Ext stat; Kind := Kind stat;
     SizeBytes := SizeBytes stat; Size := Size stat;
     Lines := Lines stat; Words := Words stat; Chars := Chars stat;
     ModTime := ModTime stat; ModUnix := ModUnix stat;
     HasError := true; ErrorText := msg |}.

(** The four assignments that follow a successful [os.Stat]. *)
Definition set_info (stat : FileStats) (human : Z -> string) (info : FileInfo) : FileStats :=
  {| Name := Name stat; Ext := Ext stat; Kind := Kind stat;
     SizeBytes := info_Size info; Size := human (info_Size info);
     Lines := Lines stat; Words := Words stat; Chars := Chars stat;
     ModTime := info_ModTime info; ModUnix := info_ModUnix info;
     HasError := HasError stat; ErrorText := ErrorText stat |}.

Definition set_kind (stat : FileStats) (kind : string) : FileStats :=
  {| Name := Name stat; Ext := Ext stat; Kind := kind;
     SizeBytes := SizeBytes stat; Size := Size stat;
     Lines := Lines stat; Words := Words stat; Chars := Chars stat;
     ModTime := ModTime stat; ModUnix := ModUnix stat;
     HasError := HasError stat; ErrorText := ErrorText stat |}.

(** [stat.Lines = l; stat.Words = w; stat.Chars = c]. *)
Definition set_counts (stat : FileStats) (l w c : Z) : FileStats :=
  {| Name := Name stat; Ext := Ext stat; Kind := Kind stat;
     SizeBytes := SizeBytes stat; Size := Size stat;
     Lines := l; Words := w; Chars := c;
     ModTime := ModTime stat; ModUnix := ModUnix stat;
     HasError := HasError stat; ErrorText := ErrorText stat |}.

(** *** Binary detection (lines 59-106) *)

Definition sniffSize : Z := 8192.

(** The quick NUL check: [for i := range n { if sniff[i] == 0x00 ... }]. *)
Fixpoint has_nul (sniff : list byte) : bool :=
  match sniff with
  | [] => false
  | b :: rest => if u8 b =? 0x00 then true else has_nul rest
  end.

(** [r == utf8.RuneError && size == 1 && !utf8.FullRune(p)]: the bytes [p]
    are the beginning of an encoding that the end of [p] cuts short. *)
Definition cut_short (p : list byte) : bool :=
  let '(r, size) := utf8.DecodeRune p in
  (r =? utf8.RuneError) && (size =? 1) && negb (utf8.FullRune p).

(** The UTF-8 sanity loop; [rest] is [sniff[i:n]] and the result is
    [isBin].  Each round consumes at least one byte, so [length rest]
    rounds are enough. *)
Fixpoint sniff_loop (fuel : nat) (rest : list byte) (invalid : Z) : outcome bool :=
  match rest with
  | [] => Ret false
  | _ :: _ =>
      let '(r, size) := utf8.DecodeRune rest in
      if (r =? utf8.RuneError) && (size =? 1) then
        if negb (utf8.FullRune rest) then Ret false
        else
          let invalid := invalid + 1 in
          if invalid >? 0 then Ret true
          else match fuel with
               | O => Fuel
               | S fuel' => sniff_loop fuel' (skipn 1 rest) invalid
               end
      else
        if invalid >? 0 then Ret true
        else match fuel with
             | O => Fuel
             | S fuel' => sniff_loop fuel' (skipn (Z.to_nat size) rest) invalid
             end
  end.

(** [isBin] for the sniffed bytes [sniff[:n]]. *)
Definition is_binary (sniff : list byte) : outcome bool :=
  if has_nul sniff then Ret true
  else sniff_loop (List.length sniff) sniff 0.

(** The bytes [sniff[:n]] that [f.ReadAt(sniff, 0)] fills, for a buffer of
    [min(size, sniffSize)] bytes. *)
Definition sniff_window (size : Z) (f : File) : list byte :=
  firstn (Z.to_nat (Z.min size sniffSize)) (at0 f).

(** [isBin] as lines 62-96 leave it: the sniff is made only of a file of
    positive size, and judged only if [ReadAt] delivered a byte. *)
Definition sniff_verdict (size : Z) (f : File) : outcome bool :=
  let sniff := sniff_window size f in
  if (size >? 0) && (len sniff >? 0) then is_binary sniff else Ret false.

(** *** The counting pass (lines 108-210) *)

(** The local variables of the pass.  [leftover] holds the live bytes
    [leftover[:leftN]] of the 4-byte array; [leftN] is their number. *)
Record Counter := {
  lines : Z;
  words : Z;
  chars : Z;
  inWord : bool;
  lastWasNewline : bool;
  leftover : list byte
}.

Definition leftN (st : Counter) : Z := len (leftover st).

Definition Counter0 : Counter :=
  {| lines := 0; words := 0; chars := 0; inWord := false;
     lastWasNewline := false; leftover := [] |}.

Definition set_leftover (st : Counter) (l : list byte) : Counter :=
  {| lines := lines st; words := words st; chars := chars st;
     inWord := inWord st; lastWasNewline := lastWasNewline st;
     leftover := l |}.

(** What both loops do with a decoded rune [r] (lines 132-149 and
    164-181). *)
Definition count_rune (st : Counter) (r : Z) : Counter :=
  let chars' := chars st + 1 in
  if r =? 10 then
    {| lines := lines st + 1; words := words st; chars := chars';
       inWord := false; lastWasNewline := true; leftover := leftover st |}
  else if unicode.IsSpace r then
    {| lines := lines st; words := words st; chars := chars';
       inWord := if inWord st then false else inWord st;
       lastWasNewline := false; leftover := leftover st |}
  else if negb (inWord st) then
    {| lines := lines st; words := words st + 1; chars := chars';
       inWord := true; lastWasNewline := false; leftover := leftover st |}
  else
    {| lines := lines st; words := words st; chars := chars';
       inWord := inWord st; lastWasNewline := false; leftover := leftover st |}.

(** Lines 122-153, entered with [leftN > 0]: the state and the index [i]
    at which the loop over the chunk starts. *)
Definition complete_carry (st : Counter) (buf : list byte) : Counter * Z :=
  let n := len buf in
  let need := Z.min (4 - leftN st) n in
  let seq := leftover st ++ firstn (Z.to_nat need) buf in
  let '(r, size) := utf8.DecodeRune seq in
  if (r =? utf8.RuneError) && (size =? 1) && negb (utf8.FullRune seq) then
    (set_leftover st seq, need)
  else
    (set_leftover (count_rune st r) [], size - leftN st).

(** Lines 156-183; [rest] is [buf[i:n]].  Each round consumes at least one
    byte, so [length rest] rounds are enough. *)
Fixpoint count_loop (fuel : nat) (rest : list byte) (st : Counter) : outcome Counter :=
  match rest with
  | [] => Ret st
  | _ :: _ =>
      let '(r, size) := utf8.DecodeRune rest in
      if (r =? utf8.RuneError) && (size =? 1) && negb (utf8.FullRune rest) then
        Ret (set_leftover st (firstn 4 rest))
      else
        match fuel with
        | O => Fuel
        | S fuel' => count_loop fuel' (skipn (Z.to_nat size) rest) (count_rune st r)
        end
  end.

(** The body of [if n > 0 { ... }] for one chunk [buf[:n]].  The slice
    expression [buf[i:n]] panics when [i] is negative. *)
Definition process_chunk (st : Counter) (buf : list byte) : outcome Counter :=
  let n := len buf in
  if n >? 0 then
    let '(st1, i) := if leftN st >? 0 then complete_carry st buf else (st, 0) in
    if i <? n then
      if i <? 0 then Panic
      else count_loop (List.length buf) (skipn (Z.to_nat i) buf) st1
    else Ret st1
  else Ret st.

(** The [for] loop over the reads that return a nil error. *)
Fixpoint count_reads (st : Counter) (chunks : list (list byte)) : outcome Counter :=
  match chunks with
  | [] => Ret st
  | buf :: more =>
      match process_chunk st buf with
      | Ret st' => count_reads st' more
      | Panic => Panic
      | Fuel => Fuel
      end
  end.

(** Lines 197-205: a sequence still incomplete at EOF is one rune. *)
Definition flush_leftover (st : Counter) : Counter :=
  if leftN st >? 0 then
    {| lines := lines st;
       words := if negb (inWord st) then words st + 1 else words st;
       chars := chars st + 1;
       inWord := if negb (inWord st) then true else inWord st;
       lastWasNewline := false;
       leftover := leftover st |}
  else st.

(** Lines 207-210: the final line without a newline. *)
Definition final_line (st : Counter) : Counter :=
  if (chars st >? 0) && negb (lastWasNewline st) then
    {| lines := lines st + 1; words := words st; chars := chars st;
       inWord := inWord st; lastWasNewline := lastWasNewline st;
       leftover := leftover st |}
  else st.

(** Everything after the read loop has met [io.EOF]. *)
Definition finish (st : Counter) : Counter := final_line (flush_leftover st).

(** *** [AnalyzeFile] *)

(** [AnalyzeFile] sends one record on [out] and returns ([Ret]), or
    panics before sending anything. *)
Definition AnalyzeFile (pl : Platform) (path : string) : outcome FileStats :=
  let stat := new_stats (filepath_Base pl path) (filepath_Ext pl path) in
  match os_Stat pl path with
  | Err msg => Ret (set_error stat msg)
  | Ok info =>
      let stat := set_info stat (util_HumanBytes pl) info in
      match os_Open pl path with
      | Err msg => Ret (set_error stat msg)
      | Ok f =>
          let stat := set_kind stat "text" in
          match sniff_verdict (SizeBytes stat) f with
          | Panic => Panic
          | Fuel => Fuel
          | Ret true => Ret (set_counts (set_kind stat "binary") 0 0 0)
          | Ret false =>
              match count_reads Counter0 (reads f) with
              | Panic => Panic
              | Fuel => Fuel
              | Ret st =>
                  match read_end f with
                  | ReadErr msg => Ret (set_error stat msg)
                  | EOF =>
                      let st := finish st in
                      Ret (set_counts stat (lines st) (words st) (chars st))
                  end
              end
          end
      end
  end.

End analyze.

(* ================================================================= *)
(** ** Regular files *)

(** The blocks of at most [k] bytes that [l] is read in. *)
Fixpoint blocks (fuel k : nat) (l : list byte) : list (list byte) :=
  match l, fuel with
  | [], _ => []
  | _, O => [l]
  | _, S fuel' => firstn k l :: blocks fuel' k (skipn k l)
  end.

(** [buf := make([]byte, 64*1024)]. *)
Definition bufSize : nat := Z.to_nat 65536.

(** A readable regular file holding [content]: every [Read] fills the
    64 KiB buffer until the content runs out, then comes [io.EOF]. *)
Definition regular_file (content : list byte) : File :=
  {| at0 := content;
     reads := blocks (List.length content) bufSize content;
     read_end := EOF |}.

(** A file holding [content] whose reads deliver it in the given [chunks]. *)
Definition chunked_file (content : list byte) (chunks : list (list byte)) : File :=
  {| at0 := content; reads := chunks; read_end := EOF |}.

(** A platform on which every path names the open file [f] of [size] bytes. *)
Definition platform_with (size : Z) (f : File) : Platform :=
  {| filepath_Base := fun p => p;
     filepath_Ext := fun _ => EmptyString;
     util_HumanBytes := fun _ => EmptyString;
     os_Stat := fun _ => Ok {| info_Size := size; info_ModTime := EmptyString; info_ModUnix := 0 |};
     os_Open := fun _ => Ok f |}.

(** The triple [(Lines, Words, Chars)] of a record. *)
Definition counts (r : analyze.FileStats) : Z * Z * Z :=
  (analyze.Lines r, analyze.Words r, analyze.Chars r).

(** [AnalyzeFile] on a file of [content] read in [chunks]: the counts of
    the record it sends. *)
Definition analyze_chunked (content : list byte) (chunks : list (list byte)) : outcome (string * (Z * Z * Z)) :=
  match analyze.AnalyzeFile (platform_with (len content) (chunked_file content chunks)) EmptyString with
  | Ret r => Ret (analyze.Kind r, counts r)
  | Panic => Panic
  | Fuel => Fuel
  end.

(** 65534 letters, then the first two bytes of a three-byte sequence, then
    a letter: the sequence straddles the end of the first 64 KiB read. *)
Definition straddling_content : list byte :=
  repeat Byte.x61 (Z.to_nat 65534) ++ [Byte.xe2; Byte.x82; Byte.x61].

(** [AnalyzeFile] on a regular file holding [content]. *)
Definition analyze_regular (content : list byte) : outcome (string * (Z * Z * Z)) :=
  match analyze.AnalyzeFile (platform_with (len content) (regular_file content)) EmptyString with
  | Ret r => Ret (analyze.Kind r, counts r)
  | Panic => Panic
  | Fuel => Fuel
  end.

(** What the first read of a regular file holding [straddling_content]
    delivers. *)
Definition straddling_first_read : list byte :=
  repeat Byte.x61 (Z.to_nat 65534) ++ [Byte.xe2; Byte.x82].

(* ================================================================= *)
(** ** Package [cli]: the number of jobs *)

Module cli.

Definition defaultJobs : Z := 1.

(** [cfg.Jobs] as [ParseArgs] returns it when it goes on to resolve the
    files: the value of the flag [-jobs] (or [-j]) if one was given, else
    [defaultJobs()], raised to 1 if below (lines 338-340 of [ParseArgs]). *)
Definition ParseArgs_Jobs (flag : option Z) : Z :=
  let Jobs := match flag with Some v => v | None => defaultJobs end in
  if Jobs <? 1 then 1 else Jobs.


(** *** [ParseArgs] as a whole *)

Record Config := {
  ShowSum : bool;
  ShowVersion : bool;
  SortBy : string;
  Desc : bool;
  Format : string;
  NoHeader : bool;
  Plain : bool;
  Jobs : Z;
  Progress : bool;
  Commas : bool;
  Files : list string
}.

(** What [fs.Parse(args)] leaves when it succeeds: the value of each flag,
    under its name or its alias, [None] for a flag with a default that was
    not given, and the remaining arguments [fs.Args()]. *)
Record Flags := {
  flag_sum : bool;
  flag_version : bool;
  flag_sort : option string;
  flag_desc : bool;
  flag_format : option string;
  flag_no_header : bool;
  flag_plain : bool;
  flag_jobs : option Z;
  flag_progress : bool;
  flag_commas : bool;
  flag_args : list string
}.

(** The file [stdin]: what [stdin.Stat()] returns (the mode bits), the
    lines the scanner yields, and [sc.Err()]. *)
Record Stdin := {
  stdin_Stat : result Z;
  stdin_lines : list string;
  stdin_Err : option string
}.

(** The error [ParseArgs] returns: a [*UsageError], or the scanner's. *)
Inductive error :=
| UsageError (Msg : string)
| ScanError (text : string).

(** [err.Error()]. *)
Definition Error (e : error) : string :=
  match e with UsageError m => m | ScanError m => m end.

Definition newline : string := String (Ascii.ascii_of_nat 10) EmptyString.

(** [Usage()]; the ellipsis is the three bytes of U+2026. *)
Definition Usage : string :=
  ("Usage: aperio [options] <file1> [file2] "
   ++ String (Ascii.ascii_of_nat 226) (String (Ascii.ascii_of_nat 128)
        (String (Ascii.ascii_of_nat 166) EmptyString))
   ++ newline
   ++ "   or: <producer> | aperio [options]   (read newline-delimited paths from stdin)")%string.

Definition validSortBy : list string :=
  ["name"; "ext"; "size"; "lines"; "words"; "chars"; "modified"]%string.

Definition validFormat : list string := ["table"; "csv"; "json"]%string.

(** [_, ok := m[key]] for a set [m] of strings. *)
Definition has_key (m : list string) (key : string) : bool :=
  existsb (String.eqb key) m.

(** [os.ModeCharDevice]. *)
Definition ModeCharDevice : Z := Z.shiftl 1 21.

Definition hasPipedInput (stdin : Stdin) : bool :=
  match stdin_Stat stdin with
  | Err _ => false
  | Ok mode => Z.land mode ModeCharDevice =? 0
  end.

Section ParseArgs.

Variable ToLower : string -> string.     (* [strings.ToLower] *)
Variable TrimSpace : string -> string.   (* [strings.TrimSpace] *)
Variable quote : string -> string.       (* the verb [%q] of [fmt.Sprintf] *)

Definition readPathsFrom (r : Stdin) : result (list string) :=
  let out := filter (fun line => negb (line =? EmptyString)%string)
                    (map TrimSpace (stdin_lines r)) in
  match stdin_Err r with
  | Some err => Err err
  | None => Ok out
  end.

(** [ParseArgs(args, stdin)], from the outcome of [fs.Parse(args)] on:
    [parsed] is [None] when [fs.Parse] fails, and a [nil] [stdin] is
    [None].  It returns the configuration or the error. *)
Definition ParseArgs (parsed : option Flags) (stdin : option Stdin) : Config + error :=
  match parsed with
  | None => inr (UsageError Usage)
  | Some fl =>
      let SortBy0 := match flag_sort fl with Some v => v | None => "name"%string end in
      let Format0 := match flag_format fl with Some v => v | None => "table"%string end in
      let Jobs0 := match flag_jobs fl with Some v => v | None => defaultJobs end in
      if flag_version fl then
        inl {| ShowSum := flag_sum fl; ShowVersion := true; SortBy := SortBy0;
               Desc := flag_desc fl; Format := Format0; NoHeader := flag_no_header fl;
               Plain := flag_plain fl; Jobs := Jobs0; Progress := flag_progress fl;
               Commas := flag_commas fl; Files := [] |}
      else
      let SortBy1 := ToLower SortBy0 in
      if negb (has_key validSortBy SortBy1) then
        inr (UsageError ("Invalid --sort value: " ++ quote SortBy1 ++ newline ++ newline ++ Usage))
      else
      let Format1 := ToLower Format0 in
      if negb (has_key validFormat Format1) then
        inr (UsageError ("Invalid --format value: " ++ quote Format1 ++ newline ++ newline ++ Usage))
      else
      let cfg files :=
        {| ShowSum := flag_sum fl; ShowVersion := false; SortBy := SortBy1;
           Desc := flag_desc fl; Format := Format1; NoHeader := flag_no_header fl;
           Plain := flag_plain fl; Jobs := ParseArgs_Jobs (flag_jobs fl);
           Progress := flag_progress fl; Commas := flag_commas fl; Files := files |} in
      if len (flag_args fl) =? 0 then
        match stdin with
        | Some f =>
            if hasPipedInput f then
              match readPathsFrom f with
              | Err err => inr (ScanError err)
              | Ok paths =>
                  if len paths =? 0
                  then inr (UsageError "No file paths provided via stdin")
                  else inl (cfg paths)
              end
            else inr (UsageError Usage)
        | None => inr (UsageError Usage)
        end
      else inl (cfg (flag_args fl))
  end.

End ParseArgs.

End cli.

(* ================================================================= *)
(** ** Package [run]: the goroutines of [Run] (lines 43-85) *)

(** [Run] starts one goroutine per path, after taking a slot of the
    buffered channel [sem]; a goroutine runs [AnalyzeFile], which sends its
    record on [results] and calls [wg.Done()] as it returns, and gives the
    slot back as it ends.  One more goroutine waits for the WaitGroup and
    closes [results]; the main goroutine ranges over [results].  The
    goroutines interleave: a state holds where each of them stands, and
    [step] is one action of one of them. *)
Module run.

(** Lines 43-49: the capacity of the semaphore, from [cfg.Jobs] and
    [runtime.NumCPU()]. *)
Definition jobs_limit (NumCPU cfgJobs : Z) : Z :=
  let jobs := cfgJobs in
  let jobs := if jobs <=? 0 then NumCPU else jobs in
  if jobs <? 1 then 1 else jobs.

(** The capacity [Run] works with when the command line requests [flag]:
    [Run] takes [cfg] from [cli.Parse]. *)
Definition Run_jobs (NumCPU : Z) (flag : option Z) : Z :=
  jobs_limit NumCPU (cli.ParseArgs_Jobs flag).

(** Where the main goroutine stands. *)
Inductive MainPc :=
| MLoop (todo : list string)              (* at the head of the [for], paths left *)
| MAcquire (p : string) (todo : list string)  (* [wg.Add(1)] done, at [sem <- struct{}{}] *)
| MGo (p : string) (todo : list string)   (* slot taken, at the [go] statement *)
| MCollect                                (* in [for fs := range results] *)
| MDone.                                  (* past the range loop: the batch is complete *)

(** Where the goroutine of a path stands. *)
Inductive WorkerPc :=
| WAnalyze        (* in [AnalyzeFile], before its send on [out] *)
| WSent           (* record sent, at the deferred [wg.Done()] *)
| WRelease        (* [AnalyzeFile] has returned, at the deferred [<-sem] *)
| WPanicDone      (* [AnalyzeFile] panicked, at the deferred [wg.Done()] *)
| WPanicRelease   (* panicking, at the deferred [<-sem] *)
| WCrash.         (* the deferred calls are done: the runtime ends the process *)

(** Where the goroutine that closes [results] stands. *)
Inductive CloserPc :=
| CNone     (* not started *)
| CWait     (* in [wg.Wait()] *)
| CClose    (* at [close(results)] *)
| CExit.

Record State := St {
  main : MainPc;
  workers : list (string * WorkerPc);
  closer : CloserPc;
  sem : Z;                              (* [len(sem)] *)
  wg : Z;                               (* the counter of the WaitGroup *)
  results : list analyze.FileStats;     (* the buffer of the channel *)
  closed : bool;                        (* [results] is closed *)
  stats : list analyze.FileStats;       (* the slice [stats] *)
  crashed : bool                        (* the process has died of a panic *)
}.

Definition init (files : list string) : State :=
  St (MLoop files) [] CNone 0 0 [] false [] false.

Section Steps.

Variable pl : Platform.
Variable jobs : Z.      (* [cap(sem)] *)
Variable cap : Z.       (* [cap(results)], which is [len(files)] *)

Inductive step : State -> State -> Prop :=
(* the main goroutine; [wg.Add(1)], line 57 *)
| step_add p todo ws c sm w rs cl st :
    step (St (MLoop (p :: todo)) ws c sm w rs cl st false)
         (St (MAcquire p todo) ws c sm (w + 1) rs cl st false)
(* [sem <- struct{}{}], line 58: blocks while the buffer is full *)
| step_acquire p todo ws c sm w rs cl st :
    sm < jobs ->
    step (St (MAcquire p todo) ws c sm w rs cl st false)
         (St (MGo p todo) ws c (sm + 1) w rs cl st false)
(* [go func(p string) { ... }(path)], line 59 *)
| step_go p todo ws c sm w rs cl st :
    step (St (MGo p todo) ws c sm w rs cl st false)
         (St (MLoop todo) (ws ++ [(p, WAnalyze)]) c sm w rs cl st false)
(* the loop is over: [go func() { wg.Wait(); close(results) }()], line 66 *)
| step_closer ws c sm w rs cl st :
    step (St (MLoop []) ws c sm w rs cl st false)
         (St MCollect ws CWait sm w rs cl st false)
(* [for fs := range results { stats = append(stats, fs) }], lines 79-80 *)
| step_recv ws c sm w r rs cl st :
    step (St MCollect ws c sm w (r :: rs) cl st false)
         (St MCollect ws c sm w rs cl (st ++ [r]) false)
(* the range loop ends once [results] is closed and drained *)
| step_end ws c sm w st :
    step (St MCollect ws c sm w [] true st false)
         (St MDone ws c sm w [] true st false)
(* the goroutine of a path; [out <- stat] in [AnalyzeFile]: blocks while
   the buffer is full *)
| step_send m ws1 p ws2 c sm w rs st r :
    analyze.AnalyzeFile pl p = Ret r ->
    len rs < cap ->
    step (St m (ws1 ++ (p, WAnalyze) :: ws2) c sm w rs false st false)
         (St m (ws1 ++ (p, WSent) :: ws2) c sm w (rs ++ [r]) false st false)
(* a send on a closed channel panics *)
| step_send_closed m ws1 p ws2 c sm w rs st r :
    analyze.AnalyzeFile pl p = Ret r ->
    step (St m (ws1 ++ (p, WAnalyze) :: ws2) c sm w rs true st false)
         (St m (ws1 ++ (p, WPanicDone) :: ws2) c sm w rs true st false)
(* [AnalyzeFile] panics before its send *)
| step_panic m ws1 p ws2 c sm w rs cl st :
    analyze.AnalyzeFile pl p = Panic ->
    step (St m (ws1 ++ (p, WAnalyze) :: ws2) c sm w rs cl st false)
         (St m (ws1 ++ (p, WPanicDone) :: ws2) c sm w rs cl st false)
(* [defer wg.Done()], line 34 of [AnalyzeFile] *)
| step_done m ws1 p ws2 c sm w rs cl st :
    0 < w ->
    step (St m (ws1 ++ (p, WSent) :: ws2) c sm w rs cl st false)
         (St m (ws1 ++ (p, WRelease) :: ws2) c sm (w - 1) rs cl st false)
(* [defer func() { <-sem }()], line 60, and the goroutine ends *)
| step_release m ws1 p ws2 c sm w rs cl st :
    0 < sm ->
    step (St m (ws1 ++ (p, WRelease) :: ws2) c sm w rs cl st false)
         (St m (ws1 ++ ws2) c (sm - 1) w rs cl st false)
(* a panic in [AnalyzeFile] runs the deferred calls, then ends the process *)
| step_panic_done m ws1 p ws2 c sm w rs cl st :
    0 < w ->
    step (St m (ws1 ++ (p, WPanicDone) :: ws2) c sm w rs cl st false)
         (St m (ws1 ++ (p, WPanicRelease) :: ws2) c sm (w - 1) rs cl st false)
| step_panic_release m ws1 p ws2 c sm w rs cl st :
    0 < sm ->
    step (St m (ws1 ++ (p, WPanicRelease) :: ws2) c sm w rs cl st false)
         (St m (ws1 ++ (p, WCrash) :: ws2) c (sm - 1) w rs cl st false)
| step_crash m ws1 p ws2 c sm w rs cl st :
    step (St m (ws1 ++ (p, WCrash) :: ws2) c sm w rs cl st false)
         (St m (ws1 ++ (p, WCrash) :: ws2) c sm w rs cl st true)
(* the goroutine that closes [results]; [wg.Wait()] returns at zero, line 67 *)
| step_wake m ws sm rs cl st :
    step (St m ws CWait sm 0 rs cl st false)
         (St m ws CClose sm 0 rs cl st false)
(* [close(results)], line 68 *)
| step_close m ws sm w rs st :
    step (St m ws CClose sm w rs false st false)
         (St m ws CExit sm w rs true st false).

(** The states [Run] can be in when it dispatches [files]. *)
Inductive reachable (files : list string) : State -> Prop :=
| reach_init : reachable files (init files)
| reach_step s s' : reachable files s -> step s s' -> reachable files s'.

(** Every run from [s] goes on, without getting stuck, until the main
    goroutine is past its range loop. *)
Inductive completes : State -> Prop :=
| completes_done s : main s = MDone -> crashed s = false -> completes s
| completes_step s :
    (exists s', step s s') -> (forall s', step s s' -> completes s') -> completes s.

End Steps.

(** Whether a goroutine holds a slot of [sem]. *)
Definition holds_slot (pc : WorkerPc) : bool :=
  match pc with WCrash => false | _ => true end.

(** Whether a goroutine has yet to send its record. *)
Definition not_sent (pc : WorkerPc) : bool :=
  match pc with WSent | WRelease => false | _ => true end.

Definition panicking (pc : WorkerPc) : bool :=
  match pc with WPanicDone | WPanicRelease | WCrash => true | _ => false end.

(** The paths the main goroutine has yet to start a goroutine for. *)
Definition pending (m : MainPc) : list string :=
  match m with
  | MLoop todo => todo
  | MAcquire p todo | MGo p todo => p :: todo
  | MCollect | MDone => []
  end.

Definition main_slot (m : MainPc) : Z :=
  match m with MGo _ _ => 1 | _ => 0 end.

Definition main_counted (m : MainPc) : Z :=
  match m with MAcquire _ _ | MGo _ _ => 1 | _ => 0 end.

Definition in_loop (m : MainPc) : bool :=
  match m with MLoop _ | MAcquire _ _ | MGo _ _ => true | _ => false end.

(** Whether a goroutine is inside [AnalyzeFile]. *)
Definition in_AnalyzeFile (pc : WorkerPc) : bool :=
  match pc with WAnalyze | WSent | WPanicDone => true | _ => false end.

Definition countp (f : WorkerPc -> bool) (ws : list (string * WorkerPc)) : Z :=
  len (filter (fun w => f (snd w)) ws).

(** The number of file analyses in execution. *)
Definition executing (s : State) : Z := countp in_AnalyzeFile (workers s).

(** What the goroutines of [ws] have yet to send. *)
Definition owed (pl : Platform) (ws : list (string * WorkerPc)) : list (outcome analyze.FileStats) :=
  flat_map (fun w => if not_sent (snd w) then [analyze.AnalyzeFile pl (fst w)] else []) ws.

(** The records collected and buffered, and the outcomes of the analyses
    still to come. *)
Definition ledger (pl : Platform) (s : State) : list (outcome analyze.FileStats) :=
  map Ret (stats s) ++ map Ret (results s) ++ owed pl (workers s)
  ++ map (analyze.AnalyzeFile pl) (pending (main s)).

(** A bound on the number of steps a run has left. *)
Definition weight (pc : WorkerPc) : Z :=
  match pc with
  | WAnalyze => 4 | WSent => 2 | WRelease => 1
  | WPanicDone => 3 | WPanicRelease => 2 | WCrash => 1
  end.

Definition main_weight (m : MainPc) : Z :=
  match m with
  | MLoop todo => 7 * len todo + 4
  | MAcquire _ todo => 7 * len todo + 10
  | MGo _ todo => 7 * len todo + 9
  | MCollect => 1
  | MDone => 0
  end.

Definition closer_weight (c : CloserPc) : Z :=
  match c with CNone | CWait => 2 | CClose => 1 | CExit => 0 end.

Fixpoint weights (ws : list (string * WorkerPc)) : Z :=
  match ws with
  | [] => 0
  | w :: rest => weight (snd w) + weights rest
  end.

Definition measure (s : State) : Z :=
  main_weight (main s) + weights (workers s) + len (results s)
  + closer_weight (closer s) + (if crashed s then 0 else 1).

(** What holds in every state of a run over [files]. *)
Record Inv (pl : Platform) (jobs : Z) (files : list string) (s : State) : Prop := {
  inv_sem : sem s = countp holds_slot (workers s) + main_slot (main s);
  inv_cap : sem s <= jobs;
  inv_wg : wg s = countp in_AnalyzeFile (workers s) + main_counted (main s);
  inv_ledger : Permutation (map (analyze.AnalyzeFile pl) files) (ledger pl s);
  inv_closer : closer s = CNone <-> in_loop (main s) = true;
  inv_woke : closer s = CClose \/ closer s = CExit -> wg s = 0;
  inv_closed : closed s = true <-> closer s = CExit;
  inv_done : main s = MDone -> results s = [] /\ closed s = true;
  inv_panics : forall p pc, In (p, pc) (workers s) -> panicking pc = true ->
                            analyze.AnalyzeFile pl p = Panic;
  inv_crashed : crashed s = true -> exists p, In (p, WCrash) (workers s)
}.


(** *** The exit code of a run that ends early (lines 23-38) *)

(** [strings.HasPrefix(s, p)]. *)
Definition HasPrefix (s p : string) : bool := String.prefix p s.

(** The exit code with which [Run] returns before any file is analysed,
    if it does: [parsed] is what [cli.Parse()] returned. *)
Definition Run_early (parsed : cli.Config + cli.error) : option Z :=
  match parsed with
  | inr err =>
      let msg := cli.Error err in
      if HasPrefix msg "Invalid --sort" || HasPrefix msg "Invalid --format"
      then Some 2 else Some 1
  | inl cfg => if cli.ShowVersion cfg then Some 0 else None
  end.

(** *** [sortStats] (lines 113-162) *)

Section sortStats.

(** [strings.ToLower]. *)
Variable ToLower : string -> string.

(** The [switch sortBy] of the closure passed to [sort.Slice]: the value
    of [less], for [a := stats[i]] and [b := stats[j]].  Strings compare
    byte by byte. *)
Definition less_key (sortBy : string) (a b : analyze.FileStats) : bool :=
  if (sortBy =? "name")%string then
    String.ltb (ToLower (analyze.Name a)) (ToLower (analyze.Name b))
  else if (sortBy =? "ext")%string then
    String.ltb (ToLower (analyze.Ext a)) (ToLower (analyze.Ext b))
  else if (sortBy =? "size")%string then analyze.SizeBytes a <? analyze.SizeBytes b
  else if (sortBy =? "lines")%string then analyze.Lines a <? analyze.Lines b
  else if (sortBy =? "words")%string then analyze.Words a <? analyze.Words b
  else if (sortBy =? "chars")%string then analyze.Chars a <? analyze.Chars b
  else if (sortBy =? "modified")%string then
    if negb (analyze.ModUnix a =? 0) || negb (analyze.ModUnix b =? 0)
    then analyze.ModUnix a <? analyze.ModUnix b
    else String.ltb (analyze.ModTime a) (analyze.ModTime b)
  else String.ltb (ToLower (analyze.Name a)) (ToLower (analyze.Name b)).

(** The closure passed to [sort.Slice] (lines 115-161), [sortBy] having
    been lowered at line 114. *)
Definition sortStats_less (sortBy : string) (desc : bool) (a b : analyze.FileStats) : bool :=
  let sortBy := ToLower sortBy in
  if analyze.HasError a && negb (analyze.HasError b) then false
  else if negb (analyze.HasError a) && analyze.HasError b then true
  else if negb (analyze.Kind a =? analyze.Kind b)%string
          && (analyze.Kind a =? "binary")%string then false
  else if negb (analyze.Kind a =? analyze.Kind b)%string
          && (analyze.Kind b =? "binary")%string then true
  else
    let less := less_key sortBy a b in
    if desc then negb less else less.

End sortStats.

(** *** [writeTable] (lines 203-366) *)

(** A Go string constant or field, as its bytes. *)
Definition bytes (s : string) : list byte := list_byte_of_string s.

Definition headers : list (list byte) :=
  map bytes ["File"; "Ext"; "Kind"; "Size"; "Lines"; "Words"; "Chars"; "Modified"]%string.

(** [strings.Repeat(s, count)], which panics on a negative count. *)
Definition Repeat (s : list byte) (count : Z) : outcome (list byte) :=
  if count <? 0 then Panic else Ret (List.concat (repeat s (Z.to_nat count))).

Definition displayWidth (s : list byte) : outcome Z := utf8_count.RuneCountInString s.

Definition padRight (s : list byte) (width : Z) : outcome (list byte) :=
  w <- displayWidth s ;;
  let pad := width - w in
  if pad >? 0 then sp <- Repeat [" "%byte] pad ;; Ret (s ++ sp) else Ret s.

Definition padLeft (s : list byte) (width : Z) : outcome (list byte) :=
  w <- displayWidth s ;;
  let pad := width - w in
  if pad >? 0 then sp <- Repeat [" "%byte] pad ;; Ret (sp ++ s) else Ret s.

Definition fmtInt (commas : bool) (n : Z) : outcome (list byte) :=
  if commas then util.CommaInt n else fmt.Sprintf_d n.

(** The map [rightAligned]: the columns Size, Lines, Words and Chars. *)
Definition rightAligned (i : nat) : bool :=
  (i =? 3)%nat || (i =? 4)%nat || (i =? 5)%nat || (i =? 6)%nat.

(** [totalBytes] is an [int64]; the three other totals are [int]s, of 64
    bits: all four wrap around. *)
Record Totals := {
  totalBytes : Z;
  totalLines : Z;
  totalWords : Z;
  totalChars : Z
}.

Definition zero_totals : Totals :=
  {| totalBytes := 0; totalLines := 0; totalWords := 0; totalChars := 0 |}.

Definition dash : list byte := ["-"%byte].

(** The loop over [stats] of lines 238-263: the rows and the totals. *)
Fixpoint collect (commas : bool) (records : list analyze.FileStats)
    (rows : list (list (list byte))) (t : Totals) : outcome (list (list (list byte)) * Totals) :=
  match records with
  | [] => Ret (rows, t)
  | fs :: more =>
      if analyze.HasError fs then
        collect commas more
          (rows ++ [[bytes (analyze.Name fs); bytes (analyze.Ext fs); dash; dash; dash; dash;
                     dash; bytes (analyze.ErrorText fs)]]) t
      else
        lstr <- fmtInt commas (analyze.Lines fs) ;;
        wstr <- fmtInt commas (analyze.Words fs) ;;
        cstr <- fmtInt commas (analyze.Chars fs) ;;
        let binary := (analyze.Kind fs =? "binary")%string in
        let row := [bytes (analyze.Name fs); bytes (analyze.Ext fs); bytes (analyze.Kind fs);
                    bytes (analyze.Size fs);
                    if binary then dash else lstr;
                    if binary then dash else wstr;
                    if binary then dash else cstr;
                    bytes (analyze.ModTime fs)] in
        let tb := util.wrap64 (totalBytes t + analyze.SizeBytes fs) in
        let t' :=
          if negb binary then
            {| totalBytes := tb;
               totalLines := util.wrap64 (totalLines t + analyze.Lines fs);
               totalWords := util.wrap64 (totalWords t + analyze.Words fs);
               totalChars := util.wrap64 (totalChars t + analyze.Chars fs) |}
          else
            {| totalBytes := tb; totalLines := totalLines t;
               totalWords := totalWords t; totalChars := totalChars t |} in
        collect commas more (rows ++ [row]) t'
  end.

(** [l[i] = v]. *)
Fixpoint update {A : Type} (l : list A) (i : nat) (v : A) : list A :=
  match l, i with
  | [], _ => []
  | _ :: t, O => v :: t
  | x :: t, S i' => x :: update t i' v
  end.

(** [if w > widths[i] { widths[i] = w }]: an index out of range panics. *)
Definition widen (widths : list Z) (i : nat) (w : Z) : outcome (list Z) :=
  match nth_error widths i with
  | None => Panic
  | Some cur => if w >? cur then Ret (update widths i w) else Ret widths
  end.

(** [for i, cell := range row { ... }], from the index [i] on. *)
Fixpoint widen_cells (widths : list Z) (i : nat) (cells : list (list byte)) : outcome (list Z) :=
  match cells with
  | [] => Ret widths
  | cell :: rest =>
      w <- displayWidth cell ;;
      widths' <- widen widths i w ;;
      widen_cells widths' (S i) rest
  end.

Fixpoint widen_rows (widths : list Z) (rows : list (list (list byte))) : outcome (list Z) :=
  match rows with
  | [] => Ret widths
  | row :: more =>
      widths' <- widen_cells widths 0 row ;;
      widen_rows widths' more
  end.

(** [widths[i] = displayWidth(h)] for every header. *)
Fixpoint header_widths (hs : list (list byte)) : outcome (list Z) :=
  match hs with
  | [] => Ret []
  | h :: rest =>
      w <- displayWidth h ;;
      ws <- header_widths rest ;;
      Ret (w :: ws)
  end.

(** The drawing characters: box-drawing runes, or ASCII under [-plain]. *)
Record Glyphs := {
  vert : list byte;
  horiz : list byte;
  topLeft : list byte; topSep : list byte; topRight : list byte;
  midLeft : list byte; midSep : list byte; midRight : list byte;
  botLeft : list byte; botSep : list byte; botRight : list byte
}.

Definition box : Glyphs :=
  {| vert := [Byte.xe2; Byte.x94; Byte.x82];
     horiz := [Byte.xe2; Byte.x94; Byte.x80];
     topLeft := [Byte.xe2; Byte.x95; Byte.xad];
     topSep := [Byte.xe2; Byte.x94; Byte.xac];
     topRight := [Byte.xe2; Byte.x95; Byte.xae];
     midLeft := [Byte.xe2; Byte.x94; Byte.x9c];
     midSep := [Byte.xe2; Byte.x94; Byte.xbc];
     midRight := [Byte.xe2; Byte.x94; Byte.xa4];
     botLeft := [Byte.xe2; Byte.x95; Byte.xb0];
     botSep := [Byte.xe2; Byte.x94; Byte.xb4];
     botRight := [Byte.xe2; Byte.x95; Byte.xaf] |}.

Definition ascii_box : Glyphs :=
  {| vert := ["|"%byte]; horiz := ["-"%byte];
     topLeft := ["+"%byte]; topSep := ["+"%byte]; topRight := ["+"%byte];
     midLeft := ["+"%byte]; midSep := ["+"%byte]; midRight := ["+"%byte];
     botLeft := ["+"%byte]; botSep := ["+"%byte]; botRight := ["+"%byte] |}.

(** The loop of [drawLine] over [widths]: what is written between [left]
    and [right]. *)
Fixpoint drawLine_cols (horiz_ sep : list byte) (widths : list Z) : outcome (list byte) :=
  match widths with
  | [] => Ret []
  | w :: rest =>
      h <- Repeat horiz_ (w + 2) ;;
      tail <- drawLine_cols horiz_ sep rest ;;
      Ret (h ++ (match rest with [] => [] | _ :: _ => sep end) ++ tail)
  end.

(** The string that [drawLine(left, sep, right)] hands to [fmt.Fprintln]. *)
Definition drawLine (g : Glyphs) (widths : list Z) (left sep right : list byte) : outcome (list byte) :=
  cols <- drawLine_cols (horiz g) sep widths ;;
  Ret (left ++ cols ++ right).

(** The loop of [drawRow] over [widths], from the column [i] on; a column
    past the last cell is empty. *)
Fixpoint drawRow_cols (vert_ : list byte) (cells : list (list byte)) (i : nat) (widths : list Z)
    : outcome (list byte) :=
  match widths with
  | [] => Ret []
  | w :: rest =>
      let cell := nth i cells [] in
      padded <- (if rightAligned i then padLeft cell w else padRight cell w) ;;
      tail <- drawRow_cols vert_ cells (S i) rest ;;
      Ret ([" "%byte] ++ padded ++ [" "%byte]
           ++ (match rest with [] => [] | _ :: _ => vert_ end) ++ tail)
  end.

(** The string that [drawRow(cells)] hands to [fmt.Fprintln]. *)
Definition drawRow (g : Glyphs) (widths : list Z) (cells : list (list byte)) : outcome (list byte) :=
  cols <- drawRow_cols (vert g) cells 0 widths ;;
  Ret (vert g ++ cols ++ vert g).

(** [for i, row := range rows { drawRow(row); if i < len(rows)-1 { drawLine(...) } }]. *)
Fixpoint draw_body (g : Glyphs) (widths : list Z) (rows : list (list (list byte)))
    : outcome (list (list byte)) :=
  match rows with
  | [] => Ret []
  | row :: more =>
      l <- drawRow g widths row ;;
      match more with
      | [] => Ret [l]
      | _ :: _ =>
          m <- drawLine g widths (midLeft g) (midSep g) (midRight g) ;;
          tail <- draw_body g widths more ;;
          Ret (l :: m :: tail)
      end
  end.

Section writeTable.

(** The two floating-point renderings of [HumanBytes]. *)
Variable Sprintf_f0 : Z -> Z -> list byte.
Variable Sprintf_f2 : Z -> Z -> list byte.

(** The cells of the footer (lines 283-292). *)
Definition footer_cells (commas : bool) (nfiles : Z) (t : Totals) : outcome (list (list byte)) :=
  n <- fmt.Sprintf_d nfiles ;;
  size <- util.HumanBytes Sprintf_f0 Sprintf_f2 (totalBytes t) ;;
  l <- fmtInt commas (totalLines t) ;;
  w <- fmtInt commas (totalWords t) ;;
  c <- fmtInt commas (totalChars t) ;;
  Ret [bytes "TOTAL (" ++ n ++ bytes " files)"; []; []; size; l; w; c; []].

(** [writeTable]: the strings that its calls of [drawLine] and [drawRow]
    hand to [fmt.Fprintln], in order. *)
Definition writeTable (records : list analyze.FileStats) (showSum plain commas : bool)
    : outcome (list (list byte)) :=
  rt <- collect commas records [] zero_totals ;;
  let '(rows, t) := rt in
  widths <- header_widths headers ;;
  widths <- widen_rows widths rows ;;
  fw <- (if showSum then
           footer <- footer_cells commas (len records) t ;;
           widths' <- widen_cells widths 0 footer ;;
           Ret (Some footer, widths')
         else Ret (None, widths)) ;;
  let '(footer, widths) := fw in
  let g := if plain then ascii_box else box in
  top <- drawLine g widths (topLeft g) (topSep g) (topRight g) ;;
  hdr <- drawRow g widths headers ;;
  mid <- drawLine g widths (midLeft g) (midSep g) (midRight g) ;;
  body <- draw_body g widths rows ;;
  foot <- match footer with
          | Some cells =>
              sep <- (if len rows >? 0
                      then m <- drawLine g widths (midLeft g) (midSep g) (midRight g) ;; Ret [m]
                      else Ret []) ;;
              f <- drawRow g widths cells ;;
              Ret (sep ++ [f])
          | None => Ret []
          end ;;
  bot <- drawLine g widths (botLeft g) (botSep g) (botRight g) ;;
  Ret ([top; hdr; mid] ++ body ++ foot ++ [bot]).

(** [fmt.Fprintln(os.Stdout, s)] writes the bytes of [s] and a newline. *)
Definition Fprintln (s : list byte) : list byte := s ++ [Byte.x0a].

(** What [writeTable] has written on standard output when it returns. *)
Definition writeTable_stdout (records : list analyze.FileStats) (showSum plain commas : bool)
    : outcome (list byte) :=
  strings <- writeTable records showSum plain commas ;;
  Ret (List.concat (map Fprintln strings)).

End writeTable.

End run.

(* ================================================================= *)
(** ** The notions of the specification *)

(** The code points with the Unicode property White_Space. *)
Definition White_Space (r : Z) : Prop :=
  0x09 <= r <= 0x0D \/ r = 0x20 \/ r = 0x85 \/ r = 0xA0 \/ r = 0x1680 \/
  0x2000 <= r <= 0x200A \/ r = 0x2028 \/ r = 0x2029 \/ r = 0x202F \/
  r = 0x205F \/ r = 0x3000.

(** How a left-to-right decoding of a sniff window ends: every sequence was
    valid; or it met a sequence that the end of the window cuts short; or it
    met a sequence that is complete and does not decode. *)
Inductive scan_end := AllValid | Truncated | Invalid.

Inductive scans : list byte -> scan_end -> Prop :=
| scans_end : scans [] AllValid
| scans_invalid p :
    p <> [] -> utf8.DecodeRune p = (utf8.RuneError, 1) -> utf8.FullRune p = true ->
    scans p Invalid
| scans_truncated p :
    p <> [] -> utf8.DecodeRune p = (utf8.RuneError, 1) -> utf8.FullRune p = false ->
    scans p Truncated
| scans_step p r size e :
    p <> [] -> utf8.DecodeRune p = (r, size) -> (r, size) <> (utf8.RuneError, 1) ->
    scans (skipn (Z.to_nat size) p) e ->
    scans p e.

Definition is_invalid (e : scan_end) : bool :=
  match e with Invalid => true | _ => false end.

(** The binary signal of a sniff window: a NUL byte, or a complete sequence
    that does not decode. *)
Definition binary_signal (w : list byte) : Prop :=
  In Byte.x00 w \/ scans w Invalid.

(** An I/O failure met while [path] is analysed: [os.Stat] fails; or
    [os.Open] fails; or the file is opened and taken for text, the reads
    made so far have been counted, and the next read fails. *)
Inductive io_failure (pl : Platform) (path : string) (msg : string) : Prop :=
| stat_fails :
    os_Stat pl path = Err msg -> io_failure pl path msg
| open_fails info :
    os_Stat pl path = Ok info -> os_Open pl path = Err msg -> io_failure pl path msg
| read_fails info f st :
    os_Stat pl path = Ok info -> os_Open pl path = Ok f ->
    analyze.sniff_verdict (info_Size info) f = Ret false ->
    analyze.count_reads analyze.Counter0 (reads f) = Ret st ->
    read_end f = ReadErr msg ->
    io_failure pl path msg.

(** No counter is negative, and no more words than characters are
    counted. *)
Definition counts_ok (st : analyze.Counter) : Prop :=
  0 <= analyze.lines st /\ 0 <= analyze.words st <= analyze.chars st.

(** No analysis of a path of [files] panics. *)
Definition no_panic (pl : Platform) (files : list string) : Prop :=
  forall p, In p files -> analyze.AnalyzeFile pl p <> Panic.

(** Every analysis of a path of [files] returns, having sent its record:
    it does not panic, and it does not stay in [os.Open] or in its read
    loop for ever, as it would on a FIFO that nobody writes to or on a
    file that never comes to its end. *)
Definition all_return (pl : Platform) (files : list string) : Prop :=
  forall p, In p files -> exists r, analyze.AnalyzeFile pl p = Ret r.

(** The platform on which every path names a regular file holding
    [straddling_content]. *)
Definition straddling_platform : Platform :=
  platform_with (len straddling_content) (regular_file straddling_content).

(** Between two reads the carry is empty or holds a sequence cut short. *)
Definition carry_ok (st : analyze.Counter) : Prop :=
  analyze.leftover st = [] \/ analyze.cut_short (analyze.leftover st) = true.

(** *** Newlines *)

(** The number of newline bytes of a content. *)
Fixpoint count_nl (l : list byte) : Z :=
  match l with
  | [] => 0
  | b :: t => (if u8 b =? 10 then 1 else 0) + count_nl t
  end.

(** Whether the last byte is a newline. *)
Definition ends_nl (l : list byte) : bool := u8 (last l Byte.x00) =? 10.

(** A content that is not empty and does not end with a newline. *)
Definition unterminated (l : list byte) : bool :=
  match l with [] => false | _ :: _ => negb (ends_nl l) end.

(** The counters after the bytes [pre] have been decoded. *)
Definition tracks (pre : list byte) (st : analyze.Counter) : Prop :=
  analyze.lines st = count_nl pre /\ analyze.lastWasNewline st = ends_nl pre /\
  analyze.chars st <= len pre <= 4 * analyze.chars st.

(** *** Runes *)

(** The number of runes of [p], counted as [RuneCountInString] does, in at
    most [fuel] rounds. *)
Fixpoint runes (fuel : nat) (p : list byte) : Z :=
  match p, fuel with
  | [], _ => 0
  | _ :: _, O => 0
  | _ :: _, S fuel' => 1 + runes fuel' (skipn (Z.to_nat (utf8_count.rune_step p)) p)
  end.

Definition rune_count (p : list byte) : Z := runes (List.length p) p.

(** A string that is one rune wherever it stands: an ASCII byte, or a
    complete valid sequence. *)
Definition glyph (g : list byte) : Prop :=
  g <> [] /\ forall y, utf8_count.rune_step (g ++ y) = len g.

(** *** Numerals *)

Definition is_comma (b : byte) : bool := Byte.eqb b ","%byte.

Definition is_digit (b : byte) : bool := (48 <=? u8 b) && (u8 b <=? 57).

Definition strip_commas (s : list byte) : list byte :=
  filter (fun b => negb (is_comma b)) s.

(** A comma before every three bytes. *)
Fixpoint grouped (l : list byte) : list byte :=
  match l with
  | a :: b :: c :: t => ","%byte :: a :: b :: c :: grouped t
  | _ => []
  end.

(** The number of bytes before the first comma: one to three. *)
Definition head_len (s : list byte) : Z := (len s - 1) mod 3 + 1.

(** The number a string of decimal digits denotes. *)
Definition value_of (s : list byte) : Z :=
  fold_left (fun acc b => 10 * acc + (u8 b - 48)) s 0.

(** The number a decimal numeral with an optional minus sign denotes. *)
Definition read_int (s : list byte) : Z :=
  match s with
  | b :: t => if Byte.eqb b "-"%byte then - value_of t else value_of s
  | [] => 0
  end.

(** The values of a Go [int] or [int64]. *)
Definition in_int (z : Z) : Prop := - 2 ^ 63 <= z < 2 ^ 63.

(** *** The command line *)

(** The value of [-sort] and of [-format] that a command line asks for. *)
Definition asked_sort (fl : cli.Flags) : string :=
  match cli.flag_sort fl with Some v => v | None => "name"%string end.

Definition asked_format (fl : cli.Flags) : string :=
  match cli.flag_format fl with Some v => v | None => "table"%string end.

(** The scanner's error, if any, is not worded like a rejected flag. *)
Definition plain_scan_error (stdin : option cli.Stdin) : Prop :=
  forall f msg, stdin = Some f -> cli.stdin_Err f = Some msg ->
    run.HasPrefix msg "Invalid --sort" = false /\ run.HasPrefix msg "Invalid --format" = false.

(** [printf ' a.txt\n\nb.txt\n' | aperio -sort SIZE -desc -jobs 0]: no
    argument, and three lines on a standard input that is not a terminal. *)
Definition piped_flags : cli.Flags :=
  {| cli.flag_sum := false; cli.flag_version := false; cli.flag_sort := Some "SIZE"%string;
     cli.flag_desc := true; cli.flag_format := None; cli.flag_no_header := false;
     cli.flag_plain := false; cli.flag_jobs := Some 0; cli.flag_progress := false;
     cli.flag_commas := false; cli.flag_args := [] |}.

Definition piped_stdin : cli.Stdin :=
  {| cli.stdin_Stat := Ok 0;
     cli.stdin_lines := [" a.txt"; EmptyString; "b.txt"]%string;
     cli.stdin_Err := None |}.

(** A line is kept if something is left of it once it is trimmed. *)
Definition not_blank (line : string) : bool := negb (line =? EmptyString)%string.

(** [aperio -sort bogus a.txt]. *)
Definition bogus_flags : cli.Flags :=
  {| cli.flag_sum := false; cli.flag_version := false; cli.flag_sort := Some "bogus"%string;
     cli.flag_desc := false; cli.flag_format := None; cli.flag_no_header := false;
     cli.flag_plain := false; cli.flag_jobs := None; cli.flag_progress := false;
     cli.flag_commas := false; cli.flag_args := ["a.txt"%string] |}.

(** *** The report *)

(** The group of a record in the sorted output: analysed files before
    failed ones, and in each of the two, binary files last. *)
Definition group (r : analyze.FileStats) : Z :=
  (if analyze.HasError r then 2 else 0)
  + (if (analyze.Kind r =? "binary")%string then 1 else 0).

Definition int_counts (fs : analyze.FileStats) : Prop :=
  in_int (analyze.Lines fs) /\ in_int (analyze.Words fs) /\ in_int (analyze.Chars fs).

(** The records of files that were analysed, and among them those of
    files that are not binary. *)
Definition analysed (fs : analyze.FileStats) : bool := negb (analyze.HasError fs).

Definition analysed_text (fs : analyze.FileStats) : bool :=
  negb (analyze.HasError fs) && negb (analyze.Kind fs =? "binary")%string.

Definition sumZ (l : list Z) : Z := fold_right Z.add 0 l.

Definition totals_in_range (t : run.Totals) : Prop :=
  in_int (run.totalBytes t) /\ in_int (run.totalLines t) /\
  in_int (run.totalWords t) /\ in_int (run.totalChars t).

(** The column widths are wide enough for the cells of a row. *)
Definition covers (widths : list Z) (cells : list (list byte)) : Prop :=
  forall k, (k < List.length widths)%nat -> rune_count (nth k cells []) <= nth k widths 0.

(** The width of what [drawLine] and [drawRow] write between the two
    borders, and of a whole line of the table. *)
Fixpoint cols_width (widths : list Z) : Z :=
  match widths with
  | [] => 0
  | w :: rest => w + 2 + (match rest with [] => 0 | _ :: _ => 1 end) + cols_width rest
  end.

Definition table_width (widths : list Z) : Z := cols_width widths + 2.

Definition good_glyphs (g : run.Glyphs) : Prop :=
  glyph (run.vert g) /\ glyph (run.horiz g) /\
  glyph (run.topLeft g) /\ glyph (run.topSep g) /\ glyph (run.topRight g) /\
  glyph (run.midLeft g) /\ glyph (run.midSep g) /\ glyph (run.midRight g) /\
  glyph (run.botLeft g) /\ glyph (run.botSep g) /\ glyph (run.botRight g).

(** Widths that have not shrunk. *)
Definition le_all (ws ws' : list Z) : Prop :=
  List.length ws = List.length ws' /\ forall k, nth k ws 0 <= nth k ws' 0.

(** The runes of a content, decoded from left to right in at most [fuel]
    steps; a sequence that the end of the content cuts short is one
    replacement rune. *)
Fixpoint runes_of (fuel : nat) (p : list byte) : list Z :=
  match p with
  | [] => []
  | _ :: _ =>
      if analyze.cut_short p then [utf8.RuneError]
      else match fuel with
           | O => []
           | S fuel' =>
               fst (utf8.DecodeRune p)
               :: runes_of fuel' (skipn (Z.to_nat (snd (utf8.DecodeRune p))) p)
           end
  end.

Definition content_runes (p : list byte) : list Z := runes_of (List.length p) p.

(** The number of runes that are not white space and stand first or after
    white space: the words. *)
Fixpoint word_starts (after_space : bool) (R : list Z) : Z :=
  match R with
  | [] => 0
  | r :: t =>
      (if after_space && negb (unicode.IsSpace r) then 1 else 0)
      + word_starts (unicode.IsSpace r) t
  end.

Definition count_words (R : list Z) : Z := word_starts true R.

Definition count_newlines (R : list Z) : Z := len (filter (Z.eqb 10) R).

(** The runes do not end with a newline, and there are some. *)
Definition open_line (R : list Z) : bool :=
  match R with [] => false | _ :: _ => negb (last R 0 =? 10) end.

(** Two states of the counting pass that differ in the carry at most. *)
Definition same_counts (a b : analyze.Counter) : Prop :=
  analyze.lines a = analyze.lines b /\ analyze.words a = analyze.words b /\
  analyze.chars a = analyze.chars b /\ analyze.inWord a = analyze.inWord b /\
  analyze.lastWasNewline a = analyze.lastWasNewline b.

(** *** Words *)

(** A word starts at the [k]-th codepoint of [R] when that codepoint is
    not white space and is the first one or follows white space. *)
Definition word_start (R : list Z) (k : nat) : Prop :=
  (k < List.length R)%nat /\ ~ White_Space (nth k R 0) /\
  (k = 0%nat \/ exists j, k = S j /\ White_Space (nth j R 0)).

(** The same, as a test on the codepoints. *)
Definition starts_word (R : list Z) (k : nat) : bool :=
  negb (unicode.IsSpace (nth k R 0))
  && match k with O => true | S j => unicode.IsSpace (nth j R 0) end.

(** The places of [R] where a word starts, in increasing order. *)
Definition word_positions (R : list Z) : list nat :=
  filter (starts_word R) (seq 0 (List.length R)).

(** *** The lines of an output *)

(** A string without a newline byte. *)
Definition nl_free (s : list byte) : Prop := Forall (fun b => b <> Byte.x0a) s.

(** The lines of [out], the bytes [cur] of the line begun coming first: a
    newline byte ends a line, and what follows the last newline is a line
    if it is not empty. *)
Fixpoint lines_from (cur out : list byte) : list (list byte) :=
  match out with
  | [] => match cur with [] => [] | _ :: _ => [cur] end
  | b :: rest =>
      if Byte.eqb b Byte.x0a then cur :: lines_from [] rest
      else lines_from (cur ++ [b]) rest
  end.

Definition output_lines (out : list byte) : list (list byte) := lines_from [] out.

(** A record none of whose strings holds a newline byte; the name of a
    file can hold one, and so can an error text, which quotes the path. *)
Definition plain_fields (fs : analyze.FileStats) : Prop :=
  nl_free (run.bytes (analyze.Name fs)) /\ nl_free (run.bytes (analyze.Ext fs)) /\
  nl_free (run.bytes (analyze.Kind fs)) /\ nl_free (run.bytes (analyze.Size fs)) /\
  nl_free (run.bytes (analyze.ModTime fs)) /\ nl_free (run.bytes (analyze.ErrorText fs)).

(** Drawing characters without a newline. *)
Definition nl_free_glyphs (g : run.Glyphs) : Prop :=
  nl_free (run.vert g) /\ nl_free (run.horiz g) /\
  nl_free (run.topLeft g) /\ nl_free (run.topSep g) /\ nl_free (run.topRight g) /\
  nl_free (run.midLeft g) /\ nl_free (run.midSep g) /\ nl_free (run.midRight g) /\
  nl_free (run.botLeft g) /\ nl_free (run.botSep g) /\ nl_free (run.botRight g).

(** Three records: a text file, a binary file and a file that failed. *)
Definition text_record : analyze.FileStats :=
  {| analyze.Name := "a.txt"; analyze.Ext := ".txt"; analyze.Kind := "text";
     analyze.SizeBytes := 1234567; analyze.Size := "1.18 MiB";
     analyze.Lines := 12345; analyze.Words := 99; analyze.Chars := 1234567;
     analyze.ModTime := "2024-01-01 10:00:00"; analyze.ModUnix := 1704103200;
     analyze.HasError := false; analyze.ErrorText := EmptyString |}.

Definition binary_record : analyze.FileStats :=
  {| analyze.Name := "b.bin"; analyze.Ext := ".bin"; analyze.Kind := "binary";
     analyze.SizeBytes := 10; analyze.Size := "10 B";
     analyze.Lines := 0; analyze.Words := 0; analyze.Chars := 0;
     analyze.ModTime := "2024-01-01 10:00:00"; analyze.ModUnix := 1704103200;
     analyze.HasError := false; analyze.ErrorText := EmptyString |}.

Definition failed_record : analyze.FileStats :=
  analyze.set_error (analyze.new_stats "gone" EmptyString) "stat gone: no such file or directory".

(* ================================================================= *)
(** * Properties *)

(** ** Sanity checks of the library functions *)

Example decode_ascii : utf8.DecodeRune ["a"%byte] = (97, 1).
Proof. reflexivity. Qed.

Example decode_euro : utf8.DecodeRune [Byte.xe2; Byte.x82; Byte.xac; Byte.x61] = (0x20AC, 3).
Proof. reflexivity. Qed.

Example decode_short : utf8.DecodeRune [Byte.xe2; Byte.x82] = (utf8.RuneError, 1)
  /\ utf8.FullRune [Byte.xe2; Byte.x82] = false.
Proof. split; reflexivity. Qed.

Example decode_bad : utf8.DecodeRune [Byte.xe2; Byte.x82; Byte.x61] = (utf8.RuneError, 1)
  /\ utf8.FullRune [Byte.xe2; Byte.x82; Byte.x61] = true.
Proof. split; reflexivity. Qed.

Example space_examples :
  map unicode.IsSpace [0x20; 0x0A; 0xA0; 0x85; 0x1680; 0x2003; 0x2028; 0x202F; 0x205F; 0x3000;
                       0x61; 0x200B; 0xFFFD; 0x180E]
  = [true; true; true; true; true; true; true; true; true; true;
     false; false; false; false].
Proof. reflexivity. Qed.


(* ================================================================= *)
(** ** Lengths and indexing *)

Lemma len_nonneg {A} (p : list A) : 0 <= len p.
Proof. unfold len. lia. Qed.

Lemma len_app {A} (p q : list A) : len (p ++ q) = len p + len q.
Proof. unfold len. rewrite length_app. lia. Qed.

Lemma len4_min {A} (p : list A) : len4 p = Z.min (len p) 4.
Proof. unfold len4, len. rewrite length_firstn. lia. Qed.

Lemma len4_pos {A} (p : list A) : p <> [] -> 1 <= len4 p.
Proof. rewrite len4_min. destruct p; [congruence|]. unfold len; simpl; lia. Qed.

Lemma at_app p q k : Z.of_nat k < len p -> at_ (p ++ q) k = at_ p k.
Proof. unfold at_, len. intros. rewrite app_nth1 by lia. reflexivity. Qed.

(* ================================================================= *)
(** ** Facts about [utf8.DecodeRune] and [utf8.FullRune] *)


Lemma first_view b :
  (utf8.first b >=? utf8.as_) = true /\ 0 <= Z.land (utf8.first b) 7 <= 1
  \/ (utf8.first b >=? utf8.as_) = false /\ 2 <= Z.land (utf8.first b) 7 <= 4.
Proof.
  unfold utf8.first.
  repeat match goal with
  | |- context [if ?a <? ?c then _ else _] => destruct (a <? c)
  | |- context [if ?a =? ?c then _ else _] => destruct (a =? c)
  end; vm_compute; intuition congruence.
Qed.

Ltac split_tests :=
  repeat match goal with
  | |- context [?a <? ?c] => destruct (Z.ltb_spec a c)
  | |- context [?a <=? ?c] => destruct (Z.leb_spec a c)
  | |- context [?a =? ?c] => destruct (Z.eqb_spec a c)
  end.

(** Splits on the table entry of the first byte [b]: one byte wide, or the
    lead byte of a sequence of [sz] bytes, [2 <= sz <= 4]. *)
Ltac on_first b :=
  let Hge := fresh "Hge" in
  let Hsz := fresh "Hsz" in
  destruct (first_view b) as [[Hge Hsz]|[Hge Hsz]];
  rewrite ?Hge in *;
  generalize dependent (Z.land (utf8.first b) 7);
  generalize (utf8.acceptRanges (Z.shiftr (utf8.first b) 4));
  generalize (Z.testbit (utf8.first b) 0).

Lemma decode_size p r size :
  p <> [] -> utf8.DecodeRune p = (r, size) -> 1 <= size <= len4 p.
Proof.
  intros Hp. apply len4_pos in Hp. unfold utf8.DecodeRune.
  generalize dependent (len4 p). intros n Hn.
  on_first (at_ p 0); intros t acc sz Hsz;
  cbv zeta; split_tests; simpl; intros E; inversion E; lia.
Qed.

Lemma len4_le {A} (p : list A) : len4 p <= 4.
Proof. rewrite len4_min. lia. Qed.

Lemma len4_app_le {A} (p q : list A) : len4 p <= len4 (p ++ q).
Proof. rewrite !len4_min, len_app. pose proof (len_nonneg q). lia. Qed.

Lemma at_app4 p q k : Z.of_nat k < len4 p -> at_ (p ++ q) k = at_ p k.
Proof. rewrite len4_min. intros. apply at_app. lia. Qed.

Ltac enum4 n :=
  let H := fresh in
  assert (H : n = 1 \/ n = 2 \/ n = 3 \/ n = 4) by lia;
  destruct H as [H|[H|[H|H]]]; subst n; try lia.

Ltac use_eq E := first [ rewrite E in * by lia | clear E ].

Ltac split_ifs :=
  repeat match goal with
  | H : context [if ?b then _ else _] |- _ => destruct b eqn:?; cbn [negb andb orb] in *
  | |- context [if ?b then _ else _] => destruct b eqn:?; cbn [negb andb orb] in *
  end.

Lemma cut_short_stable p q :
  p <> [] -> analyze.cut_short p = false ->
  utf8.DecodeRune (p ++ q) = utf8.DecodeRune p /\ analyze.cut_short (p ++ q) = false.
Proof.
  intros Hp. pose proof (len4_pos p Hp) as Hn.
  pose proof (len4_app_le p q) as Hn'. pose proof (len4_le (p ++ q)) as H4.
  pose proof (at_app4 p q 0) as E0. pose proof (at_app4 p q 1) as E1.
  pose proof (at_app4 p q 2) as E2. pose proof (at_app4 p q 3) as E3.
  unfold analyze.cut_short, utf8.DecodeRune, utf8.FullRune.
  rewrite E0 by (simpl; lia). clear E0.
  revert E1 E2 E3. simpl Z.of_nat.
  generalize dependent (len4 (p ++ q)). generalize dependent (len4 p).
  generalize (at_ (p ++ q) 1) (at_ (p ++ q) 2) (at_ (p ++ q) 3).
  generalize (at_ p 1) (at_ p 2) (at_ p 3).
  intros b1 b2 b3 c1 c2 c3 n Hn n' Hn' H4 E1 E2 E3.
  on_first (at_ p 0); intros t acc sz Hsz.
  - enum4 n; enum4 n'; clear E1 E2 E3;
    (assert (Hs : sz = 0 \/ sz = 1) by lia; destruct Hs; subst sz);
    cbn [Z.ltb Z.leb Z.eqb Z.geb Z.gtb Z.compare Pos.compare Pos.compare_cont Pos.eqb negb andb orb];
    cbv beta iota zeta; destruct t; cbn [negb andb orb]; rewrite ?andb_false_r; auto.
  - enum4 n; enum4 n'; enum4 sz; use_eq E1; use_eq E2; use_eq E3;
    cbn [Z.ltb Z.leb Z.eqb Z.geb Z.gtb Z.compare Pos.compare Pos.compare_cont Pos.eqb negb andb orb] in *;
    cbv beta iota zeta.
    all: split_ifs.
    all: cbv beta iota zeta in *; cbn [Z.eqb Pos.eqb negb andb orb] in *;
      rewrite ?andb_false_r in *; try congruence; auto.
    all: intros HH; vm_compute in HH; discriminate.
Qed.

Lemma nth_firstn4 (p : list byte) k d : (k < 4)%nat -> nth k (firstn 4 p) d = nth k p d.
Proof.
  intros Hk. destruct (Nat.lt_ge_cases k (List.length p)).
  - rewrite <- (firstn_skipn 4 p) at 2. rewrite app_nth1; [reflexivity|].
    rewrite length_firstn. lia.
  - rewrite !nth_overflow; [reflexivity|lia|]. rewrite length_firstn. lia.
Qed.

Lemma len4_firstn4 {A} (p : list A) : len4 (firstn 4 p) = len4 p.
Proof. unfold len4. rewrite firstn_firstn. reflexivity. Qed.

Lemma at_firstn4 p k : (k < 4)%nat -> at_ (firstn 4 p) k = at_ p k.
Proof. intros. unfold at_. rewrite nth_firstn4 by assumption. reflexivity. Qed.

(** The decoder looks at the first four bytes only. *)
Lemma DecodeRune_firstn4 p : utf8.DecodeRune (firstn 4 p) = utf8.DecodeRune p.
Proof.
  unfold utf8.DecodeRune. rewrite len4_firstn4, !at_firstn4 by lia. reflexivity.
Qed.

Lemma FullRune_firstn4 p : utf8.FullRune (firstn 4 p) = utf8.FullRune p.
Proof.
  unfold utf8.FullRune. rewrite len4_firstn4, !at_firstn4 by lia. reflexivity.
Qed.

Lemma cut_short_firstn4 p : analyze.cut_short (firstn 4 p) = analyze.cut_short p.
Proof. unfold analyze.cut_short. rewrite DecodeRune_firstn4, FullRune_firstn4. reflexivity. Qed.

(** A sequence that is cut short has at most three bytes. *)
Lemma cut_short_len p : analyze.cut_short p = true -> 1 <= len p <= 3.
Proof.
  unfold analyze.cut_short, utf8.DecodeRune, utf8.FullRune.
  pose proof (len4_min p) as Hm. pose proof (len_nonneg p).
  generalize dependent (len4 p). intros n Hm.
  on_first (at_ p 0); intros t acc sz Hsz.
  - destruct (n <? 1) eqn:E1; cbv beta iota zeta.
    + destruct (Z.ltb_spec n 1); [|discriminate]. 
      replace (0 =? 1) with false by reflexivity. rewrite andb_false_r. discriminate.
    + destruct (Z.ltb_spec n 1); [discriminate|].
      destruct (Z.eqb_spec n 0); [lia|]. destruct (Z.geb_spec n sz); [|lia].
      cbn [negb]. rewrite andb_false_r. discriminate.
  - destruct (Z.ltb_spec n 1).
    + cbv beta iota zeta. replace (0 =? 1) with false by reflexivity. rewrite andb_false_r. discriminate.
    + destruct (Z.eqb_spec n 0); [lia|]. destruct (Z.geb_spec n sz).
      * intros HH. exfalso. revert HH. split_ifs; cbv beta iota zeta; rewrite andb_false_r; discriminate.
      * intros _. lia.
Qed.

Lemma cut_short_nil : analyze.cut_short [] = false.
Proof. reflexivity. Qed.

(** When a sequence that was cut short is continued, the decoder either
    rejects it, with width one, or accepts a sequence longer than the part
    seen before. *)
Lemma cut_short_continued c d r size :
  analyze.cut_short c = true ->
  utf8.DecodeRune (c ++ d) = (r, size) ->
  analyze.cut_short (c ++ d) = false ->
  (r = utf8.RuneError /\ size = 1) \/ len c < size.
Proof.
  intros Hc. pose proof (cut_short_len c Hc) as Hlen.
  assert (Hp : c <> []) by (intros ->; discriminate).
  pose proof (len4_app_le c d) as Hn'. pose proof (len4_le (c ++ d)) as H4.
  pose proof (at_app4 c d 0) as E0.
  revert Hc. unfold analyze.cut_short, utf8.DecodeRune, utf8.FullRune.
  rewrite E0 by (rewrite len4_min; simpl; lia). clear E0.
  assert (Hn : len4 c = len c) by (rewrite len4_min; lia).
  rewrite Hn in *. 
  generalize dependent (len4 (c ++ d)). 
  generalize (at_ (c ++ d) 1) (at_ (c ++ d) 2) (at_ (c ++ d) 3).
  generalize (at_ c 1) (at_ c 2) (at_ c 3).
  generalize dependent (len c). 
  intros n Hlen Hn b1 b2 b3 c1 c2 c3 n' Hn' H4.
  on_first (at_ c 0); intros t acc sz Hsz.
  - assert (Hn1 : n = 1 \/ n = 2 \/ n = 3) by lia.
    assert (Hs : sz = 0 \/ sz = 1) by lia.
    destruct Hn1 as [->|[->| ->]]; destruct Hs as [-> | ->];
    cbn [Z.ltb Z.leb Z.eqb Z.geb Z.gtb Z.compare Pos.compare Pos.compare_cont Pos.eqb negb andb orb];
    cbv beta iota zeta; rewrite ?andb_false_r; discriminate.
  - assert (Hn1 : n = 1 \/ n = 2 \/ n = 3) by lia.
    destruct Hn1 as [->|[->| ->]]; enum4 n'; enum4 sz;
    cbn [Z.ltb Z.leb Z.eqb Z.geb Z.gtb Z.compare Pos.compare Pos.compare_cont Pos.eqb negb andb orb] in *;
    cbv beta iota zeta.
    all: split_ifs; cbv beta iota zeta in *; rewrite ?andb_false_r in *; try discriminate.
    all: intros _ HH; inversion HH; subst; intros; try lia; auto.
Qed.

(* ================================================================= *)
(** ** The loop over one chunk *)

Import analyze.

Lemma count_rune_leftover st r : leftover (count_rune st r) = leftover st.
Proof.
  unfold count_rune. destruct (r =? 10), (unicode.IsSpace r), (negb (inWord st)); reflexivity.
Qed.

Lemma count_rune_set_leftover st r l :
  count_rune (set_leftover st l) r = set_leftover (count_rune st r) l.
Proof.
  unfold count_rune, set_leftover; cbn.
  destruct (r =? 10), (unicode.IsSpace r), (negb (inWord st)); reflexivity.
Qed.

Lemma set_leftover_same st : set_leftover st (leftover st) = st.
Proof. destruct st; reflexivity. Qed.

Lemma set_leftover_nil st : leftover st = [] -> set_leftover st [] = st.
Proof. intros <-. apply set_leftover_same. Qed.

Lemma set_leftover_twice st l l' : set_leftover (set_leftover st l) l' = set_leftover st l'.
Proof. reflexivity. Qed.

(** One round of [count_loop] on a non-empty slice. *)
Lemma count_loop_cons fuel b t st :
  count_loop fuel (b :: t) st =
  if cut_short (b :: t) then Ret (set_leftover st (firstn 4 (b :: t)))
  else match fuel with
       | O => Fuel
       | S fuel' =>
           count_loop fuel' (skipn (Z.to_nat (snd (utf8.DecodeRune (b :: t)))) (b :: t))
                      (count_rune st (fst (utf8.DecodeRune (b :: t))))
       end.
Proof.
  unfold cut_short.
  destruct fuel; cbn [count_loop]; destruct (utf8.DecodeRune (b :: t)) as [r size]; reflexivity.
Qed.

(** A decoding step consumes at least one byte. *)
Lemma decode_advances p :
  p <> [] ->
  (List.length (skipn (Z.to_nat (snd (utf8.DecodeRune p))) p) < List.length p)%nat.
Proof.
  intros Hp. destruct (utf8.DecodeRune p) as [r size] eqn:E.
  pose proof (decode_size p r size Hp E) as Hs. cbn [snd].
  rewrite length_skipn. destruct p; [congruence|]. cbn [List.length]. lia.
Qed.

Lemma decode_within p :
  p <> [] -> 1 <= snd (utf8.DecodeRune p) <= len p.
Proof.
  intros Hp. destruct (utf8.DecodeRune p) as [r size] eqn:E.
  pose proof (decode_size p r size Hp E) as Hs. rewrite len4_min in Hs. cbn [snd]. lia.
Qed.

(** [count_loop] never runs out of fuel when given the length of the
    slice, and then more fuel changes nothing. *)
Lemma count_loop_fuel fuel : forall fuel' rest st,
  (List.length rest <= fuel)%nat -> (List.length rest <= fuel')%nat ->
  count_loop fuel rest st = count_loop fuel' rest st.
Proof.
  induction fuel as [|fuel IH]; intros fuel' rest st H1 H2.
  - destruct rest; [|cbn in H1; lia]. destruct fuel'; reflexivity.
  - destruct rest as [|b t]; [destruct fuel'; reflexivity|].
    rewrite !count_loop_cons. destruct (cut_short (b :: t)); [reflexivity|].
    destruct fuel' as [|fuel']; [cbn in H2; lia|].
    pose proof (decode_advances (b :: t) ltac:(discriminate)) as Hadv.
    apply IH; cbn [List.length] in *; lia.
Qed.

Lemma count_loop_total fuel : forall rest st,
  (List.length rest <= fuel)%nat -> exists st', count_loop fuel rest st = Ret st'.
Proof.
  induction fuel as [|fuel IH]; intros rest st H1.
  - destruct rest; [|cbn in H1; lia]. eexists; reflexivity.
  - destruct rest as [|b t]; [eexists; reflexivity|].
    rewrite count_loop_cons. destruct (cut_short (b :: t)); [eexists; reflexivity|].
    pose proof (decode_advances (b :: t) ltac:(discriminate)) as Hadv.
    apply IH; cbn [List.length] in *; lia.
Qed.

(** The loop over [x ++ y] is the loop over [x] followed by the loop over
    what [x] left undecoded and [y]. *)
Lemma count_loop_app fuel : forall x y st st1,
  (List.length x <= fuel)%nat ->
  leftover st = [] ->
  count_loop fuel x st = Ret st1 ->
  count_loop (List.length (x ++ y)) (x ++ y) st =
  count_loop (List.length (leftover st1 ++ y)) (leftover st1 ++ y) (set_leftover st1 []).
Proof.
  induction fuel as [|fuel IH]; intros x y st st1 Hf Hl Hx.
  - destruct x; [|cbn in Hf; lia]. cbn in Hx. inversion Hx; subst st1.
    rewrite Hl, set_leftover_nil by assumption. reflexivity.
  - destruct x as [|b t].
    + cbn in Hx. inversion Hx; subst st1.
      rewrite Hl, set_leftover_nil by assumption. reflexivity.
    + rewrite count_loop_cons in Hx.
      destruct (cut_short (b :: t)) eqn:Hc.
      * pose proof (cut_short_len _ Hc) as Hlen.
        rewrite firstn_all2 in Hx by (unfold len in Hlen; lia).
        injection Hx as <-.
        change (leftover (set_leftover st (b :: t))) with (b :: t).
        rewrite set_leftover_twice, set_leftover_nil by assumption. reflexivity.
      * destruct (cut_short_stable (b :: t) y ltac:(discriminate) Hc) as [Hd Hc'].
        change ((b :: t) ++ y) with (b :: (t ++ y)) in *.
        cbn [List.length]. rewrite count_loop_cons, Hc', Hd.
        pose proof (decode_within (b :: t) ltac:(discriminate)) as Hw.
        pose proof (decode_advances (b :: t) ltac:(discriminate)) as Hadv.
        set (size := snd (utf8.DecodeRune (b :: t))) in *.
        set (r := fst (utf8.DecodeRune (b :: t))) in *.
        assert (Hsk : skipn (Z.to_nat size) (b :: t ++ y) = skipn (Z.to_nat size) (b :: t) ++ y).
        { change (b :: t ++ y) with ((b :: t) ++ y). rewrite skipn_app.
          replace (Z.to_nat size - List.length (b :: t))%nat with 0%nat
            by (unfold len in Hw; lia).
          reflexivity. }
        rewrite Hsk.
        rewrite <- (IH (skipn (Z.to_nat size) (b :: t)) y (count_rune st r) st1);
          [| cbn [List.length] in *; lia
           | rewrite count_rune_leftover; assumption
           | exact Hx ].
        apply count_loop_fuel; [|lia].
        rewrite !length_app in *. cbn [List.length] in *. lia.
Qed.

Lemma firstn_min {A} k (l : list A) : firstn (Nat.min k (List.length l)) l = firstn k l.
Proof.
  destruct (Nat.le_ge_cases k (List.length l)).
  - rewrite Nat.min_l by assumption. reflexivity.
  - rewrite Nat.min_r by assumption. rewrite !firstn_all2 by lia. reflexivity.
Qed.

(** The bytes [seq] that the carry completion decodes are the first four
    bytes of the carry followed by the chunk. *)
Lemma carry_seq (c buf : list byte) :
  len c <= 3 ->
  c ++ firstn (Z.to_nat (Z.min (4 - len c) (len buf))) buf = firstn 4 (c ++ buf).
Proof.
  intros Hc. unfold len in *. rewrite firstn_app.
  rewrite (@firstn_all2 _ 4 c) by lia. f_equal.
  replace (Z.to_nat (Z.min (4 - Z.of_nat (List.length c)) (Z.of_nat (List.length buf))))
    with (Nat.min (4 - List.length c) (List.length buf)) by lia.
  apply firstn_min.
Qed.

(** What [process_chunk] does when a carry is pending. *)
Lemma process_chunk_carry st buf :
  cut_short (leftover st) = true -> buf <> [] ->
  process_chunk st buf =
  if cut_short (leftover st ++ buf) then Ret (set_leftover st (leftover st ++ buf))
  else
    let i := snd (utf8.DecodeRune (leftover st ++ buf)) - leftN st in
    if i <? 0 then Panic
    else count_loop (List.length buf) (skipn (Z.to_nat i) buf)
           (set_leftover (count_rune st (fst (utf8.DecodeRune (leftover st ++ buf)))) []).
Proof.
  intros Hc Hb. pose proof (cut_short_len _ Hc) as Hlen.
  assert (Hn : 0 < len buf) by (destruct buf; [congruence|unfold len; cbn; lia]).
  unfold process_chunk, complete_carry, leftN.
  destruct (Z.gtb_spec (len buf) 0); [|lia].
  destruct (Z.gtb_spec (len (leftover st)) 0); [|lia].
  rewrite carry_seq by lia.
  rewrite DecodeRune_firstn4, FullRune_firstn4.
  unfold cut_short at 1.
  destruct (utf8.DecodeRune (leftover st ++ buf)) as [r size] eqn:Hd. cbn [fst snd].
  destruct ((r =? utf8.RuneError) && (size =? 1) && negb (utf8.FullRune (leftover st ++ buf))) eqn:Hcs.
  - assert (Hcs' : cut_short (leftover st ++ buf) = true) by (unfold cut_short; rewrite Hd; exact Hcs).
    pose proof (cut_short_len _ Hcs') as Hlen'. rewrite len_app in Hlen'.
    rewrite Z.min_r by lia. rewrite Z.ltb_irrefl.
    rewrite firstn_all2 by (rewrite length_app; unfold len in *; lia). reflexivity.
  - assert (Hw : 1 <= size <= len (leftover st ++ buf)).
    { pose proof (decode_within (leftover st ++ buf)) as Hw. rewrite Hd in Hw.
      apply Hw. destruct (leftover st); [discriminate|discriminate]. }
    rewrite len_app in Hw.
    destruct (Z.ltb_spec (size - len (leftover st)) (len buf)).
    + reflexivity.
    + destruct (Z.ltb_spec (size - len (leftover st)) 0); [lia|].
      rewrite skipn_all2 by (unfold len in *; lia).
      destruct (List.length buf); reflexivity.
Qed.

(** With a carry pending, [process_chunk] panics exactly when the completed
    sequence is rejected and the carry holds two bytes or more. *)
Lemma process_chunk_panics st buf :
  cut_short (leftover st) = true -> buf <> [] ->
  (process_chunk st buf = Panic <->
   cut_short (leftover st ++ buf) = false /\
   utf8.DecodeRune (leftover st ++ buf) = (utf8.RuneError, 1) /\ 2 <= leftN st).
Proof.
  intros Hc Hb. rewrite process_chunk_carry by assumption.
  destruct (cut_short (leftover st ++ buf)) eqn:Hcs.
  - split; [discriminate|intros [? _]; discriminate].
  - destruct (utf8.DecodeRune (leftover st ++ buf)) as [r size] eqn:Hd.
    pose proof (cut_short_continued _ _ _ _ Hc Hd Hcs) as Hk.
    cbn [fst snd]. cbv zeta. unfold leftN in *.
    destruct (Z.ltb_spec (size - len (leftover st)) 0).
    + split; [intros _|reflexivity].
      destruct Hk as [[-> ->]|Hk]; [|lia]. repeat split; lia.
    + split.
      * intros HP. exfalso.
        destruct (count_loop_total (List.length buf)
                    (skipn (Z.to_nat (size - len (leftover st))) buf)
                    (set_leftover (count_rune st r) [])) as [st' Hst'].
        { rewrite length_skipn. lia. }
        congruence.
      * intros (_ & E & Hl). inversion E; subst. lia.
Qed.

Lemma process_chunk_panics_witness :
  process_chunk {| lines := 0; words := 1; chars := 2; inWord := true;
                   lastWasNewline := false; leftover := [Byte.xe2; Byte.x82] |}
                [Byte.x61] = Panic.
Proof.
  apply process_chunk_panics; [reflexivity|discriminate|].
  split; [reflexivity|]. split; [reflexivity|]. unfold leftN, len. cbn. lia.
Defined.

(** Unless it panics, [process_chunk] does to the state what one loop over
    the pending carry followed by the chunk does. *)
Lemma process_chunk_run st buf :
  leftover st = [] \/ cut_short (leftover st) = true ->
  process_chunk st buf <> Panic ->
  process_chunk st buf =
  count_loop (List.length (leftover st ++ buf)) (leftover st ++ buf) (set_leftover st []).
Proof.
  intros Hst HP. destruct buf as [|b t].
  - rewrite app_nil_r. cbn [process_chunk]. unfold process_chunk. cbn.
    destruct Hst as [Hl|Hc].
    + rewrite Hl. cbn. rewrite set_leftover_nil by assumption. reflexivity.
    + pose proof (cut_short_len _ Hc) as Hlen.
      destruct (leftover st) as [|c0 c] eqn:Hl; [discriminate|].
      rewrite count_loop_cons, Hc, firstn_all2 by (unfold len in Hlen; lia).
      rewrite <- Hl, set_leftover_twice, set_leftover_same. reflexivity.
  - destruct Hst as [Hl|Hc].
    + unfold process_chunk, leftN. rewrite Hl. cbn [app].
      rewrite set_leftover_nil by assumption.
      replace (len (b :: t) >? 0) with true by (unfold len; cbn; lia).
      replace (len (@nil byte) >? 0) with false by reflexivity.
      replace (0 <? len (b :: t)) with true by (unfold len; cbn; lia).
      reflexivity.
    + revert HP. rewrite process_chunk_carry by (assumption || discriminate).
      destruct (leftover st) as [|c0 c] eqn:Hl; [discriminate|].
      change ((c0 :: c) ++ b :: t) with (c0 :: (c ++ b :: t)).
      cbn [List.length]. rewrite count_loop_cons.
      destruct (cut_short (c0 :: c ++ b :: t)) eqn:Hcs.
      * intros _. pose proof (cut_short_len _ Hcs) as Hlen.
        rewrite firstn_all2 by (unfold len in Hlen; lia). reflexivity.
      * pose proof (cut_short_continued (c0 :: c) (b :: t)) as Hk.
        change ((c0 :: c) ++ b :: t) with (c0 :: (c ++ b :: t)) in Hk.
        pose proof (decode_within (c0 :: c ++ b :: t) ltac:(discriminate)) as Hw.
        destruct (utf8.DecodeRune (c0 :: c ++ b :: t)) as [r size] eqn:Hd.
        cbn [fst snd] in *. cbv zeta. unfold leftN. rewrite Hl.
        destruct (Z.ltb_spec (size - len (c0 :: c)) 0); [congruence|].
        intros _. rewrite count_rune_set_leftover.
        change (c0 :: c ++ b :: t) with ((c0 :: c) ++ b :: t).
        rewrite skipn_app.
        rewrite (@skipn_all2 _ (Z.to_nat size) (c0 :: c)) by (unfold len in *; lia). cbn [app].
        replace (Z.to_nat size - List.length (c0 :: c))%nat
          with (Z.to_nat (size - len (c0 :: c))) by (unfold len; lia).
        apply count_loop_fuel.
        -- rewrite length_skipn. cbn [List.length]. lia.
        -- rewrite length_skipn, length_app. cbn [List.length]. lia.
Qed.

(* ================================================================= *)
(** ** Reading in chunks *)

Lemma stash_carry_ok st p :
  cut_short p = true -> carry_ok (set_leftover st (firstn 4 p)).
Proof.
  intros Hc. right. change (leftover (set_leftover st (firstn 4 p))) with (firstn 4 p).
  rewrite cut_short_firstn4. assumption.
Qed.

Lemma count_loop_carry_ok fuel : forall rest st st1,
  leftover st = [] -> count_loop fuel rest st = Ret st1 -> carry_ok st1.
Proof.
  induction fuel as [|fuel IH]; intros rest st st1 Hl Hr.
  - destruct rest as [|b t].
    + injection Hr as <-. left; assumption.
    + rewrite count_loop_cons in Hr. destruct (cut_short (b :: t)) eqn:Hc; [|discriminate].
      replace st1 with (set_leftover st (firstn 4 (b :: t))) by congruence.
      apply stash_carry_ok; assumption.
  - destruct rest as [|b t].
    + injection Hr as <-. left; assumption.
    + rewrite count_loop_cons in Hr. destruct (cut_short (b :: t)) eqn:Hc.
      * replace st1 with (set_leftover st (firstn 4 (b :: t))) by congruence.
        apply stash_carry_ok; assumption.
      * eapply IH; [|exact Hr]. rewrite count_rune_leftover. assumption.
Qed.

Lemma process_chunk_carry_ok st buf st1 :
  carry_ok st -> process_chunk st buf = Ret st1 -> carry_ok st1.
Proof.
  intros Hst Hr. rewrite process_chunk_run in Hr by (assumption || congruence).
  eapply count_loop_carry_ok; [|exact Hr]. reflexivity.
Qed.

(** The reads of a file, however they cut it, leave the counter in the
    state in which one loop over all the bytes leaves it, unless a read
    makes [process_chunk] panic. *)
Lemma count_reads_run chunks : forall st st',
  carry_ok st ->
  count_reads st chunks = Ret st' ->
  count_loop (List.length (leftover st ++ List.concat chunks)) (leftover st ++ List.concat chunks)
             (set_leftover st []) = Ret st'.
Proof.
  induction chunks as [|buf more IH]; intros st st' Hst Hr.
  - cbn in Hr. injection Hr as <-. cbn [List.concat].
    rewrite <- process_chunk_run by (assumption || (unfold process_chunk; cbn; discriminate)).
    reflexivity.
  - cbn [count_reads] in Hr. destruct (process_chunk st buf) as [st1| |] eqn:Hp; try discriminate.
    pose proof (process_chunk_carry_ok _ _ _ Hst Hp) as Hst1.
    rewrite process_chunk_run in Hp by (assumption || congruence).
    cbn [List.concat]. rewrite app_assoc.
    erewrite count_loop_app; [apply IH; eassumption | apply Nat.le_refl | reflexivity | exact Hp].
Qed.

Lemma count_reads_single content :
  count_reads Counter0 [content] = count_loop (List.length content) content Counter0.
Proof.
  cbn [count_reads].
  assert (Hnp : process_chunk Counter0 content <> Panic).
  { unfold process_chunk, leftN. cbn [leftover Counter0].
    replace (len (@nil byte) >? 0) with false by reflexivity.
    destruct (len content >? 0); [|discriminate].
    destruct (0 <? len content); [|discriminate].
    replace (0 <? 0) with false by reflexivity.
    destruct (count_loop_total (List.length content) (skipn (Z.to_nat 0) content) Counter0) as [s Hs].
    { rewrite length_skipn. lia. }
    rewrite Hs. discriminate. }
  rewrite process_chunk_run by (left; reflexivity) || assumption.
  cbn [leftover Counter0 app]. change (set_leftover Counter0 []) with Counter0.
  destruct (count_loop_total (List.length content) content Counter0 (Nat.le_refl _)) as [s Hs].
  rewrite Hs. reflexivity.
Qed.

(** Reading the whole content in one chunk never panics. *)
Lemma count_reads_single_returns content :
  exists st, count_reads Counter0 [content] = Ret st.
Proof.
  rewrite count_reads_single. apply count_loop_total. apply Nat.le_refl.
Qed.

Lemma count_reads_chunked_whole chunks st :
  count_reads Counter0 chunks = Ret st ->
  count_reads Counter0 [List.concat chunks] = Ret st.
Proof.
  intros Hr. rewrite count_reads_single.
  apply (count_reads_run chunks Counter0 st (or_introl eq_refl) Hr).
Qed.

Lemma process_chunk_no_fuel st buf : process_chunk st buf <> Fuel.
Proof.
  unfold process_chunk.
  destruct (len buf >? 0); [|discriminate].
  destruct (if leftN st >? 0 then complete_carry st buf else (st, 0)) as [st1 i].
  destruct (Z.ltb_spec i (len buf)); [|discriminate].
  destruct (Z.ltb_spec i 0); [discriminate|].
  destruct (count_loop_total (List.length buf) (skipn (Z.to_nat i) buf) st1) as [s Hs].
  { rewrite length_skipn. lia. }
  rewrite Hs. discriminate.
Qed.

Lemma count_reads_no_fuel chunks : forall st, count_reads st chunks <> Fuel.
Proof.
  induction chunks as [|buf more IH]; intros st; cbn [count_reads]; [discriminate|].
  pose proof (process_chunk_no_fuel st buf).
  destruct (process_chunk st buf); [apply IH|discriminate|congruence].
Qed.

(* ================================================================= *)
(** ** Binary detection *)

Lemma u8_zero b : u8 b = 0 <-> b = Byte.x00.
Proof.
  split; [|intros ->; reflexivity].
  unfold u8. intros H. assert (Hn : Byte.to_N b = 0%N) by lia.
  pose proof (Byte.of_to_N b) as E. rewrite Hn in E. cbn in E. congruence.
Qed.

Lemma has_nul_In w : has_nul w = true <-> In Byte.x00 w.
Proof.
  induction w as [|b t IH]; cbn [has_nul In]; [split; [discriminate|tauto]|].
  destruct (Z.eqb_spec (u8 b) 0) as [E|E].
  - apply u8_zero in E. subst. tauto.
  - rewrite IH. split; [tauto|]. intros [Hb|H]; [|assumption].
    exfalso. apply E. apply u8_zero. assumption.
Qed.

(** One round of [sniff_loop] on a non-empty slice. *)
Lemma sniff_loop_cons fuel b t :
  sniff_loop fuel (b :: t) 0 =
  let '(r, size) := utf8.DecodeRune (b :: t) in
  if (r =? utf8.RuneError) && (size =? 1) then
    if utf8.FullRune (b :: t) then Ret true else Ret false
  else match fuel with
       | O => Fuel
       | S fuel' => sniff_loop fuel' (skipn (Z.to_nat size) (b :: t)) 0
       end.
Proof.
  destruct fuel; cbn [sniff_loop]; destruct (utf8.DecodeRune (b :: t)) as [r size];
  destruct ((r =? utf8.RuneError) && (size =? 1)); try reflexivity;
  destruct (utf8.FullRune (b :: t)); reflexivity.
Qed.

Lemma error_pair r size :
  (r =? utf8.RuneError) && (size =? 1) = true <-> (r, size) = (utf8.RuneError, 1).
Proof.
  rewrite andb_true_iff, !Z.eqb_eq. split; [intros [-> ->]; reflexivity|].
  intros E; inversion E; auto.
Qed.

(** The loop computes the end of the scan, given fuel for every byte. *)
Lemma sniff_loop_scans w e :
  scans w e -> forall fuel, (List.length w <= fuel)%nat ->
  sniff_loop fuel w 0 = Ret (is_invalid e).
Proof.
  induction 1 as [|p Hp Hd Hf|p Hp Hd Hf|p r size e Hp Hd Hne Hs IH]; intros fuel Hfuel.
  - destruct fuel; reflexivity.
  - destruct p as [|b t]; [congruence|]. rewrite sniff_loop_cons, Hd, Hf. reflexivity.
  - destruct p as [|b t]; [congruence|]. rewrite sniff_loop_cons, Hd, Hf. reflexivity.
  - destruct p as [|b t]; [congruence|]. rewrite sniff_loop_cons, Hd.
    destruct ((r =? utf8.RuneError) && (size =? 1)) eqn:E.
    + apply error_pair in E. congruence.
    + pose proof (decode_advances (b :: t) Hp) as Hadv. rewrite Hd in Hadv. cbn [snd] in Hadv.
      destruct fuel as [|fuel]; [cbn in Hfuel; lia|].
      apply IH. cbn [List.length] in *. lia.
Qed.

(** Every window has a scan. *)
Lemma scans_total n : forall w, (List.length w <= n)%nat -> exists e, scans w e.
Proof.
  induction n as [|n IH]; intros w Hn.
  - destruct w; [|cbn in Hn; lia]. exists AllValid. constructor.
  - destruct w as [|b t]; [exists AllValid; constructor|].
    destruct (utf8.DecodeRune (b :: t)) as [r size] eqn:Hd.
    destruct ((r =? utf8.RuneError) && (size =? 1)) eqn:E.
    + apply error_pair in E. inversion E; subst.
      destruct (utf8.FullRune (b :: t)) eqn:Hf.
      * exists Invalid. apply scans_invalid; [discriminate|assumption..].
      * exists Truncated. apply scans_truncated; [discriminate|assumption..].
    + pose proof (decode_advances (b :: t) ltac:(discriminate)) as Hadv.
      rewrite Hd in Hadv. cbn [snd] in Hadv.
      destruct (IH (skipn (Z.to_nat size) (b :: t))) as [e He].
      { cbn [List.length] in *. lia. }
      exists e. eapply scans_step; [discriminate|exact Hd| |exact He].
      intros HH. apply error_pair in HH. congruence.
Qed.

Lemma scans_functional w e1 e2 : scans w e1 -> scans w e2 -> e1 = e2 \/ is_invalid e1 = is_invalid e2.
Proof.
  intros H1 H2. right.
  pose proof (sniff_loop_scans w e1 H1 _ (Nat.le_refl _)) as E1.
  pose proof (sniff_loop_scans w e2 H2 _ (Nat.le_refl _)) as E2.
  congruence.
Qed.

(** The sniff loop always returns. *)
Lemma sniff_loop_total w : exists b, sniff_loop (List.length w) w 0 = Ret b.
Proof.
  destruct (scans_total _ w (Nat.le_refl _)) as [e He].
  exists (is_invalid e). apply sniff_loop_scans; [assumption|apply Nat.le_refl].
Qed.

(** [is_binary] decides the binary signal. *)
Lemma is_binary_signal w :
  (binary_signal w -> is_binary w = Ret true) /\
  (~ binary_signal w -> is_binary w = Ret false).
Proof.
  unfold is_binary, binary_signal.
  destruct (has_nul w) eqn:Hn.
  - apply has_nul_In in Hn. tauto.
  - assert (Hn' : ~ In Byte.x00 w) by (rewrite <- has_nul_In; congruence).
    destruct (scans_total _ w (Nat.le_refl _)) as [e He].
    rewrite (sniff_loop_scans w e He _ (Nat.le_refl _)).
    split.
    + intros [?|Hi]; [tauto|].
      destruct (scans_functional _ _ _ He Hi) as [->|E]; [reflexivity|]. rewrite E. reflexivity.
    + intros Hno. destruct e; try reflexivity. tauto.
Qed.

Lemma sniff_verdict_total size f : exists b, sniff_verdict size f = Ret b.
Proof.
  unfold sniff_verdict, is_binary.
  destruct ((size >? 0) && (len (sniff_window size f) >? 0)); [|eexists; reflexivity].
  destruct (has_nul _); [eexists; reflexivity|]. apply sniff_loop_total.
Qed.

(* ================================================================= *)
(** ** [AnalyzeFile] once the file is open *)

Lemma AnalyzeFile_opened pl path info f :
  os_Stat pl path = Ok info -> os_Open pl path = Ok f ->
  AnalyzeFile pl path =
  let stat := set_kind (set_info (new_stats (filepath_Base pl path) (filepath_Ext pl path))
                                 (util_HumanBytes pl) info) "text" in
  match sniff_verdict (info_Size info) f with
  | Panic => Panic
  | Fuel => Fuel
  | Ret true => Ret (set_counts (set_kind stat "binary") 0 0 0)
  | Ret false =>
      match count_reads Counter0 (reads f) with
      | Panic => Panic
      | Fuel => Fuel
      | Ret st =>
          match read_end f with
          | ReadErr msg => Ret (set_error stat msg)
          | EOF => Ret (set_counts stat (lines (finish st)) (words (finish st)) (chars (finish st)))
          end
      end
  end.
Proof. intros Hs Ho. unfold AnalyzeFile. rewrite Hs, Ho. reflexivity. Qed.

(** [AnalyzeFile] never exhausts the fuel of its loops. *)
Lemma AnalyzeFile_no_fuel pl path : AnalyzeFile pl path <> Fuel.
Proof.
  unfold AnalyzeFile.
  destruct (os_Stat pl path) as [info|]; [|discriminate].
  destruct (os_Open pl path) as [f|]; [|discriminate].
  destruct (sniff_verdict_total (SizeBytes (set_kind (set_info (new_stats (filepath_Base pl path) (filepath_Ext pl path)) (util_HumanBytes pl) info) "text")) f) as [b Hb].
  rewrite Hb. destruct b; [discriminate|].
  pose proof (count_reads_no_fuel (reads f) Counter0).
  destruct (count_reads Counter0 (reads f)); [|discriminate|congruence].
  destruct (read_end f); discriminate.
Qed.

(** The record of an opened file is a binary one exactly when the sniff
    says so, and a text one otherwise. *)
Lemma AnalyzeFile_kind pl path info f r :
  os_Stat pl path = Ok info -> os_Open pl path = Ok f ->
  AnalyzeFile pl path = Ret r ->
  (sniff_verdict (info_Size info) f = Ret true /\ Kind r = "binary"%string /\
   HasError r = false /\ Lines r = 0 /\ Words r = 0 /\ Chars r = 0)
  \/ (sniff_verdict (info_Size info) f = Ret false /\ Kind r = "text"%string).
Proof.
  intros Hs Ho. rewrite (AnalyzeFile_opened _ _ _ _ Hs Ho). cbv zeta.
  destruct (sniff_verdict (info_Size info) f) as [[|]| |]; try discriminate.
  - intros E. injection E as <-. left. repeat split.
  - destruct (count_reads Counter0 (reads f)); try discriminate.
    destruct (read_end f); intros E; injection E as <-; right; split; reflexivity.
Qed.

Lemma sniff_verdict_window size f :
  0 < size ->
  sniff_verdict size f = is_binary (sniff_window size f).
Proof.
  intros Hs. unfold sniff_verdict.
  destruct (Z.gtb_spec size 0); [|lia]. cbn [andb].
  destruct (Z.gtb_spec (len (sniff_window size f)) 0); [reflexivity|].
  destruct (sniff_window size f); [reflexivity|]. unfold len in *. cbn in *. lia.
Qed.

Lemma scans_truncated_no_signal w :
  ~ In Byte.x00 w -> scans w Truncated -> ~ binary_signal w.
Proof.
  intros Hn Ht [Hi|Hi]; [tauto|].
  destruct (scans_functional _ _ _ Ht Hi) as [E|E]; discriminate.
Qed.

Lemma binary_signal_dec w : binary_signal w \/ ~ binary_signal w.
Proof.
  unfold binary_signal. destruct (has_nul w) eqn:Hn.
  - left. left. apply has_nul_In. assumption.
  - assert (Hn' : ~ In Byte.x00 w) by (rewrite <- has_nul_In; congruence).
    destruct (scans_total _ w (Nat.le_refl _)) as [e He]. destruct e.
    + right. intros [Hi|Hi]; [tauto|]. destruct (scans_functional _ _ _ He Hi); discriminate.
    + right. intros [Hi|Hi]; [tauto|]. destruct (scans_functional _ _ _ He Hi); discriminate.
    + left. right. assumption.
Qed.

Lemma is_binary_iff w :
  (is_binary w = Ret true <-> binary_signal w) /\
  (is_binary w = Ret false <-> ~ binary_signal w).
Proof.
  destruct (is_binary_signal w) as [Hyes Hno].
  destruct (binary_signal_dec w) as [Hs|Hs].
  - rewrite (Hyes Hs). split; split; try tauto; discriminate.
  - rewrite (Hno Hs). split; split; try tauto; discriminate.
Qed.

(** C5.  A file of positive size is classified on the window of at most
    8192 leading bytes that [ReadAt] delivers: it is binary exactly when
    the window holds a NUL byte or a sequence that is complete and does
    not decode, and text otherwise; a sequence that only the end of the
    window cuts short ends the scan and leaves the file text; and a binary
    record is sent with all counts zero. *)
Theorem C5_binary_classifier pl path info f
  (Hstat : os_Stat pl path = Ok info) (Hopen : os_Open pl path = Ok f)
  (Hsize : 0 < info_Size info) :
  let w := firstn (Z.to_nat (Z.min (info_Size info) 8192)) (at0 f) in
  len w <= 8192 /\
  (sniff_verdict (info_Size info) f = Ret true <-> binary_signal w) /\
  (sniff_verdict (info_Size info) f = Ret false <-> ~ binary_signal w) /\
  (~ In Byte.x00 w -> scans w Truncated -> sniff_verdict (info_Size info) f = Ret false) /\
  (binary_signal w ->
   exists r, AnalyzeFile pl path = Ret r /\ Kind r = "binary"%string /\
             HasError r = false /\ Lines r = 0 /\ Words r = 0 /\ Chars r = 0) /\
  (forall r, AnalyzeFile pl path = Ret r ->
             (Kind r = "binary"%string <-> binary_signal w) /\
             (Kind r = "text"%string <-> ~ binary_signal w)).
Proof.
  intros w. change w with (sniff_window (info_Size info) f).
  pose proof (sniff_verdict_window _ f Hsize) as Hv. rewrite Hv.
  destruct (is_binary_iff (sniff_window (info_Size info) f)) as [Hyes Hno].
  split; [|split; [|split; [|split; [|split]]]].
  - unfold sniff_window, len, sniffSize. rewrite length_firstn. lia.
  - exact Hyes.
  - exact Hno.
  - intros Hn Ht. apply Hno. apply scans_truncated_no_signal; assumption.
  - intros Hsig. rewrite (AnalyzeFile_opened _ _ _ _ Hstat Hopen). cbv zeta.
    rewrite Hv. apply Hyes in Hsig. rewrite Hsig.
    eexists. split; [reflexivity|]. repeat split.
  - intros r Hr.
    destruct (AnalyzeFile_kind _ _ _ _ _ Hstat Hopen Hr) as [(Hb & Hk & _)|(Hb & Hk)];
      rewrite Hv in Hb; rewrite Hk.
    + apply Hyes in Hb. split; split; try tauto; try discriminate.
    + apply Hno in Hb. split; split; try tauto; try discriminate.
Qed.

Lemma C5_witness :
  exists r, AnalyzeFile (platform_with 3 (regular_file [Byte.x61; Byte.x00; Byte.x62])) EmptyString = Ret r
            /\ Kind r = "binary"%string /\ HasError r = false
            /\ Lines r = 0 /\ Words r = 0 /\ Chars r = 0.
Proof.
  refine (proj1 (proj2 (proj2 (proj2 (proj2 (C5_binary_classifier
            (platform_with 3 (regular_file [Byte.x61; Byte.x00; Byte.x62])) EmptyString
            {| info_Size := 3; info_ModTime := EmptyString; info_ModUnix := 0 |}
            (regular_file [Byte.x61; Byte.x00; Byte.x62]) eq_refl eq_refl _))))) _).
  - reflexivity.
  - left. simpl. tauto.
Defined.

(* ================================================================= *)
(** ** The counters *)

(** Invariants of the counting pass are those of its elementary steps. *)
Section Invariant.

Variable P : Counter -> Prop.
Hypothesis P_count_rune : forall st r, P st -> P (count_rune st r).
Hypothesis P_set_leftover : forall st l, P st -> P (set_leftover st l).

Lemma count_loop_inv fuel : forall rest st st',
  P st -> count_loop fuel rest st = Ret st' -> P st'.
Proof.
  induction fuel as [|fuel IH]; intros rest st st' HP Hr;
  (destruct rest as [|b t]; [injection Hr as <-; assumption|]);
  rewrite count_loop_cons in Hr;
  (destruct (cut_short (b :: t)); [injection Hr as <-; apply P_set_leftover; assumption|]).
  - discriminate.
  - eapply IH; [|exact Hr]. apply P_count_rune. assumption.
Qed.

Lemma process_chunk_inv st buf st' :
  P st -> process_chunk st buf = Ret st' -> P st'.
Proof.
  intros HP. unfold process_chunk.
  destruct (len buf >? 0); [|intros E; injection E as <-; assumption].
  assert (H1 : P (fst (if leftN st >? 0 then complete_carry st buf else (st, 0)))).
  { destruct (leftN st >? 0); [|assumption]. unfold complete_carry.
    destruct (utf8.DecodeRune _) as [r size].
    destruct ((r =? utf8.RuneError) && (size =? 1) && negb (utf8.FullRune _)); cbn [fst]; auto. }
  destruct (if leftN st >? 0 then complete_carry st buf else (st, 0)) as [st1 i].
  cbn [fst] in H1.
  destruct (i <? len buf); [|intros E; injection E as <-; assumption].
  destruct (i <? 0); [discriminate|].
  apply count_loop_inv. assumption.
Qed.

Lemma count_reads_inv chunks : forall st st',
  P st -> count_reads st chunks = Ret st' -> P st'.
Proof.
  induction chunks as [|buf more IH]; intros st st' HP Hr; cbn [count_reads] in Hr.
  - injection Hr as <-. assumption.
  - destruct (process_chunk st buf) as [st1| |] eqn:Hp; try discriminate.
    eapply IH; [|exact Hr]. eapply process_chunk_inv; eassumption.
Qed.

End Invariant.

Lemma counts_ok_count_rune st r : counts_ok st -> counts_ok (count_rune st r).
Proof.
  unfold counts_ok, count_rune.
  destruct (r =? 10), (unicode.IsSpace r), (negb (inWord st)); cbn; lia.
Qed.

Lemma counts_ok_reads chunks st :
  count_reads Counter0 chunks = Ret st -> counts_ok st.
Proof.
  apply count_reads_inv.
  - apply counts_ok_count_rune.
  - intros s l H; exact H.
  - unfold counts_ok; cbn; lia.
Qed.

Lemma counts_ok_finish st : counts_ok st -> counts_ok (finish st).
Proof.
  unfold counts_ok, finish, final_line, flush_leftover.
  destruct (leftN st >? 0), (inWord st); cbn;
  repeat match goal with |- context [if ?b then _ else _] => destruct b end; cbn; lia.
Qed.

(** Every record has counts that are not negative, and no more words than
    characters. *)
Lemma record_counts_ok pl path r :
  AnalyzeFile pl path = Ret r -> 0 <= Lines r /\ 0 <= Words r <= Chars r.
Proof.
  unfold AnalyzeFile.
  destruct (os_Stat pl path) as [info|msg]; [|intros E; injection E as <-; cbn; lia].
  destruct (os_Open pl path) as [f|msg]; [|intros E; injection E as <-; cbn; lia].
  destruct (sniff_verdict _ f) as [[|]| |]; try discriminate.
  - intros E; injection E as <-; cbn; lia.
  - destruct (count_reads Counter0 (reads f)) as [st| |] eqn:Hr; try discriminate.
    pose proof (counts_ok_finish _ (counts_ok_reads _ _ Hr)) as Hok.
    destruct (read_end f); intros E; injection E as <-; cbn; [exact Hok|lia].
Qed.

Lemma record_counts_ok_witness : 0 <= 2 /\ 0 <= 3 <= 5.
Proof.
  exact (record_counts_ok
           (platform_with 5 (regular_file [Byte.x61; Byte.x20; Byte.x62; Byte.x0a; Byte.x63]))
           EmptyString _ eq_refl).
Defined.

(** C6.  When a text file ends while the carry still holds the bytes of an
    incomplete sequence, they count as one character that is not white
    space: it starts a word or continues the one in progress, it clears
    [lastWasNewline], and the record stays a text record without error. *)
Theorem C6_trailing_carry_is_one_char pl path info f st
  (Hstat : os_Stat pl path = Ok info) (Hopen : os_Open pl path = Ok f)
  (Htext : sniff_verdict (info_Size info) f = Ret false)
  (Hreads : count_reads Counter0 (reads f) = Ret st)
  (Heof : read_end f = EOF)
  (Hcarry : 0 < leftN st) :
  chars (flush_leftover st) = chars st + 1 /\
  words (flush_leftover st) = (if inWord st then words st else words st + 1) /\
  inWord (flush_leftover st) = true /\
  lastWasNewline (flush_leftover st) = false /\
  lines (flush_leftover st) = lines st /\
  exists r, AnalyzeFile pl path = Ret r /\
            Kind r = "text"%string /\ HasError r = false /\
            Chars r = chars st + 1 /\
            Words r = (if inWord st then words st else words st + 1) /\
            Lines r = lines st + 1.
Proof.
  pose proof (counts_ok_reads _ _ Hreads) as (Hl & Hw & Hc).
  assert (Hf : flush_leftover st =
               {| lines := lines st;
                  words := if negb (inWord st) then words st + 1 else words st;
                  chars := chars st + 1;
                  inWord := if negb (inWord st) then true else inWord st;
                  lastWasNewline := false; leftover := leftover st |}).
  { unfold flush_leftover. destruct (Z.gtb_spec (leftN st) 0); [reflexivity|lia]. }
  rewrite Hf. cbn [chars words inWord lastWasNewline lines].
  repeat split; try (destruct (inWord st); reflexivity).
  rewrite (AnalyzeFile_opened _ _ _ _ Hstat Hopen). cbv zeta.
  rewrite Htext, Hreads, Heof. eexists. split; [reflexivity|].
  unfold finish, final_line. rewrite Hf. cbn [chars words inWord lastWasNewline lines].
  destruct (Z.gtb_spec (chars st + 1) 0); [|lia]. cbn.
  repeat split; destruct (inWord st); reflexivity.
Qed.

Lemma C6_witness :
  exists r, AnalyzeFile (platform_with 3 (regular_file [Byte.x61; Byte.xe2; Byte.x82])) EmptyString = Ret r
            /\ Kind r = "text"%string /\ HasError r = false
            /\ Chars r = 2 /\ Words r = 1 /\ Lines r = 1.
Proof.
  pose (f := regular_file [Byte.x61; Byte.xe2; Byte.x82]).
  pose (st := {| lines := 0; words := 1; chars := 1; inWord := true;
                 lastWasNewline := false; leftover := [Byte.xe2; Byte.x82] |}).
  exact (proj2 (proj2 (proj2 (proj2 (proj2
          (C6_trailing_carry_is_one_char (platform_with 3 f) EmptyString
             {| info_Size := 3; info_ModTime := EmptyString; info_ModUnix := 0 |}
             f st eq_refl eq_refl eq_refl eq_refl eq_refl eq_refl)))))).
Defined.

(** C7.  Once the input is consumed, [lines] grows by exactly one when
    [chars > 0] and the last rune counted was not a newline, and is left
    alone otherwise; [lastWasNewline] is true exactly after a newline; the
    record of a text file read to its end carries the counts so finished.
    A file holding a newline alone gives (1, 0, 1), and a file holding
    "a b", a newline and "c" gives (2, 3, 5). *)
Theorem C7_final_line :
  (forall st,
     lines (final_line st) =
       (if (chars st >? 0) && negb (lastWasNewline st) then lines st + 1 else lines st)
     /\ words (final_line st) = words st /\ chars (final_line st) = chars st) /\
  (forall st r, lastWasNewline (count_rune st r) = (r =? 10)) /\
  (forall st, 0 < leftN st -> lastWasNewline (flush_leftover st) = false) /\
  (forall pl path info f st,
     os_Stat pl path = Ok info -> os_Open pl path = Ok f ->
     sniff_verdict (info_Size info) f = Ret false ->
     count_reads Counter0 (reads f) = Ret st -> read_end f = EOF ->
     exists r, AnalyzeFile pl path = Ret r /\
               Lines r = lines (final_line (flush_leftover st)) /\
               Words r = words (flush_leftover st) /\
               Chars r = chars (flush_leftover st)) /\
  analyze_regular [Byte.x0a] = Ret ("text"%string, (1, 0, 1)) /\
  analyze_regular [Byte.x61; Byte.x20; Byte.x62; Byte.x0a; Byte.x63]
    = Ret ("text"%string, (2, 3, 5)).
Proof.
  assert (Hfl : forall st,
     lines (final_line st) =
       (if (chars st >? 0) && negb (lastWasNewline st) then lines st + 1 else lines st)
     /\ words (final_line st) = words st /\ chars (final_line st) = chars st).
  { intros st. unfold final_line.
    destruct ((chars st >? 0) && negb (lastWasNewline st)); repeat split. }
  split; [exact Hfl|].
  split.
  { intros st r. unfold count_rune.
    destruct (r =? 10), (unicode.IsSpace r), (negb (inWord st)); reflexivity. }
  split.
  { intros st H. unfold flush_leftover. destruct (Z.gtb_spec (leftN st) 0); [reflexivity|lia]. }
  split.
  { intros pl path info f st Hs Ho Ht Hr He.
    rewrite (AnalyzeFile_opened _ _ _ _ Hs Ho). cbv zeta. rewrite Ht, Hr, He.
    eexists. split; [reflexivity|]. unfold finish.
    destruct (Hfl (flush_leftover st)) as (_ & Hw & Hc).
    cbn [Lines Words Chars set_counts]. auto. }
  split; reflexivity.
Qed.

Lemma IsSpace_White_Space r : unicode.IsSpace r = true <-> White_Space r.
Proof.
  unfold unicode.IsSpace, White_Space, unicode.isExcludingLatin_White_Space, unicode.MaxLatin1.
  cbn [unicode.White_Space_R16 last unicode.Hi unicode.White_Space_LatinOffset skipn unicode.is16
       unicode.Lo unicode.Stride].
  destruct (Z.leb_spec 0 r); cbn [andb].
  2: { split; [discriminate|lia]. }
  destruct (Z.leb_spec r 255); cbn [andb].
  - rewrite !orb_true_iff, !Z.eqb_eq. lia.
  - destruct (Z.leb_spec r 12288); cbn [andb]; [|split; [discriminate|lia]].
    repeat match goal with
    | |- context [?a <? ?c] => destruct (Z.ltb_spec a c)
    | |- context [?a <=? ?c] => destruct (Z.leb_spec a c)
    end; cbn [orb Z.eqb Pos.eqb]; try (split; [discriminate|lia]); try (split; [lia|reflexivity]).
    all: rewrite Z.eqb_eq; Z.to_euclidean_division_equations; lia.
Qed.

(** The rule of the words, for one rune: a rune other than the newline
    adds a word exactly when it is not white space and no word was in
    progress. *)
Lemma count_rune_word_rule st r :
  r <> 10 ->
  words (count_rune st r) =
    (if negb (unicode.IsSpace r) && negb (inWord st) then words st + 1 else words st) /\
  inWord (count_rune st r) = negb (unicode.IsSpace r) /\
  (inWord st = true -> words (count_rune st r) = words st) /\
  chars (count_rune st r) = chars st + 1 /\
  lines (count_rune st r) = lines st.
Proof.
  intros Hr. unfold count_rune. destruct (Z.eqb_spec r 10); [contradiction|].
  destruct (unicode.IsSpace r), (inWord st); cbn; repeat split; try tauto; try discriminate.
Qed.

(** C9.  When the stat, the open or a read of the counting pass fails,
    [AnalyzeFile] sends a record marked as failed, with the error text and
    with all counts zero, whatever had been counted before the failure. *)
Theorem C9_failure_carries_no_counts pl path msg (Hfail : io_failure pl path msg) :
  exists r, AnalyzeFile pl path = Ret r /\
            HasError r = true /\ ErrorText r = msg /\
            Lines r = 0 /\ Words r = 0 /\ Chars r = 0.
Proof.
  destruct Hfail as [Hs|info Hs Ho|info f st Hs Ho Ht Hr He].
  - unfold AnalyzeFile. rewrite Hs. eexists. repeat split.
  - unfold AnalyzeFile. rewrite Hs, Ho. eexists. repeat split.
  - rewrite (AnalyzeFile_opened _ _ _ _ Hs Ho). cbv zeta. rewrite Ht, Hr, He.
    eexists. repeat split.
Qed.

(** A file whose first read delivers "a b" and whose second read fails. *)
Lemma C9_witness :
  exists r, AnalyzeFile (platform_with 3 {| at0 := [Byte.x61; Byte.x20; Byte.x62];
                                            reads := [[Byte.x61; Byte.x20; Byte.x62]];
                                            read_end := ReadErr "input/output error" |})
                        EmptyString = Ret r /\
            HasError r = true /\ ErrorText r = "input/output error"%string /\
            Lines r = 0 /\ Words r = 0 /\ Chars r = 0.
Proof.
  apply C9_failure_carries_no_counts.
  eapply read_fails; reflexivity.
Defined.

(* ================================================================= *)
(** ** Chunking *)

Lemma blocks_concat fuel k : forall l,
  (0 < k)%nat -> (List.length l <= fuel)%nat -> List.concat (blocks fuel k l) = l.
Proof.
  induction fuel as [|fuel IH]; intros l Hk Hl.
  - destruct l; [reflexivity|cbn in Hl; lia].
  - destruct l as [|b t]; [reflexivity|].
    cbn [blocks List.concat]. rewrite IH; [apply firstn_skipn|assumption|].
    rewrite length_skipn. cbn [List.length] in *. lia.
Qed.

(** The reads of a regular file deliver its content. *)
Lemma regular_file_reads content :
  List.concat (reads (regular_file content)) = content.
Proof.
  apply blocks_concat; [unfold bufSize; lia|apply Nat.le_refl].
Qed.

Lemma AnalyzeFile_with size f :
  AnalyzeFile (platform_with size f) EmptyString =
  let stat := set_kind (set_info (new_stats EmptyString EmptyString) (fun _ => EmptyString)
                {| info_Size := size; info_ModTime := EmptyString; info_ModUnix := 0 |}) "text" in
  match sniff_verdict size f with
  | Panic => Panic
  | Fuel => Fuel
  | Ret true => Ret (set_counts (set_kind stat "binary") 0 0 0)
  | Ret false =>
      match count_reads Counter0 (reads f) with
      | Panic => Panic
      | Fuel => Fuel
      | Ret st =>
          match read_end f with
          | ReadErr msg => Ret (set_error stat msg)
          | EOF => Ret (set_counts stat (lines (finish st)) (words (finish st)) (chars (finish st)))
          end
      end
  end.
Proof.
  exact (AnalyzeFile_opened (platform_with size f) EmptyString
           {| info_Size := size; info_ModTime := EmptyString; info_ModUnix := 0 |} f
           eq_refl eq_refl).
Qed.

(** Where reading in chunks returns a record, reading the whole content in
    one chunk returns the same record. *)
Lemma chunking_transparent_unless_panic content chunks x :
  List.concat chunks = content ->
  analyze_chunked content chunks = Ret x ->
  analyze_chunked content [content] = Ret x.
Proof.
  intros Hc. unfold analyze_chunked.
  rewrite !AnalyzeFile_with. cbv zeta.
  change (sniff_verdict (len content) (chunked_file content chunks))
    with (sniff_verdict (len content) (chunked_file content [content])).
  destruct (sniff_verdict (len content) (chunked_file content [content])) as [[|]| |];
    try (intros E; exact E).
  change (reads (chunked_file content chunks)) with chunks.
  change (reads (chunked_file content [content])) with [content].
  destruct (count_reads Counter0 chunks) as [st| |] eqn:Hr; try discriminate.
  rewrite <- Hc, (count_reads_chunked_whole _ _ Hr). intros E; exact E.
Qed.

(** The euro sign, read one byte and then two. *)
Lemma chunking_witness :
  analyze_chunked [Byte.xe2; Byte.x82; Byte.xac] [[Byte.xe2; Byte.x82; Byte.xac]]
  = Ret ("text"%string, (1, 1, 1)).
Proof.
  apply (chunking_transparent_unless_panic
           [Byte.xe2; Byte.x82; Byte.xac] [[Byte.xe2]; [Byte.x82; Byte.xac]]);
  reflexivity.
Defined.

(** Reading the whole content in one chunk always returns a record. *)
Lemma whole_content_returns content :
  exists x, analyze_chunked content [content] = Ret x.
Proof.
  unfold analyze_chunked.
  rewrite AnalyzeFile_with. cbv zeta.
  destruct (sniff_verdict_total (len content) (chunked_file content [content])) as [b Hb].
  rewrite Hb.
  destruct b; [eexists; reflexivity|].
  change (reads (chunked_file content [content])) with [content].
  destruct (count_reads_single_returns content) as [st Hst]. rewrite Hst.
  eexists; reflexivity.
Qed.

(** The analysis of the straddling file panics. *)
Lemma straddling_file_panics :
  AnalyzeFile straddling_platform EmptyString = Panic.
Proof. vm_compute. reflexivity. Qed.

(** C1 does not hold: chunking is not transparent.  Take a regular file
    of 65537 bytes: 65534 letters, the first two bytes of a three-byte
    sequence, and a letter.  The file is text; counted as one chunk it
    gives (1, 1, 65537); read through the 64 KiB buffer it comes in two
    chunks of 65536 bytes and 1 byte, the boundary falling inside the
    sequence, and [AnalyzeFile] panics instead of returning that triple. *)
Theorem C1_chunk_boundary_in_rejected_sequence :
  analyze_chunked straddling_content [straddling_content]
    = Ret ("text"%string, (1, 1, 65537)) /\
  map (@len byte) (reads (regular_file straddling_content)) = [65536; 1] /\
  analyze_regular straddling_content = Panic.
Proof.
  split; [vm_compute; reflexivity|].
  split; [vm_compute; reflexivity|].
  unfold analyze_regular. fold straddling_platform.
  rewrite straddling_file_panics. reflexivity.
Qed.

(** C10 does not hold: the index into the chunk can be negative.  After
    the first read of that file the carry holds two bytes; the next chunk
    is the single letter; the completed sequence is rejected with width
    one, which sets the index to [size - leftN = 1 - 2 = -1], and the
    slice [buf[-1:n]] panics. *)
Theorem C10_index_below_zero :
  let st := {| lines := 0; words := 1; chars := 65534; inWord := true;
               lastWasNewline := false; leftover := [Byte.xe2; Byte.x82] |} in
  count_reads Counter0 [straddling_first_read] = Ret st /\
  utf8.DecodeRune (leftover st ++ [Byte.x61]) = (utf8.RuneError, 1) /\
  utf8.FullRune (leftover st ++ [Byte.x61]) = true /\
  snd (complete_carry st [Byte.x61]) = -1 /\
  process_chunk st [Byte.x61] = Panic /\
  count_reads Counter0 [straddling_first_read; [Byte.x61]] = Panic.
Proof.
  cbv zeta.
  split; [vm_compute; reflexivity|].
  split; [vm_compute; reflexivity|].
  split; [vm_compute; reflexivity|].
  split; [vm_compute; reflexivity|].
  split; vm_compute; reflexivity.
Qed.

(* ================================================================= *)
(** ** The number of jobs *)

(** On its own, [Run] turns a [cfg.Jobs] of zero or less into the number
    of CPUs, and into 1 if that is below 1. *)
Lemma limit_nonpositive NumCPU cfgJobs :
  cfgJobs <= 0 -> run.jobs_limit NumCPU cfgJobs = Z.max 1 NumCPU.
Proof.
  intros H. unfold run.jobs_limit. cbv zeta.
  destruct (Z.leb_spec cfgJobs 0); [|lia].
  destruct (Z.ltb_spec NumCPU 1); lia.
Qed.

Lemma limit_nonpositive_witness : run.jobs_limit 8 0 = Z.max 1 8.
Proof. apply limit_nonpositive. lia. Defined.

(** [ParseArgs] never hands [Run] a [cfg.Jobs] below 1. *)
Lemma ParseArgs_Jobs_positive flag : 1 <= cli.ParseArgs_Jobs flag.
Proof.
  unfold cli.ParseArgs_Jobs. cbv zeta.
  destruct (Z.ltb_spec (match flag with Some v => v | None => cli.defaultJobs end) 1); lia.
Qed.

(** A request for zero or fewer jobs makes [Run] work with one job,
    whatever the number of CPUs. *)
Lemma effective_nonpositive NumCPU v :
  v <= 0 -> run.Run_jobs NumCPU (Some v) = 1.
Proof.
  intros H. unfold run.Run_jobs, cli.ParseArgs_Jobs, run.jobs_limit. cbv zeta.
  destruct (Z.ltb_spec v 1); [reflexivity|lia].
Qed.

Lemma effective_nonpositive_witness : run.Run_jobs 8 (Some (-3)) = 1.
Proof. apply effective_nonpositive. lia. Defined.

(** C3 does not hold: a request for zero jobs does not give the number of
    CPUs.  With [-jobs 0] on a machine of 8 CPUs, [ParseArgs] raises the 0
    to 1 before [Run] reads it, so the branch of [Run] that takes the
    number of CPUs is not entered, and the capacity is 1, not 8; lines
    43-49 of [Run], given the 0, would make it 8. *)
Theorem C3_zero_jobs_gives_one :
  cli.ParseArgs_Jobs (Some 0) = 1 /\
  run.Run_jobs 8 (Some 0) = 1 /\
  run.Run_jobs 8 (Some 0) <> Z.max 1 8 /\
  run.jobs_limit 8 0 = 8.
Proof.
  split; [reflexivity|]. split; [reflexivity|]. split; [discriminate|reflexivity].
Qed.

(* ================================================================= *)
(** ** The goroutines of [Run] *)

Import run.

Lemma countp_app f ws1 ws2 : countp f (ws1 ++ ws2) = countp f ws1 + countp f ws2.
Proof. unfold countp. rewrite filter_app, len_app. reflexivity. Qed.

Lemma countp_cons f p pc ws :
  countp f ((p, pc) :: ws) = (if f pc then 1 else 0) + countp f ws.
Proof.
  unfold countp. cbn [filter snd]. destruct (f pc); [|lia].
  unfold len. cbn [List.length]. lia.
Qed.

Lemma countp_nil f : countp f [] = 0.
Proof. reflexivity. Qed.

Lemma countp_nonneg f ws : 0 <= countp f ws.
Proof. apply len_nonneg. Qed.

Lemma owed_app pl ws1 ws2 : owed pl (ws1 ++ ws2) = owed pl ws1 ++ owed pl ws2.
Proof. unfold owed. apply flat_map_app. Qed.

Lemma owed_cons pl p pc ws :
  owed pl ((p, pc) :: ws) =
  (if not_sent pc then [analyze.AnalyzeFile pl p] else []) ++ owed pl ws.
Proof. reflexivity. Qed.

Lemma Inv_init pl jobs files : 0 <= jobs -> Inv pl jobs files (init files).
Proof.
  intros Hj. constructor; cbn; try (intuition (congruence || lia)).
  unfold ledger; cbn. apply Permutation_refl.
Qed.

Ltac inv_simpl :=
  cbn [main workers closer sem wg results closed stats crashed
       main_slot main_counted in_loop pending] in *;
  rewrite ?countp_app, ?countp_cons, ?countp_nil in *;
  cbn [holds_slot in_AnalyzeFile not_sent panicking] in *.

Lemma In_replaced {A} (x y y' : A) l1 l2 :
  In x (l1 ++ y' :: l2) -> x = y' \/ In x (l1 ++ y :: l2).
Proof. rewrite !in_app_iff. cbn [In]. intuition auto. Qed.

Lemma In_removed {A} (x y : A) l1 l2 :
  In x (l1 ++ l2) -> In x (l1 ++ y :: l2).
Proof. rewrite !in_app_iff. cbn [In]. intuition auto. Qed.

Ltac ledger_simpl :=
  unfold ledger in *;
  cbn [main workers closer sem wg results closed stats crashed pending] in *;
  rewrite ?owed_app, ?owed_cons, ?map_app in *;
  cbn [not_sent map owed flat_map] in *;
  rewrite <- ?app_assoc in *; cbn [app] in *.

Lemma Inv_step pl jobs cap files s s' :
  Inv pl jobs files s -> step pl jobs cap s s' -> Inv pl jobs files s'.
Proof.
  intros [Hsem Hcap Hwg Hled Hclo Hwoke Hcld Hdone Hpan Hcr] Hstep.
  inversion Hstep; subst; inv_simpl.
  (* a send on the closed channel does not happen: the WaitGroup is at zero *)
  8: { exfalso. assert (c = CExit) by (apply Hcld; reflexivity).
       pose proof (countp_nonneg in_AnalyzeFile ws1). pose proof (countp_nonneg in_AnalyzeFile ws2).
       assert (w = 0) by auto. destruct m; cbn [main_counted] in *; lia. }
  all: constructor; inv_simpl; try lia; try assumption; try (intuition (congruence || lia)).
  all: try (ledger_simpl; exact Hled).
  all: try (intros p0 pc Hin Hp;
    lazymatch type of Hpan with
    | context [In _ (?l1 ++ (?q, ?old) :: ?l2)] =>
        lazymatch type of Hin with
        | In _ (l1 ++ _ :: l2) =>
            apply (In_replaced _ (q, old)) in Hin;
            destruct Hin as [E|Hin];
            [ inversion E; subst; cbn [panicking] in Hp;
              first [ discriminate | assumption
                    | apply (Hpan q old); [apply in_elt|reflexivity] ]
            | eauto ]
        | In _ (l1 ++ l2) => apply (In_removed _ (q, old)) in Hin; eauto
        end
    | _ =>
        apply in_app_iff in Hin; destruct Hin as [Hin|[E|[]]];
        [eauto|inversion E; subst; discriminate]
    end).
  - (* the send: the record owed by the goroutine is now in the buffer *)
    ledger_simpl.
    match goal with HA : AnalyzeFile pl _ = Ret _ |- _ => rewrite HA in Hled end.
    eapply Permutation_trans; [exact Hled|].
    do 2 apply Permutation_app_head.
    apply Permutation_sym, Permutation_middle.
  - intros _. exists p. apply in_elt.
Qed.

Lemma Inv_reachable pl jobs cap files s :
  0 <= jobs -> reachable pl jobs cap files s -> Inv pl jobs files s.
Proof.
  intros Hj Hr. induction Hr as [|s s' _ IH Hs].
  - apply Inv_init. assumption.
  - eapply Inv_step; eassumption.
Qed.

Lemma countp_le f g ws :
  (forall pc, f pc = true -> g pc = true) -> countp f ws <= countp g ws.
Proof.
  intros Hfg. induction ws as [|[p pc] ws IH]; [reflexivity|].
  rewrite !countp_cons. specialize (Hfg pc).
  destruct (f pc), (g pc); first [lia | discriminate (Hfg eq_refl)].
Qed.

(** C4.  In every state of a run, the goroutines inside [AnalyzeFile] are
    at most [jobs]: each holds a slot of the semaphore, whose capacity is
    [jobs]. *)
Theorem C4_at_most_jobs_analyses pl jobs cap files s
  (Hjobs : 1 <= jobs) (Hreach : reachable pl jobs cap files s) :
  executing s <= jobs.
Proof.
  assert (Hj : 0 <= jobs) by lia.
  destruct (Inv_reachable _ _ _ _ _ Hj Hreach) as [Hsem Hcap _ _ _ _ _ _ _ _].
  unfold executing.
  assert (countp in_AnalyzeFile (workers s) <= countp holds_slot (workers s)).
  { apply countp_le. intros []; cbn; congruence. }
  assert (0 <= main_slot (main s)) by (destruct (main s); cbn; lia).
  lia.
Qed.

(** Two paths under analysis with two jobs. *)
Lemma C4_witness :
  executing (St (MLoop []) [("a", WAnalyze); ("b", WAnalyze)]%string CNone 2 2 [] false [] false) <= 2.
Proof.
  apply (C4_at_most_jobs_analyses (platform_with 0 (regular_file [])) 2 2 ["a"; "b"]%string).
  - lia.
  - eapply reach_step; [eapply reach_step; [eapply reach_step; [eapply reach_step;
      [eapply reach_step; [eapply reach_step; [apply reach_init|]|]|]|]|]|].
    + apply step_add.
    + apply step_acquire. lia.
    + apply step_go.
    + apply step_add.
    + apply step_acquire. lia.
    + apply (step_go _ _ _ "b"%string [] [("a"%string, WAnalyze)]).
Defined.

(** *** What is collected *)

Lemma len_map {A B} (f : A -> B) l : len (map f l) = len l.
Proof. unfold len. rewrite length_map. reflexivity. Qed.

Lemma Permutation_len {A} (l l' : list A) : Permutation l l' -> len l = len l'.
Proof. intros H. unfold len. rewrite (Permutation_length H). reflexivity. Qed.

Lemma ledger_len pl jobs files s :
  Inv pl jobs files s ->
  len files = len (stats s) + len (results s) + len (owed pl (workers s))
              + len (pending (main s)).
Proof.
  intros HI. pose proof (Permutation_len _ _ (inv_ledger _ _ _ _ HI)) as H.
  unfold ledger in H. rewrite !len_app, !len_map in H. lia.
Qed.

Lemma owed_In pl ws p pc :
  In (p, pc) ws -> not_sent pc = true -> In (analyze.AnalyzeFile pl p) (owed pl ws).
Proof.
  intros Hin Hns. unfold owed. apply in_flat_map. exists (p, pc).
  split; [assumption|]. cbn [fst snd]. rewrite Hns. left; reflexivity.
Qed.

(** The outcome owed by a goroutine is the outcome of one of the files. *)
Lemma owed_of_files pl jobs files s p pc :
  Inv pl jobs files s -> In (p, pc) (workers s) -> not_sent pc = true ->
  exists q, In q files /\ analyze.AnalyzeFile pl q = analyze.AnalyzeFile pl p.
Proof.
  intros HI Hin Hns.
  assert (Hl : In (analyze.AnalyzeFile pl p) (ledger pl s)).
  { unfold ledger. rewrite !in_app_iff. right; right; left. eapply owed_In; eassumption. }
  apply (Permutation_in _ (Permutation_sym (inv_ledger _ _ _ _ HI))) in Hl.
  apply in_map_iff in Hl. destruct Hl as (q & Hq & Hin'). exists q. auto.
Qed.

Lemma no_panicking pl jobs files s p pc :
  no_panic pl files -> Inv pl jobs files s -> In (p, pc) (workers s) -> panicking pc = false.
Proof.
  intros Hnp HI Hin. destruct (panicking pc) eqn:Hp; [exfalso|reflexivity].
  pose proof (inv_panics _ _ _ _ HI p pc Hin Hp) as HP.
  destruct (owed_of_files _ _ _ _ p pc HI Hin) as (q & Hq & E).
  { destruct pc; cbn in *; congruence. }
  apply (Hnp q Hq). congruence.
Qed.

Lemma no_crash pl jobs files s :
  no_panic pl files -> Inv pl jobs files s -> crashed s = false.
Proof.
  intros Hnp HI. destruct (crashed s) eqn:Hc; [exfalso|reflexivity].
  destruct (inv_crashed _ _ _ _ HI Hc) as (p & Hin).
  pose proof (no_panicking _ _ _ _ _ _ Hnp HI Hin). discriminate.
Qed.

Lemma owed_nil pl ws :
  countp in_AnalyzeFile ws = 0 ->
  (forall p pc, In (p, pc) ws -> panicking pc = false) ->
  owed pl ws = [].
Proof.
  induction ws as [|[p pc] ws IH]; intros Hc Hp; [reflexivity|].
  rewrite countp_cons in Hc. pose proof (countp_nonneg in_AnalyzeFile ws).
  pose proof (Hp p pc (or_introl eq_refl)) as Hpc.
  rewrite owed_cons, IH.
  - destruct pc; cbn [in_AnalyzeFile not_sent panicking app] in *;
    try reflexivity; try discriminate; lia.
  - destruct (in_AnalyzeFile pc); lia.
  - intros q qc Hin. apply (Hp q qc). right; assumption.
Qed.

(** When no analysis panics and the main goroutine is past its range
    loop, [stats] holds the record of every path, each once. *)
Lemma delivered_all pl jobs files s :
  no_panic pl files -> Inv pl jobs files s -> main s = MDone ->
  Permutation (map (analyze.AnalyzeFile pl) files) (map Ret (stats s)).
Proof.
  intros Hnp HI Hm. pose proof (inv_ledger _ _ _ _ HI) as Hled.
  destruct (inv_done _ _ _ _ HI Hm) as [Hrs Hcl].
  assert (Hwg : wg s = 0).
  { apply (inv_woke _ _ _ _ HI). right. apply (inv_closed _ _ _ _ HI). assumption. }
  rewrite (inv_wg _ _ _ _ HI), Hm in Hwg. cbn [main_counted] in Hwg.
  unfold ledger in Hled. rewrite Hrs, Hm in Hled. cbn [map app pending] in Hled.
  rewrite owed_nil in Hled.
  - rewrite !app_nil_r in Hled. assumption.
  - lia.
  - intros p pc Hin. eapply no_panicking; eassumption.
Qed.

(** *** Progress *)

Lemma countp_pos f ws :
  0 < countp f ws ->
  exists ws1 p pc ws2, ws = ws1 ++ (p, pc) :: ws2 /\ f pc = true.
Proof.
  induction ws as [|[p pc] ws IH]; [rewrite countp_nil; lia|].
  rewrite countp_cons. destruct (f pc) eqn:Hf.
  - intros _. exists [], p, pc, ws. split; [reflexivity|assumption].
  - intros H. destruct IH as (ws1 & q & qc & ws2 & -> & Hq); [lia|].
    exists ((p, pc) :: ws1), q, qc, ws2. split; [reflexivity|assumption].
Qed.

Lemma all_return_no_panic pl files : all_return pl files -> no_panic pl files.
Proof. intros H p Hin E. destruct (H p Hin) as [r Hr]. congruence. Qed.

(** A goroutine whose analysis returns can take its next step. *)
Lemma worker_steps pl jobs files m ws1 p pc ws2 c sm w rs cl st :
  Inv pl jobs files (St m (ws1 ++ (p, pc) :: ws2) c sm w rs cl st false) ->
  all_return pl files ->
  exists s', step pl jobs (len files) (St m (ws1 ++ (p, pc) :: ws2) c sm w rs cl st false) s'.
Proof.
  intros HI Hret. pose proof (all_return_no_panic _ _ Hret) as Hnp.
  pose proof (no_panicking _ _ _ _ p pc Hnp HI (in_elt _ _ _)) as Hpc.
  pose proof (inv_sem _ _ _ _ HI) as Hsem. pose proof (inv_wg _ _ _ _ HI) as Hwg.
  pose proof (ledger_len _ _ _ _ HI) as Hlen.
  cbn [main workers sem wg results stats] in *.
  rewrite countp_app, countp_cons in Hsem, Hwg. rewrite owed_app, owed_cons, !len_app in Hlen.
  pose proof (countp_nonneg holds_slot ws1). pose proof (countp_nonneg holds_slot ws2).
  pose proof (countp_nonneg in_AnalyzeFile ws1). pose proof (countp_nonneg in_AnalyzeFile ws2).
  assert (0 <= main_slot m) by (destruct m; cbn; lia).
  assert (0 <= main_counted m) by (destruct m; cbn; lia).
  pose proof (len_nonneg st). pose proof (len_nonneg (owed pl ws1)).
  pose proof (len_nonneg (owed pl ws2)). pose proof (len_nonneg (pending m)).
  destruct pc; try discriminate; cbn [holds_slot in_AnalyzeFile not_sent] in *.
  - destruct (owed_of_files _ _ _ _ p WAnalyze HI (in_elt _ _ _) eq_refl) as (q & Hq & E).
    destruct (analyze.AnalyzeFile pl p) as [r| |] eqn:HA.
    + destruct cl.
      * eexists. eapply step_send_closed. eassumption.
      * eexists. eapply step_send; [eassumption|]. unfold len in *. cbn [List.length] in *. lia.
    + exfalso. apply (Hnp q Hq). assumption.
    + exfalso. destruct (Hret q Hq) as [r Hr]. congruence.
  - eexists. apply step_done. lia.
  - eexists. apply step_release. lia.
Qed.

(** A run in which every analysis returns is never stuck before the main
    goroutine is past its range loop. *)
Lemma progress pl jobs files s :
  1 <= jobs -> all_return pl files ->
  Inv pl jobs files s -> main s <> MDone ->
  exists s', step pl jobs (len files) s s'.
Proof.
  intros Hj Hret HI Hm. pose proof (all_return_no_panic _ _ Hret) as Hnp.
  pose proof (no_crash _ _ _ _ Hnp HI) as Hcr.
  pose proof (inv_sem _ _ _ _ HI) as Hsem. pose proof (inv_wg _ _ _ _ HI) as Hwg.
  pose proof (inv_closer _ _ _ _ HI) as Hclo. pose proof (inv_closed _ _ _ _ HI) as Hcld.
  destruct s as [m ws c sm w rs cl st cr]. cbn [main workers closer sem wg results closed stats crashed] in *.
  subst cr.
  destruct m as [[|p todo]|p todo|p todo| |]; cbn [main_slot main_counted in_loop] in *.
  - eexists. apply step_closer.
  - eexists. apply step_add.
  - destruct (Z.lt_ge_cases sm jobs) as [Hlt|Hge].
    + eexists. apply step_acquire. assumption.
    + destruct (countp_pos holds_slot ws) as (ws1 & q & qc & ws2 & -> & _); [lia|].
      eapply worker_steps; eassumption.
  - eexists. apply step_go.
  - destruct rs as [|r rs]; [|eexists; apply step_recv].
    destruct cl; [eexists; apply step_end|].
    destruct c.
    + exfalso. assert (false = true) by (apply Hclo; reflexivity). discriminate.
    + destruct (Z.eq_dec w 0) as [->|Hw].
      * eexists. apply step_wake.
      * pose proof (countp_nonneg in_AnalyzeFile ws).
        destruct (countp_pos in_AnalyzeFile ws) as (ws1 & q & qc & ws2 & -> & _); [lia|].
        eapply worker_steps; eassumption.
    + eexists. apply step_close.
    + exfalso. assert (false = true) by (apply Hcld; reflexivity). discriminate.
  - congruence.
Qed.

(** *** Termination *)

Lemma weights_app ws1 ws2 : weights (ws1 ++ ws2) = weights ws1 + weights ws2.
Proof. induction ws1 as [|w ws1 IH]; cbn [weights app]; lia. Qed.

Lemma weights_nonneg ws : 0 <= weights ws.
Proof.
  induction ws as [|[p pc] ws IH]; cbn [weights snd]; [lia|]. destruct pc; cbn [weight]; lia.
Qed.

Lemma measure_nonneg s : 0 <= measure s.
Proof.
  unfold measure. pose proof (weights_nonneg (workers s)). pose proof (len_nonneg (results s)).
  assert (0 <= main_weight (main s)).
  { destruct (main s) as [t|? t|? t| |]; cbn [main_weight]; try lia;
    pose proof (len_nonneg t); lia. }
  assert (0 <= closer_weight (closer s)) by (destruct (closer s); cbn; lia).
  destruct (crashed s); lia.
Qed.

(** Every step brings a run closer to its end. *)
Lemma step_decreases pl jobs cap s s' : step pl jobs cap s s' -> measure s' < measure s.
Proof.
  intros Hs. inversion Hs; subst; unfold measure;
  cbn [main workers closer results crashed main_weight closer_weight];
  rewrite ?weights_app, ?len_app; cbn [weights snd weight];
  unfold len; cbn [List.length];
  try (match goal with c : CloserPc |- _ => destruct c; cbn [closer_weight] end); lia.
Qed.

(** A run in which every analysis returns goes on until the main goroutine
    is past its range loop, whatever the interleaving. *)
Lemma runs_complete pl jobs files :
  1 <= jobs -> all_return pl files ->
  forall s, reachable pl jobs (len files) files s -> completes pl jobs (len files) s.
Proof.
  intros Hj Hret. pose proof (all_return_no_panic _ _ Hret) as Hnp.
  assert (Hind : forall n s, measure s < Z.of_nat n ->
                 reachable pl jobs (len files) files s -> completes pl jobs (len files) s).
  { induction n as [|n IH]; intros s Hm Hr.
    - pose proof (measure_nonneg s). lia.
    - assert (HI : Inv pl jobs files s) by (eapply Inv_reachable; [lia|eassumption]).
      destruct (main s) eqn:Hmain.
      5: { apply completes_done; [assumption|eapply no_crash; eassumption]. }
      all: apply completes_step;
        [ apply progress; [assumption..|congruence]
        | intros s' Hs; apply IH;
          [pose proof (step_decreases _ _ _ _ _ Hs); lia|eapply reach_step; eassumption] ]. }
  intros s Hr. apply (Hind (S (Z.to_nat (measure s)))); [|assumption].
  pose proof (measure_nonneg s). lia.
Qed.

(** *** The records delivered *)

(** Where every analysis returns (none panics, none stays in [os.Open] or
    in its read loop for ever), every run of the dispatcher goes on to the
    end of the range loop, and [stats] then holds exactly the records of
    the paths, one for each.  The progress of a run rests on the return of
    the analyses, which is assumed here and not drawn from the model of
    the files. *)
Lemma dispatcher_delivers_all pl jobs files :
  1 <= jobs -> all_return pl files ->
  completes pl jobs (len files) (init files) /\
  forall s, reachable pl jobs (len files) files s -> main s = MDone ->
            Permutation (map (analyze.AnalyzeFile pl) files) (map Ret (stats s))
            /\ len (stats s) = len files.
Proof.
  intros Hj Hret. pose proof (all_return_no_panic _ _ Hret) as Hnp. split.
  - apply runs_complete with (files := files); [assumption..|apply reach_init].
  - intros s Hr Hm.
    assert (HI : Inv pl jobs files s) by (eapply Inv_reachable; [lia|eassumption]).
    pose proof (delivered_all _ _ _ _ Hnp HI Hm) as HP. split; [assumption|].
    apply Permutation_len in HP. rewrite !len_map in HP. lia.
Qed.

(** Two paths naming a one-letter file, with two jobs. *)
Lemma dispatcher_delivers_all_witness :
  completes (platform_with 1 (regular_file [Byte.x61])) 2 2 (init ["a"; "b"]%string).
Proof.
  refine (proj1 (dispatcher_delivers_all (platform_with 1 (regular_file [Byte.x61])) 2
                   ["a"; "b"]%string _ _)).
  - lia.
  - intros p _. eexists. reflexivity.
Defined.

(** C2 does not hold when the analysis of one of the paths panics (as in
    C10): in no state of the run does [stats] hold as many records as
    there are paths. *)
Theorem C2_panic_loses_a_record pl jobs files s
  (Hjobs : 1 <= jobs)
  (Hpanic : exists p, In p files /\ analyze.AnalyzeFile pl p = Panic)
  (Hreach : reachable pl jobs (len files) files s) :
  len (stats s) < len files.
Proof.
  assert (HI : Inv pl jobs files s) by (eapply Inv_reachable; [lia|eassumption]).
  pose proof (ledger_len _ _ _ _ HI) as Hlen.
  destruct Hpanic as (p & Hin & HP).
  assert (Hl : In Panic (ledger pl s)).
  { apply (Permutation_in _ (inv_ledger _ _ _ _ HI)). rewrite <- HP.
    apply in_map. assumption. }
  unfold ledger in Hl. rewrite !in_app_iff in Hl.
  pose proof (len_nonneg (results s)).
  pose proof (len_nonneg (owed pl (workers s))). pose proof (len_nonneg (pending (main s))).
  destruct Hl as [Hl|[Hl|[Hl|Hl]]].
  - apply in_map_iff in Hl. destruct Hl as (? & ? & _). discriminate.
  - apply in_map_iff in Hl. destruct Hl as (? & ? & _). discriminate.
  - destruct (owed pl (workers s)); [contradiction|]. unfold len in *. cbn [List.length] in *. lia.
  - destruct (pending (main s)); [contradiction|]. unfold len in *. cbn [List.length] in *. lia.
Qed.

(** The run over the straddling file with one job: the goroutine panics
    and the process dies with nothing collected. *)
Lemma C2_witness :
  let dead := St MCollect [(EmptyString, WCrash)] CWait 0 0 [] false [] true in
  reachable straddling_platform 1 1 [EmptyString] dead /\
  crashed dead = true /\
  len (stats dead) < len [EmptyString].
Proof.
  cbv zeta.
  assert (Hr : reachable straddling_platform 1 (len [EmptyString]) [EmptyString]
                 (St MCollect [(EmptyString, WCrash)] CWait 0 0 [] false [] true)).
  { eapply reach_step; [eapply reach_step; [eapply reach_step; [eapply reach_step;
      [eapply reach_step; [eapply reach_step; [eapply reach_step; [eapply reach_step;
        [apply reach_init|]|]|]|]|]|]|]|].
    - apply step_add.
    - apply step_acquire. reflexivity.
    - apply step_go.
    - apply step_closer.
    - apply (step_panic _ _ _ MCollect [] EmptyString []). exact straddling_file_panics.
    - apply (step_panic_done _ _ _ MCollect [] EmptyString []). reflexivity.
    - apply (step_panic_release _ _ _ MCollect [] EmptyString []). reflexivity.
    - apply (step_crash _ _ _ MCollect [] EmptyString []). }
  split; [exact Hr|]. split; [reflexivity|].
  refine (C2_panic_loses_a_record straddling_platform 1 [EmptyString] _ _ _ Hr).
  - lia.
  - exists EmptyString. split; [left; reflexivity|exact straddling_file_panics].
Defined.

(* ================================================================= *)
(** ** The bytes of a rune *)

Lemma u8_range b : 0 <= u8 b < 256.
Proof. unfold u8. pose proof (Byte.to_N_bounded b). lia. Qed.

Lemma lor_ge_l a b : 0 <= a -> 0 <= b -> a <= Z.lor a b.
Proof.
  intros Ha Hb. apply (Z.ldiff_le a (Z.lor a b)).
  - apply Z.lor_nonneg. split; assumption.
  - apply Z.bits_inj'. intros n Hn.
    rewrite Z.ldiff_spec, Z.lor_spec, Z.bits_0.
    destruct (Z.testbit a n), (Z.testbit b n); reflexivity.
Qed.

Lemma lor_ge_r a b : 0 <= a -> 0 <= b -> b <= Z.lor a b.
Proof. intros. rewrite Z.lor_comm. apply lor_ge_l; assumption. Qed.

(** The rows of the table [first]. *)
Lemma first_rows b : 0 <= b < 256 ->
  (b < 0x80 /\ utf8.first b = utf8.as_) \/
  (0x80 <= b /\ utf8.first b = utf8.xx) \/
  (0xC2 <= b <= 0xDF /\ utf8.first b = utf8.s1) \/
  (b = 0xE0 /\ utf8.first b = utf8.s2) \/
  (0xE1 <= b <= 0xEF /\ utf8.first b = utf8.s3) \/
  (b = 0xED /\ utf8.first b = utf8.s4) \/
  (b = 0xF0 /\ utf8.first b = utf8.s5) \/
  (0xF1 <= b <= 0xF3 /\ utf8.first b = utf8.s6) \/
  (b = 0xF4 /\ utf8.first b = utf8.s7).
Proof.
  intros Hb. unfold utf8.first.
  repeat match goal with
  | |- context [if ?a <? ?c then _ else _] => destruct (Z.ltb_spec a c)
  | |- context [if ?a =? ?c then _ else _] => destruct (Z.eqb_spec a c)
  end; lia || tauto || (intuition lia).
Qed.

Lemma at_range p k : 0 <= at_ p k < 256.
Proof. unfold at_. apply u8_range. Qed.

Ltac eval_row s :=
  let a := eval vm_compute in (s >=? utf8.as_) in
  let t := eval vm_compute in (Z.testbit s 0) in
  let z := eval vm_compute in (Z.land s 7) in
  let lo_ := eval vm_compute in (utf8.lo (utf8.acceptRanges (Z.shiftr s 4))) in
  let hi_ := eval vm_compute in (utf8.hi (utf8.acceptRanges (Z.shiftr s 4))) in
  change (s >=? utf8.as_) with a;
  change (Z.testbit s 0) with t;
  change (Z.land s 7) with z;
  change (utf8.lo (utf8.acceptRanges (Z.shiftr s 4))) with lo_;
  change (utf8.hi (utf8.acceptRanges (Z.shiftr s 4))) with hi_.

Ltac by_row b Hb :=
  destruct (first_rows b Hb) as
    [[? ->]|[[? ->]|[[? ->]|[[? ->]|[[? ->]|[[? ->]|[[? ->]|[[? ->]|[? ->]]]]]]]]];
  [ eval_row utf8.as_ | eval_row utf8.xx | eval_row utf8.s1 | eval_row utf8.s2
  | eval_row utf8.s3 | eval_row utf8.s4 | eval_row utf8.s5 | eval_row utf8.s6
  | eval_row utf8.s7 ].

Lemma mask_mod a : Z.land a utf8.maskx = a mod 64 /\ Z.land a utf8.mask2 = a mod 32
  /\ Z.land a utf8.mask3 = a mod 16 /\ Z.land a utf8.mask4 = a mod 8.
Proof.
  change utf8.maskx with (Z.ones 6). change utf8.mask2 with (Z.ones 5).
  change utf8.mask3 with (Z.ones 4). change utf8.mask4 with (Z.ones 3).
  rewrite !Z.land_ones by lia. repeat split.
Qed.


(** Splits on the condition of the [if] that the goal starts with. *)
Ltac head_if :=
  match goal with
  | |- (if ?c then _ else _) = _ => destruct c eqn:?
  | |- (if ?c then _ else _) = _ -> _ => destruct c eqn:?
  end.

Ltac bool_hyps :=
  repeat match goal with
  | H : _ || _ = false |- _ => apply orb_false_iff in H; destruct H
  | H : _ || _ = true |- _ => apply orb_true_iff in H; destruct H
  | H : _ && _ = false |- _ => apply andb_false_iff in H; destruct H
  | H : _ && _ = true |- _ => apply andb_true_iff in H; destruct H
  | H : (_ <? _) = true |- _ => apply Z.ltb_lt in H
  | H : (_ <? _) = false |- _ => apply Z.ltb_ge in H
  | H : (_ >? _) = true |- _ => rewrite Z.gtb_ltb in H; apply Z.ltb_lt in H
  | H : (_ >? _) = false |- _ => rewrite Z.gtb_ltb in H; apply Z.ltb_ge in H
  | H : (_ >=? _) = true |- _ => rewrite Z.geb_leb in H; apply Z.leb_le in H
  | H : (_ >=? _) = false |- _ => rewrite Z.geb_leb in H; apply Z.leb_gt in H
  | H : (_ <=? _) = true |- _ => apply Z.leb_le in H
  | H : (_ <=? _) = false |- _ => apply Z.leb_gt in H
  | H : (_ =? _) = true |- _ => apply Z.eqb_eq in H
  | H : (_ =? _) = false |- _ => apply Z.eqb_neq in H
  end.

(** What a decoding step consumes: a newline is decoded from the byte 0x0A
    alone, and every byte after the first of a sequence is 0x80 or more. *)
Lemma decode_bytes p r size :
  p <> [] -> utf8.DecodeRune p = (r, size) ->
  (r = 10 <-> at_ p 0 = 10) /\ (at_ p 0 < 0x80 -> size = 1) /\
  (2 <= size -> 0x80 <= at_ p 0 /\ 0x80 <= at_ p 1) /\ (3 <= size -> 0x80 <= at_ p 2) /\
  (4 <= size -> 0x80 <= at_ p 3).
Proof.
  intros Hp. apply len4_pos in Hp. unfold utf8.DecodeRune.
  pose proof (at_range p 0) as H0. pose proof (at_range p 1) as H1.
  pose proof (at_range p 2) as H2. pose proof (at_range p 3) as H3.
  generalize dependent (len4 p). intros n Hn.
  generalize dependent (at_ p 3). generalize dependent (at_ p 2).
  generalize dependent (at_ p 1). generalize dependent (at_ p 0).
  intros b0 H0 b1 H1 b2 H2 b3 H3.
  cbv zeta.
  destruct (mask_mod b0) as (_ & M2 & M3 & M4). rewrite M2, M3, M4.
  rewrite (proj1 (mask_mod b1)), (proj1 (mask_mod b2)), (proj1 (mask_mod b3)).
  rewrite !Z.shiftl_mul_pow2 by lia.
  by_row b0 H0; cbv iota beta; unfold utf8.RuneError, utf8.locb, utf8.hicb;
    repeat head_if; intros E; inversion E; subst r size; clear E; bool_hyps.
  all: try (repeat split; intros; lia).
  all: repeat match goal with
       | |- context [Z.lor ?a ?b] =>
           lazymatch a with context [Z.lor _ _] => fail | _ => idtac end;
           let H := fresh in let H' := fresh in
           assert (H : 0 <= a) by (Z.to_euclidean_division_equations; lia);
           assert (H' : 0 <= b) by (Z.to_euclidean_division_equations; lia);
           pose proof (lor_ge_l a b H H'); pose proof (lor_ge_r a b H H');
           generalize dependent (Z.lor a b); intros
       end.
  all: repeat split; intros; try lia.
  all: Z.to_euclidean_division_equations; lia.
Qed.

(** What a sequence that is cut short looks like: a lead byte that asks for
    more bytes than there are, followed by continuation bytes it accepts. *)
Lemma cut_short_view c :
  analyze.cut_short c = true ->
  1 <= len c <= 3 /\ 0xC2 <= at_ c 0 /\ len c < Z.land (utf8.first (at_ c 0)) 7 /\
  (1 < len c -> utf8.lo (utf8.acceptRanges (Z.shiftr (utf8.first (at_ c 0)) 4)) <= at_ c 1
                <= utf8.hi (utf8.acceptRanges (Z.shiftr (utf8.first (at_ c 0)) 4))) /\
  (2 < len c -> 0x80 <= at_ c 2 <= 0xBF).
Proof.
  intros Hc. pose proof (cut_short_len c Hc) as Hlen.
  assert (Hf : utf8.FullRune c = false).
  { unfold analyze.cut_short in Hc. destruct (utf8.DecodeRune c) as [r size].
    apply andb_prop in Hc. destruct Hc as [_ Hc]. destruct (utf8.FullRune c); [discriminate|reflexivity]. }
  clear Hc. split; [assumption|]. revert Hf. unfold utf8.FullRune.
  pose proof (at_range c 0) as H0.
  assert (Hn : len4 c = len c) by (rewrite len4_min; lia). rewrite Hn. clear Hn.
  generalize dependent (len c). intros n Hlen.
  generalize (at_ c 1) (at_ c 2). generalize dependent (at_ c 0).
  intros b0 H0 b1 b2. cbv zeta.
  by_row b0 H0; unfold utf8.locb, utf8.hicb; repeat head_if; try discriminate; intros _; bool_hyps;
    repeat split; intros; lia.
Qed.

Lemma at_app_r c p k : k = List.length c -> at_ (c ++ p) k = at_ p 0.
Proof.
  intros ->. unfold at_. rewrite app_nth2 by lia. rewrite Nat.sub_diag. reflexivity.
Qed.

(** A sequence cut short and then continued by an ASCII byte is one rune
    of one byte. *)
Lemma cut_short_then_ascii c a y :
  analyze.cut_short c = true -> u8 a < 0x80 ->
  utf8_count.rune_step (c ++ a :: y) = 1.
Proof.
  intros Hc Ha. destruct (cut_short_view c Hc) as (Hlen & Hlead & Hsz & Hb1 & Hb2).
  pose proof (len4_le (c ++ a :: y)) as H4.
  assert (Hn' : len c + 1 <= len4 (c ++ a :: y)).
  { rewrite len4_min, len_app. pose proof (len_nonneg y). unfold len in *. cbn [List.length]. lia. }
  pose proof (at_app c (a :: y) 0 ltac:(simpl; lia)) as E0.
  assert (E1 : at_ (c ++ a :: y) 1 = if len c =? 1 then u8 a else at_ c 1).
  { destruct (Z.eqb_spec (len c) 1) as [E|E].
    - apply at_app_r. unfold len in E. lia.
    - apply at_app. simpl. lia. }
  assert (E2 : at_ (c ++ a :: y) 2 = if len c =? 1 then at_ (c ++ a :: y) 2
                                     else if len c =? 2 then u8 a else at_ c 2).
  { destruct (Z.eqb_spec (len c) 1) as [E|E]; [reflexivity|].
    destruct (Z.eqb_spec (len c) 2) as [E'|E'].
    - apply at_app_r. unfold len in E'. lia.
    - apply at_app. simpl. lia. }
  assert (E3 : len c = 3 -> at_ (c ++ a :: y) 3 = u8 a).
  { intros E. apply at_app_r. unfold len in E. lia. }
  unfold utf8_count.rune_step, utf8_count.RuneSelf. rewrite E0, E1.
  pose proof (at_range c 0) as H0. pose proof (u8_range a) as Hra.
  generalize dependent (len4 (c ++ a :: y)).
  generalize dependent (at_ (c ++ a :: y) 3). generalize dependent (at_ (c ++ a :: y) 2).
  generalize dependent (len c).
  generalize dependent (at_ c 2). generalize dependent (at_ c 1). generalize dependent (at_ c 0).
  generalize dependent (u8 a). intros.
  repeat match goal with H : context [utf8.first _] |- _ => revert H end.
  cbv zeta.
  match goal with Hr : 0 <= ?b < 256, Hl : 194 <= ?b |- _ =>
    pose proof Hr as H0'; by_row b H0'
  end; unfold utf8.locb, utf8.hicb; intros; try lia.
  all: match goal with Hn : 1 <= ?n <= 3 |- _ =>
         destruct (Z.eqb_spec n 1);
           [subst n|destruct (Z.eqb_spec n 2); [subst n|assert (n = 3) by lia; subst n]]
       end.
  all: try lia.
  all: repeat head_if; try reflexivity; bool_hyps; try lia.
  all: repeat match goal with H : ?x = ?x -> _ |- _ => specialize (H eq_refl) end; lia.
Qed.

Lemma rune_step_decode p : p <> [] -> utf8_count.rune_step p = snd (utf8.DecodeRune p).
Proof.
  intros Hp. apply len4_pos in Hp. unfold utf8_count.rune_step, utf8.DecodeRune, utf8_count.RuneSelf.
  pose proof (at_range p 0) as H0.
  generalize dependent (len4 p). intros n Hn.
  generalize (at_ p 3) (at_ p 2) (at_ p 1). generalize dependent (at_ p 0).
  intros b0 H0 b3 b2 b1.
  destruct (Z.ltb_spec n 1); [lia|]. cbv zeta.
  by_row b0 H0; cbv iota beta; unfold utf8.locb, utf8.hicb.
  all: destruct (Z.ltb_spec b0 128); try lia; try reflexivity.
  all: cbn [Z.eqb Pos.eqb utf8.xx utf8.s1 utf8.s2 utf8.s3 utf8.s4 utf8.s5 utf8.s6 utf8.s7 Z.leb Z.compare Pos.compare Pos.compare_cont];
       try reflexivity.
  all: destruct (n <? _); try reflexivity.
  all: destruct ((b1 <? _) || (_ <? b1)); try reflexivity.
  all: destruct ((b2 <? _) || (_ <? b2)); try reflexivity.
  all: destruct ((b3 <? _) || (_ <? b3)); try reflexivity.
Qed.

(* ================================================================= *)
(** ** Lines and characters of a text record *)

Lemma count_nl_app x y : count_nl (x ++ y) = count_nl x + count_nl y.
Proof. induction x as [|b t IH]; cbn [count_nl app]; lia. Qed.

Lemma ends_nl_app x y : y <> [] -> ends_nl (x ++ y) = ends_nl y.
Proof.
  intros Hy. unfold ends_nl. f_equal. f_equal.
  induction x as [|b t IH]; [reflexivity|].
  cbn [app]. destruct (t ++ y) eqn:E; [|exact IH].
  apply app_eq_nil in E. tauto.
Qed.

(** The bytes a decoding step consumes hold a newline byte exactly when
    the rune decoded is a newline, and then it is their last byte. *)
Lemma decode_consumed p r size :
  p <> [] -> utf8.DecodeRune p = (r, size) ->
  let c := firstn (Z.to_nat size) p in
  len c = size /\ count_nl c = (if r =? 10 then 1 else 0) /\ ends_nl c = (r =? 10).
Proof.
  intros Hp Hd. pose proof (decode_size p r size Hp Hd) as Hs.
  rewrite len4_min in Hs.
  destruct (decode_bytes p r size Hp Hd) as (Hr & H1 & H2 & H3 & H4).
  assert (Hn : size = 1 \/ size = 2 \/ size = 3 \/ size = 4) by lia.
  unfold at_ in *. unfold len in Hs.
  destruct p as [|b0 p]; [congruence|].
  destruct Hn as [->|[->|[->| ->]]].
  - change (Z.to_nat 1) with 1%nat.
    unfold ends_nl, len; cbn [firstn count_nl last nth List.length] in *.
    destruct (Z.eqb_spec r 10), (Z.eqb_spec (u8 b0) 10); repeat split; tauto || lia.
  - change (Z.to_nat 2) with 2%nat.
    destruct p as [|b1 p]; [cbn in Hs; lia|].
    unfold ends_nl, len; cbn [firstn count_nl last nth List.length] in *.
    destruct (Z.eqb_spec r 10), (Z.eqb_spec (u8 b0) 10), (Z.eqb_spec (u8 b1) 10);
      repeat split; tauto || lia.
  - change (Z.to_nat 3) with 3%nat.
    destruct p as [|b1 [|b2 p]]; try (cbn in Hs; lia).
    unfold ends_nl, len; cbn [firstn count_nl last nth List.length] in *.
    destruct (Z.eqb_spec r 10), (Z.eqb_spec (u8 b0) 10), (Z.eqb_spec (u8 b1) 10),
      (Z.eqb_spec (u8 b2) 10); repeat split; tauto || lia.
  - change (Z.to_nat 4) with 4%nat.
    destruct p as [|b1 [|b2 [|b3 p]]]; try (cbn in Hs; lia).
    unfold ends_nl, len; cbn [firstn count_nl last nth List.length] in *.
    destruct (Z.eqb_spec r 10), (Z.eqb_spec (u8 b0) 10), (Z.eqb_spec (u8 b1) 10),
      (Z.eqb_spec (u8 b2) 10), (Z.eqb_spec (u8 b3) 10); repeat split; tauto || lia.
Qed.

(** A sequence cut short holds no newline byte. *)
Lemma cut_short_bytes p :
  analyze.cut_short p = true -> count_nl p = 0 /\ ends_nl p = false.
Proof.
  intros Hc. pose proof (cut_short_len p Hc) as Hlen.
  assert (Hf : utf8.FullRune p = false).
  { unfold analyze.cut_short in Hc. destruct (utf8.DecodeRune p) as [r size].
    apply andb_prop in Hc. destruct Hc as [_ Hc]. destruct (utf8.FullRune p); [discriminate|reflexivity]. }
  clear Hc. revert Hf. unfold utf8.FullRune.
  pose proof (at_range p 0) as H0.
  assert (Hn : len4 p = len p) by (rewrite len4_min; lia). rewrite Hn. clear Hn.
  intros Hc.
  assert (Hb : 0x80 <= at_ p 0 /\ (1 < len p -> 0x80 <= at_ p 1) /\ (2 < len p -> 0x80 <= at_ p 2)).
  { revert Hc. generalize dependent (len p). intros n Hlen.
    generalize (at_ p 1) (at_ p 2). generalize dependent (at_ p 0).
    intros b0 H0 b1 b2.
    destruct (Z.eqb_spec n 0); [lia|].
    cbv zeta.
    by_row b0 H0; cbv iota beta; unfold utf8.locb, utf8.hicb.
    all: repeat match goal with
         | |- context [?a <? ?c] => destruct (Z.ltb_spec a c)
         | |- context [?a >=? ?c] => destruct (Z.geb_spec a c)
         | |- context [?a >? ?c] => destruct (Z.gtb_spec a c)
         end; cbn [orb andb negb]; try discriminate; intros _; repeat split; intros; lia. }
  clear Hc. destruct Hb as (B0 & B1 & B2). unfold at_, len in *.
  destruct p as [|b0 [|b1 [|b2 [|b3 p]]]];
    unfold ends_nl; cbn [count_nl last nth List.length] in *; try lia.
  - destruct (Z.eqb_spec (u8 b0) 10); split; lia || reflexivity || lia.
  - specialize (B1 ltac:(lia)).
    destruct (Z.eqb_spec (u8 b0) 10), (Z.eqb_spec (u8 b1) 10); split; lia || reflexivity.
  - specialize (B1 ltac:(lia)). specialize (B2 ltac:(lia)).
    destruct (Z.eqb_spec (u8 b0) 10), (Z.eqb_spec (u8 b1) 10), (Z.eqb_spec (u8 b2) 10);
      split; lia || reflexivity.
Qed.

Lemma count_rune_fields st r :
  lines (count_rune st r) = lines st + (if r =? 10 then 1 else 0) /\
  lastWasNewline (count_rune st r) = (r =? 10) /\
  chars (count_rune st r) = chars st + 1.
Proof.
  unfold count_rune.
  destruct (r =? 10), (unicode.IsSpace r), (negb (inWord st)); cbn; repeat split; lia.
Qed.

Lemma tracks_step pre st p :
  p <> [] -> tracks pre st ->
  tracks (pre ++ firstn (Z.to_nat (snd (utf8.DecodeRune p))) p)
         (count_rune st (fst (utf8.DecodeRune p))).
Proof.
  intros Hp (Hl & Hn & Hc).
  destruct (utf8.DecodeRune p) as [r size] eqn:Hd. cbn [fst snd].
  pose proof (decode_size p r size Hp Hd) as Hs. pose proof (len4_le p).
  destruct (decode_consumed p r size Hp Hd) as (Hlen & Hnl & He).
  destruct (count_rune_fields st r) as (E1 & E2 & E3).
  unfold tracks. rewrite E1, E2, E3, count_nl_app, len_app, Hlen, Hnl.
  rewrite ends_nl_app by (intros E; rewrite E in Hlen; unfold len in Hlen; cbn in Hlen; lia).
  rewrite He. repeat split; lia.
Qed.

Lemma count_loop_tracks fuel : forall rest pre st st',
  leftover st = [] -> tracks pre st ->
  count_loop fuel rest st = Ret st' ->
  exists pre', pre ++ rest = pre' ++ leftover st' /\ tracks pre' st' /\ carry_ok st'.
Proof.
  assert (Hstash : forall rest pre st, rest <> [] -> cut_short rest = true -> tracks pre st ->
            exists pre', pre ++ rest = pre' ++ leftover (set_leftover st (firstn 4 rest)) /\
              tracks pre' (set_leftover st (firstn 4 rest)) /\
              carry_ok (set_leftover st (firstn 4 rest))).
  { intros rest pre st Hne Hc Ht. exists pre.
    pose proof (cut_short_len _ Hc) as Hlen.
    split; [|split; [exact Ht|apply stash_carry_ok; exact Hc]].
    cbn [leftover set_leftover]. rewrite firstn_all2 by (unfold len in Hlen; lia). reflexivity. }
  induction fuel as [|fuel IH]; intros rest pre st st' Hl Ht Hr.
  - destruct rest as [|b t].
    + injection Hr as <-. exists pre. rewrite Hl, app_nil_r. repeat split; try apply Ht. left; exact Hl.
    + rewrite count_loop_cons in Hr. destruct (cut_short (b :: t)) eqn:Hc; [|discriminate].
      injection Hr as <-. apply Hstash; [discriminate|assumption|assumption].
  - destruct rest as [|b t].
    + injection Hr as <-. exists pre. rewrite Hl, app_nil_r. repeat split; try apply Ht. left; exact Hl.
    + rewrite count_loop_cons in Hr. destruct (cut_short (b :: t)) eqn:Hc.
      * injection Hr as <-. apply Hstash; [discriminate|assumption|assumption].
      * destruct (IH _ (pre ++ firstn (Z.to_nat (snd (utf8.DecodeRune (b :: t)))) (b :: t)) _ _
                    ltac:(rewrite count_rune_leftover; exact Hl)
                    (tracks_step pre st (b :: t) ltac:(discriminate) Ht) Hr)
          as (pre' & E & Ht' & Hc').
        exists pre'. rewrite <- E, <- app_assoc, firstn_skipn. repeat split; try apply Ht'. exact Hc'.
Qed.

Lemma flush_leftover_nil st : leftover st = [] -> flush_leftover st = st.
Proof. intros E. unfold flush_leftover, leftN. rewrite E. reflexivity. Qed.

Lemma flush_leftover_fields st :
  leftover st <> [] ->
  lines (flush_leftover st) = lines st /\ chars (flush_leftover st) = chars st + 1 /\
  lastWasNewline (flush_leftover st) = false.
Proof.
  intros E. unfold flush_leftover, leftN.
  destruct (leftover st) as [|b t]; [congruence|].
  replace (len (b :: t) >? 0) with true by (unfold len; cbn; lia). repeat split.
Qed.

Lemma final_line_fields s :
  lines (final_line s) = lines s + (if (chars s >? 0) && negb (lastWasNewline s) then 1 else 0) /\
  chars (final_line s) = chars s.
Proof.
  unfold final_line. destruct ((chars s >? 0) && negb (lastWasNewline s)); cbn; split; lia.
Qed.

(** The line and character counts that [finish] leaves for a content
    decoded as one chunk. *)
Lemma finish_tracks content st :
  count_loop (List.length content) content Counter0 = Ret st ->
  lines (finish st) = count_nl content + (if unterminated content then 1 else 0) /\
  chars (finish st) <= len content <= 4 * chars (finish st).
Proof.
  intros Hr.
  destruct (count_loop_tracks (List.length content) content [] Counter0 st eq_refl)
    as (pre & E & (Hl & Hn & Hc) & Hk);
    [unfold tracks; cbn; unfold len; cbn; repeat split; lia|exact Hr|].
  cbn [app] in E. subst content. clear Hr.
  unfold finish. destruct (final_line_fields (flush_leftover st)) as [-> ->].
  destruct Hk as [Hk|Hk].
  - rewrite flush_leftover_nil by assumption. rewrite Hk, app_nil_r, Hn, Hl.
    unfold unterminated. destruct pre as [|b t].
    + change (len (@nil byte)) with 0 in *. replace (chars st) with 0 by lia.
      cbn. lia.
    + assert (0 < chars st) by (unfold len in Hc; cbn [List.length] in Hc; lia).
      destruct (Z.gtb_spec (chars st) 0); [|lia]. cbn [andb].
      destruct (ends_nl (b :: t)); cbn [negb]; split; lia.
  - pose proof (cut_short_len _ Hk) as Hlen. destruct (cut_short_bytes _ Hk) as (Hz & He).
    assert (Hne : leftover st <> []) by (intros E; rewrite E in Hk; discriminate).
    destruct (flush_leftover_fields st Hne) as (-> & -> & ->).
    assert (0 <= chars st) by (pose proof (len_nonneg pre); lia).
    destruct (Z.gtb_spec (chars st + 1) 0); [|lia]. cbn [negb andb].
    rewrite count_nl_app, len_app, Hz, Hl.
    unfold unterminated. destruct (pre ++ leftover st) eqn:E.
    + apply app_eq_nil in E. tauto.
    + rewrite <- E, ends_nl_app, He by assumption. cbn [negb]. split; lia.
Qed.

(** The record of a text file counts one line for every newline byte of
    the content read, and one more if the content does not end with a
    newline; and it counts at least one character for every four bytes,
    and at most one for every byte.  This holds whether or not the content
    is valid UTF-8, and however the reads cut it. *)
Theorem text_record_counts pl path info f r
  (Hstat : os_Stat pl path = Ok info) (Hopen : os_Open pl path = Ok f)
  (Hret : AnalyzeFile pl path = Ret r)
  (Hnoerr : HasError r = false) (Htext : Kind r = "text"%string) :
  let content := List.concat (reads f) in
  Lines r = count_nl content + (if unterminated content then 1 else 0) /\
  Chars r <= len content <= 4 * Chars r.
Proof.
  intros content. rewrite (AnalyzeFile_opened _ _ _ _ Hstat Hopen) in Hret. cbv zeta in Hret.
  destruct (sniff_verdict (info_Size info) f) as [[|]| |]; try discriminate.
  - injection Hret as <-. cbn in Htext. discriminate.
  - destruct (count_reads Counter0 (reads f)) as [st| |] eqn:Hr; try discriminate.
    destruct (read_end f); injection Hret as <-; [|cbn in Hnoerr; discriminate].
    cbn [Lines Chars set_counts].
    apply finish_tracks. rewrite <- count_reads_single.
    apply count_reads_chunked_whole. exact Hr.
Qed.

Lemma text_record_counts_witness :
  exists r,
    AnalyzeFile
      (platform_with 6 (chunked_file [Byte.x61; Byte.xe2; Byte.x82; Byte.xac; Byte.x0a; Byte.x62]
                                     [[Byte.x61; Byte.xe2]; [Byte.x82; Byte.xac; Byte.x0a; Byte.x62]]))
      EmptyString = Ret r /\
    Lines r = 1 + 1 /\ Chars r <= 6 <= 4 * Chars r.
Proof.
  eexists. split; [vm_compute; reflexivity|].
  exact (text_record_counts
           (platform_with 6 (chunked_file [Byte.x61; Byte.xe2; Byte.x82; Byte.xac; Byte.x0a; Byte.x62]
                                          [[Byte.x61; Byte.xe2]; [Byte.x82; Byte.xac; Byte.x0a; Byte.x62]]))
           EmptyString _ _ _ eq_refl eq_refl eq_refl eq_refl eq_refl).
Defined.

(* ================================================================= *)
(** ** The counts, rune by rune *)

(** [length p] steps are enough to decode [p]. *)
Lemma runes_of_fuel fuel : forall fuel' p,
  (List.length p <= fuel)%nat -> (List.length p <= fuel')%nat ->
  runes_of fuel p = runes_of fuel' p.
Proof.
  induction fuel as [|fuel IH]; intros fuel' p H1 H2.
  - destruct p; [|cbn in H1; lia]. destruct fuel'; reflexivity.
  - destruct p as [|b t]; [destruct fuel'; reflexivity|].
    destruct fuel' as [|fuel']; [cbn in H2; lia|].
    cbn [runes_of]. destruct (cut_short (b :: t)); [reflexivity|].
    pose proof (decode_advances (b :: t) ltac:(discriminate)) as Hadv.
    f_equal. apply IH; cbn [List.length] in *; lia.
Qed.

(** An ASCII byte is a rune of its own. *)
Lemma decode_ascii_head b t :
  u8 b < 0x80 -> utf8.DecodeRune (b :: t) = (u8 b, 1) /\ cut_short (b :: t) = false.
Proof.
  intros Hb.
  assert (E : utf8.DecodeRune (b :: t) = (u8 b, 1)).
  { unfold utf8.DecodeRune. pose proof (len4_pos (b :: t) ltac:(discriminate)) as Hn.
    cbv zeta. destruct (Z.ltb_spec (len4 (b :: t)) 1); [lia|].
    change (at_ (b :: t) 0) with (u8 b).
    destruct (first_rows (u8 b) (u8_range b)) as [[_ ->]|H']; [reflexivity|].
    exfalso. intuition lia. }
  split; [exact E|]. unfold cut_short. rewrite E.
  replace (u8 b =? utf8.RuneError) with false; [reflexivity|].
  symmetry. apply Z.eqb_neq. unfold utf8.RuneError. lia.
Qed.

(** The runes of an ASCII content are its bytes. *)
Lemma content_runes_ascii p :
  Forall (fun b => u8 b < 0x80) p -> content_runes p = map u8 p.
Proof.
  unfold content_runes. induction 1 as [|b t Hb Ht IH]; [reflexivity|].
  cbn [List.length runes_of map]. destruct (decode_ascii_head b t Hb) as [E ->].
  rewrite E. cbn [fst snd]. change (Z.to_nat 1) with 1%nat. cbn [skipn].
  f_equal. exact IH.
Qed.

Lemma same_counts_refl a : same_counts a a.
Proof. repeat split. Qed.

Lemma flush_is_rune st :
  leftover st <> [] -> same_counts (count_rune st utf8.RuneError) (flush_leftover st).
Proof.
  intros Hne. unfold flush_leftover, leftN, count_rune.
  destruct (leftover st) as [|b t] eqn:E; [congruence|].
  replace (len (b :: t) >? 0) with true by (unfold len; cbn; lia).
  change (utf8.RuneError =? 10) with false. change (unicode.IsSpace utf8.RuneError) with false.
  cbv iota. destruct (inWord st); cbn; repeat split.
Qed.

(** The loop over the whole content, followed by the flush of the carry,
    counts the runes of the content one by one. *)
Lemma count_loop_runes fuel : forall rest st st',
  (List.length rest <= fuel)%nat -> leftover st = [] ->
  count_loop fuel rest st = Ret st' ->
  same_counts (fold_left count_rune (runes_of fuel rest) st) (flush_leftover st').
Proof.
  induction fuel as [|fuel IH]; intros rest st st' Hf Hl Hr.
  - destruct rest; [|cbn in Hf; lia]. cbn in Hr. injection Hr as <-.
    cbn. rewrite flush_leftover_nil by assumption. apply same_counts_refl.
  - destruct rest as [|b t].
    + cbn in Hr. injection Hr as <-. cbn.
      rewrite flush_leftover_nil by assumption. apply same_counts_refl.
    + rewrite count_loop_cons in Hr. cbn [runes_of].
      destruct (cut_short (b :: t)) eqn:Hc.
      * injection Hr as <-. cbn [fold_left].
        pose proof (cut_short_len _ Hc) as Hlen.
        destruct (flush_is_rune (set_leftover st (firstn 4 (b :: t)))) as (E1 & E2 & E3 & E4 & E5).
        { cbn [leftover set_leftover firstn]. discriminate. }
        rewrite count_rune_set_leftover in *. 
        repeat split; assumption.
      * cbn [fold_left].
        pose proof (decode_advances (b :: t) ltac:(discriminate)) as Hadv.
        apply IH; [cbn [List.length] in *; lia| |exact Hr].
        rewrite count_rune_leftover. assumption.
Qed.

(** What counting runes one by one comes to. *)
Lemma fold_count_rune R : forall st,
  let s := fold_left count_rune R st in
  lines s = lines st + count_newlines R /\
  words s = words st + word_starts (negb (inWord st)) R /\
  chars s = chars st + len R /\
  lastWasNewline s = match R with [] => lastWasNewline st | _ :: _ => last R 0 =? 10 end.
Proof.
  induction R as [|r t IH]; intros st; cbv zeta.
  - unfold count_newlines, len. cbn [fold_left word_starts filter List.length]. repeat split; lia || reflexivity.
  - cbn [fold_left word_starts]. specialize (IH (count_rune st r)). cbv zeta in IH.
    destruct IH as (E1 & E2 & E3 & E4). rewrite E1, E2, E3, E4.
    assert (Hlast : match t with [] => lastWasNewline (count_rune st r) | _ :: _ => last t 0 =? 10 end
                    = (last (r :: t) 0 =? 10)).
    { destruct t; [|reflexivity]. cbn [last]. destruct (count_rune_fields st r) as (_ & -> & _).
      reflexivity. }
    rewrite Hlast. unfold count_newlines, len. cbn [filter List.length].
    unfold count_rune.
    destruct (Z.eqb_spec r 10) as [->|Hr].
    + change (10 =? 10) with true. change (unicode.IsSpace 10) with true.
      cbn [lines words chars inWord List.length negb andb]. rewrite andb_false_r.
      repeat split; lia || reflexivity.
    + replace (10 =? r) with false by (symmetry; apply Z.eqb_neq; congruence).
      destruct (unicode.IsSpace r) eqn:Hs;
        destruct (inWord st); cbn [lines words chars inWord List.length negb andb];
        repeat split; lia || reflexivity.
Qed.

Lemma final_line_words s : words (final_line s) = words s.
Proof. unfold final_line. destruct ((chars s >? 0) && negb (lastWasNewline s)); reflexivity. Qed.

(** The counts that [finish] leaves for a content decoded as one chunk. *)
Lemma finish_runes content st :
  count_loop (List.length content) content Counter0 = Ret st ->
  let R := content_runes content in
  lines (finish st) = count_newlines R + (if open_line R then 1 else 0) /\
  words (finish st) = count_words R /\ chars (finish st) = len R.
Proof.
  intros Hr R.
  destruct (count_loop_runes _ content Counter0 st (Nat.le_refl _) eq_refl Hr)
    as (E1 & E2 & E3 & _ & E5).
  fold (content_runes content) in E1, E2, E3, E5. fold R in E1, E2, E3, E5.
  destruct (fold_count_rune R Counter0) as (F1 & F2 & F3 & F4).
  unfold finish. destruct (final_line_fields (flush_leftover st)) as [-> ->].
  rewrite final_line_words, <- E1, <- E2, <- E3, <- E5, F1, F2, F3, F4.
  cbn [Counter0 lines words chars inWord lastWasNewline negb].
  unfold count_words, open_line. split; [|split; reflexivity].
  destruct R as [|r t].
  - reflexivity.
  - assert (Hpos : (0 + len (r :: t) >? 0) = true).
    { apply Z.gtb_lt. unfold len. cbn [List.length]. lia. }
    rewrite Hpos. reflexivity.
Qed.

(** The counts of a text record are those of the runes of the content
    read, decoded from left to right as one piece, a sequence that the end
    of the content cuts short being one replacement rune: [Chars] is the
    number of runes, [Words] the number of runes that are not white space
    and stand first or after white space, [Lines] the number of newline
    runes, and one more if the last rune is not a newline.  The cuts
    between the reads do not matter. *)
Theorem text_record_runes pl path info f r
  (Hstat : os_Stat pl path = Ok info) (Hopen : os_Open pl path = Ok f)
  (Hret : AnalyzeFile pl path = Ret r)
  (Hnoerr : HasError r = false) (Htext : Kind r = "text"%string) :
  let R := content_runes (List.concat (reads f)) in
  Lines r = count_newlines R + (if open_line R then 1 else 0) /\
  Words r = count_words R /\ Chars r = len R.
Proof.
  intros R. rewrite (AnalyzeFile_opened _ _ _ _ Hstat Hopen) in Hret. cbv zeta in Hret.
  destruct (sniff_verdict (info_Size info) f) as [[|]| |]; try discriminate.
  - injection Hret as <-. cbn in Htext. discriminate.
  - destruct (count_reads Counter0 (reads f)) as [st| |] eqn:Hr; try discriminate.
    destruct (read_end f); injection Hret as <-; [|cbn in Hnoerr; discriminate].
    cbn [Lines Words Chars set_counts].
    apply finish_runes. rewrite <- count_reads_single.
    apply count_reads_chunked_whole. exact Hr.
Qed.

Lemma text_record_runes_witness :
  exists r,
    AnalyzeFile (platform_with 8 (chunked_file
        [Byte.x61; Byte.xe2; Byte.x82; Byte.xac; Byte.x0a; Byte.x62; Byte.x20; Byte.xc3]
        [[Byte.x61; Byte.xe2]; [Byte.x82; Byte.xac; Byte.x0a; Byte.x62; Byte.x20; Byte.xc3]]))
      EmptyString = Ret r /\
    Lines r = 1 + 1 /\ Words r = 3 /\ Chars r = 6.
Proof.
  eexists. split; [vm_compute; reflexivity|].
  exact (text_record_runes
           (platform_with 8 (chunked_file
              [Byte.x61; Byte.xe2; Byte.x82; Byte.xac; Byte.x0a; Byte.x62; Byte.x20; Byte.xc3]
              [[Byte.x61; Byte.xe2]; [Byte.x82; Byte.xac; Byte.x0a; Byte.x62; Byte.x20; Byte.xc3]]))
           EmptyString _ _ _ eq_refl eq_refl eq_refl eq_refl eq_refl).
Defined.

Lemma filter_map_comm {A B} (f : B -> bool) (g : A -> B) l :
  filter f (map g l) = map g (filter (fun a => f (g a)) l).
Proof.
  induction l as [|a l IH]; [reflexivity|]. cbn [map filter].
  destruct (f (g a)); cbn [map]; rewrite IH; reflexivity.
Qed.

(** The words counted along [R] are the places where a word starts. *)
Lemma word_starts_positions R : forall b,
  word_starts b R =
  len (filter (fun k => negb (unicode.IsSpace (nth k R 0))
                        && match k with O => b | S j => unicode.IsSpace (nth j R 0) end)
              (seq 0 (List.length R))).
Proof.
  induction R as [|r t IH]; intros b; [reflexivity|].
  cbn [word_starts List.length seq]. rewrite <- seq_shift.
  cbn [filter nth]. rewrite filter_map_comm. rewrite (IH (unicode.IsSpace r)).
  assert (E : filter (fun k => negb (unicode.IsSpace (nth k t 0))
                        && match k with O => unicode.IsSpace r | S j => unicode.IsSpace (nth j t 0) end)
                (seq 0 (List.length t))
            = filter (fun a => negb (unicode.IsSpace (nth (S a) (r :: t) 0))
                        && unicode.IsSpace (nth a (r :: t) 0))
                (seq 0 (List.length t))).
  { apply filter_ext. intros k. cbn [nth]. destruct k; reflexivity. }
  rewrite E. cbn [nth]. unfold len.
  destruct (unicode.IsSpace r), b; cbn [negb andb List.length]; rewrite ?length_map; lia.
Qed.

Lemma count_words_positions R : count_words R = len (word_positions R).
Proof. unfold count_words, word_positions, starts_word. apply word_starts_positions. Qed.

Lemma word_positions_start R k : In k (word_positions R) <-> word_start R k.
Proof.
  unfold word_positions, word_start, starts_word.
  rewrite filter_In, in_seq, andb_true_iff, negb_true_iff.
  rewrite <- (IsSpace_White_Space (nth k R 0)).
  split.
  - intros ([_ Hk] & Hn & Hp). split; [lia|]. split; [congruence|].
    destruct k as [|j]; [left; reflexivity|right]. exists j. split; [reflexivity|].
    apply IsSpace_White_Space. exact Hp.
  - intros (Hk & Hn & Hp). split; [lia|]. split.
    + destruct (unicode.IsSpace (nth k R 0)); [elim Hn; reflexivity|reflexivity].
    + destruct Hp as [->|(j & -> & Hj)]; [reflexivity|].
      apply IsSpace_White_Space. exact Hj.
Qed.

Lemma word_positions_NoDup R : NoDup (word_positions R).
Proof. apply NoDup_filter. apply seq_NoDup. Qed.

(** C8.  The words of a text record are the codepoints decoded from the
    content that are not white space and that are the first codepoint or
    follow white space, white space being the Unicode property
    White_Space: [Words] is the number of the places where a word starts,
    so that a codepoint adds a word exactly at a transition from white
    space, or from the start, to something else, and a codepoint that
    follows a codepoint that is not white space adds none.  This holds
    however the reads cut the content, a codepoint completed from the
    carry included. *)
Theorem C8_word_boundaries pl path info f r
  (Hstat : os_Stat pl path = Ok info) (Hopen : os_Open pl path = Ok f)
  (Hret : AnalyzeFile pl path = Ret r)
  (Hnoerr : HasError r = false) (Htext : Kind r = "text"%string) :
  let R := content_runes (List.concat (reads f)) in
  Words r = len (word_positions R) /\
  NoDup (word_positions R) /\
  (forall k, In k (word_positions R) <-> word_start R k) /\
  (forall k, word_start R (S k) -> ~ word_start R k -> White_Space (nth k R 0)) /\
  (forall k, ~ White_Space (nth k R 0) -> ~ word_start R (S k)).
Proof.
  intros R. split; [|split; [apply word_positions_NoDup|split; [apply word_positions_start|split]]].
  - rewrite <- count_words_positions.
    rewrite (AnalyzeFile_opened _ _ _ _ Hstat Hopen) in Hret. cbv zeta in Hret.
    destruct (sniff_verdict (info_Size info) f) as [[|]| |]; try discriminate.
    + injection Hret as <-. cbn in Htext. discriminate.
    + destruct (count_reads Counter0 (reads f)) as [st| |] eqn:Hr; try discriminate.
      destruct (read_end f); injection Hret as <-; [|cbn in Hnoerr; discriminate].
      cbn [Words set_counts].
      apply (finish_runes (List.concat (reads f)) st).
      rewrite <- count_reads_single. apply count_reads_chunked_whole. exact Hr.
  - intros k (_ & _ & [E|(j & E & Hj)]) _; [discriminate|]. injection E as ->. exact Hj.
  - intros k Hn (_ & _ & [E|(j & E & Hj)]); [discriminate|]. injection E as ->. exact (Hn Hj).
Qed.

(** "a", U+3000, "bc", a no-break space U+00A0 and "d", read in two pieces
    that cut the ideographic space after its first byte: three words,
    which start at the codepoints 0, 2 and 5. *)
Lemma C8_witness :
  exists r,
    AnalyzeFile (platform_with 9 (chunked_file
        [Byte.x61; Byte.xe3; Byte.x80; Byte.x80; Byte.x62; Byte.x63; Byte.xc2; Byte.xa0; Byte.x64]
        [[Byte.x61; Byte.xe3]; [Byte.x80; Byte.x80; Byte.x62; Byte.x63; Byte.xc2; Byte.xa0; Byte.x64]]))
      EmptyString = Ret r /\
    Words r = 3 /\
    forall k, In k [0; 2; 5]%nat <->
      word_start [0x61; 0x3000; 0x62; 0x63; 0xA0; 0x64] k.
Proof.
  eexists. split; [vm_compute; reflexivity|].
  destruct (C8_word_boundaries
           (platform_with 9 (chunked_file
              [Byte.x61; Byte.xe3; Byte.x80; Byte.x80; Byte.x62; Byte.x63; Byte.xc2; Byte.xa0; Byte.x64]
              [[Byte.x61; Byte.xe3]; [Byte.x80; Byte.x80; Byte.x62; Byte.x63; Byte.xc2; Byte.xa0; Byte.x64]]))
           EmptyString _ _ _ eq_refl eq_refl eq_refl eq_refl eq_refl) as (Hw & _ & Hpos & _).
  split; [exact Hw|exact Hpos].
Defined.

(* ================================================================= *)
(** ** Content without invalid sequences *)

(** A scan that does not end on an invalid sequence starts, on bytes that
    are not cut short, with a sequence that decodes. *)
Lemma scans_head p y e :
  p <> [] -> cut_short p = false -> scans (p ++ y) e -> e <> Invalid ->
  (fst (utf8.DecodeRune p), snd (utf8.DecodeRune p)) <> (utf8.RuneError, 1) /\
  scans (skipn (Z.to_nat (snd (utf8.DecodeRune p))) p ++ y) e.
Proof.
  intros Hp Hc Hs He.
  destruct (cut_short_stable p y Hp Hc) as [Hd Hc'].
  assert (Hne : p ++ y <> []) by (destruct p; [congruence|discriminate]).
  pose proof (decode_within p Hp) as Hw.
  inversion Hs as [E|q Hq Hdq Hf E1 E2|q Hq Hdq Hf E1 E2|q r size e' Hq Hdq Hn Hrest E1 E2]; subst.
  - congruence.
  - congruence.
  - exfalso. unfold cut_short in Hc'. rewrite Hdq, Hf in Hc'. discriminate.
  - rewrite Hd in Hdq. rewrite Hdq in *. cbn [fst snd] in *. split; [assumption|].
    rewrite skipn_app in Hrest.
    replace (Z.to_nat size - List.length p)%nat with 0%nat in Hrest by (unfold len in Hw; lia).
    exact Hrest.
Qed.

Lemma count_loop_scans fuel : forall x y st e,
  (List.length x <= fuel)%nat -> leftover st = [] ->
  scans (x ++ y) e -> e <> Invalid ->
  exists st1, count_loop fuel x st = Ret st1 /\ carry_ok st1 /\ scans (leftover st1 ++ y) e.
Proof.
  induction fuel as [|fuel IH]; intros x y st e Hf Hl Hs He.
  - destruct x; [|cbn in Hf; lia]. exists st. rewrite Hl. repeat split; [left|]; assumption.
  - destruct x as [|b t]; [exists st; rewrite Hl; repeat split; [left|]; assumption|].
    rewrite count_loop_cons. destruct (cut_short (b :: t)) eqn:Hc.
    + pose proof (cut_short_len _ Hc) as Hlen.
      eexists. split; [reflexivity|]. split; [apply stash_carry_ok; assumption|].
      cbn [leftover set_leftover]. rewrite firstn_all2 by (unfold len in Hlen; lia). exact Hs.
    + destruct (scans_head (b :: t) y e ltac:(discriminate) Hc Hs He) as [_ Hrest].
      pose proof (decode_advances (b :: t) ltac:(discriminate)) as Hadv.
      apply IH; [cbn [List.length] in *; lia| |assumption|assumption].
      rewrite count_rune_leftover. assumption.
Qed.

(** A chunk is processed without a panic when the bytes still to decode do
    not run into an invalid sequence. *)
Lemma process_chunk_valid st buf y e :
  carry_ok st -> scans (leftover st ++ buf ++ y) e -> e <> Invalid ->
  exists st1, process_chunk st buf = Ret st1 /\ carry_ok st1 /\ scans (leftover st1 ++ y) e.
Proof.
  intros Hk Hs He. destruct buf as [|b0 t0].
  - exists st. split; [reflexivity|]. split; assumption.
  - destruct Hk as [Hl|Hc].
    + rewrite Hl in Hs. cbn [app] in Hs.
      assert (E : process_chunk st (b0 :: t0) = count_loop (List.length (b0 :: t0)) (b0 :: t0) st).
      { unfold process_chunk, leftN. rewrite Hl.
        replace (len (b0 :: t0) >? 0) with true by (unfold len; cbn; lia).
        replace (len (@nil byte) >? 0) with false by reflexivity.
        replace (0 <? len (b0 :: t0)) with true by (unfold len; cbn; lia).
        reflexivity. }
      rewrite E. apply count_loop_scans; [apply Nat.le_refl|assumption..].
    + rewrite process_chunk_carry by (assumption || discriminate).
      rewrite app_assoc in Hs.
      destruct (cut_short (leftover st ++ b0 :: t0)) eqn:Hcs.
      * eexists. split; [reflexivity|]. split; [right; exact Hcs|exact Hs].
      * assert (Hne : leftover st ++ b0 :: t0 <> []) by (destruct (leftover st); discriminate).
        destruct (scans_head _ y e Hne Hcs Hs He) as [Hok Hrest].
        pose proof (decode_within _ Hne) as Hw. rewrite len_app in Hw.
        destruct (utf8.DecodeRune (leftover st ++ b0 :: t0)) as [r size] eqn:Hd.
        cbn [fst snd] in *. cbv zeta.
        destruct (cut_short_continued _ _ _ _ Hc Hd Hcs) as [[-> ->]|Hlt]; [congruence|].
        unfold leftN. destruct (Z.ltb_spec (size - len (leftover st)) 0); [lia|].
        rewrite skipn_app in Hrest.
        rewrite (@skipn_all2 _ (Z.to_nat size) (leftover st)) in Hrest by (unfold len in *; lia).
        cbn [app] in Hrest.
        replace (Z.to_nat size - List.length (leftover st))%nat
          with (Z.to_nat (size - len (leftover st))) in Hrest by (unfold len; lia).
        apply count_loop_scans; [rewrite length_skipn; lia|reflexivity|assumption..].
Qed.

Lemma count_reads_valid chunks : forall st e,
  carry_ok st -> scans (leftover st ++ List.concat chunks) e -> e <> Invalid ->
  exists st1, count_reads st chunks = Ret st1.
Proof.
  induction chunks as [|buf more IH]; intros st e Hk Hs He.
  - eexists; reflexivity.
  - cbn [count_reads]. cbn [List.concat] in Hs.
    destruct (process_chunk_valid st buf (List.concat more) e Hk Hs He) as (st1 & -> & Hk1 & Hs1).
    eapply IH; eassumption.
Qed.

(** Reading never panics on content that holds no invalid sequence. *)
Lemma reads_of_valid_content chunks :
  ~ scans (List.concat chunks) Invalid -> exists st, count_reads Counter0 chunks = Ret st.
Proof.
  intros Hv. destruct (scans_total _ (List.concat chunks) (Nat.le_refl _)) as [e He].
  apply (count_reads_valid chunks Counter0 e); [left; reflexivity|exact He|].
  intros ->. tauto.
Qed.

(** [AnalyzeFile] returns a record, whatever the sizes of the reads, when
    the content read holds no complete sequence that fails to decode: the
    slice panic needs invalid UTF-8.  A sequence that the end of the
    content cuts short does no harm. *)
Theorem valid_content_never_panics pl path
  (Hvalid : forall f, os_Open pl path = Ok f -> ~ scans (List.concat (reads f)) Invalid) :
  exists r, AnalyzeFile pl path = Ret r.
Proof.
  unfold AnalyzeFile.
  destruct (os_Stat pl path) as [info|msg]; [|eexists; reflexivity].
  destruct (os_Open pl path) as [f|msg] eqn:Ho; [|eexists; reflexivity].
  destruct (sniff_verdict_total (SizeBytes (set_kind (set_info (new_stats (filepath_Base pl path) (filepath_Ext pl path)) (util_HumanBytes pl) info) "text")) f) as [b Hb].
  rewrite Hb. destruct b; [eexists; reflexivity|].
  destruct (reads_of_valid_content (reads f) (Hvalid f eq_refl)) as [st ->].
  destruct (read_end f); eexists; reflexivity.
Qed.

(** The scan of a content that the sniff loop accepts. *)
Lemma valid_by_scan w :
  sniff_loop (List.length w) w 0 = Ret false -> ~ scans w Invalid.
Proof.
  intros E Hs. rewrite (sniff_loop_scans w Invalid Hs _ (Nat.le_refl _)) in E. discriminate.
Qed.

Lemma valid_content_never_panics_witness :
  exists r, AnalyzeFile (platform_with 0 (chunked_file [] [[Byte.x61; Byte.xe2]; [Byte.x82]; [Byte.xac; Byte.x0a; Byte.xc3]])) EmptyString = Ret r.
Proof.
  apply valid_content_never_panics.
  intros f E. injection E as <-. apply valid_by_scan. vm_compute. reflexivity.
Defined.

(* ================================================================= *)
(** ** Counting runes *)

Lemma rune_step_bounds p : p <> [] -> 1 <= utf8_count.rune_step p <= len p.
Proof. intros Hp. rewrite rune_step_decode by assumption. apply decode_within. assumption. Qed.

Lemma runes_fuel fuel : forall fuel' p,
  (List.length p <= fuel)%nat -> (List.length p <= fuel')%nat -> runes fuel p = runes fuel' p.
Proof.
  induction fuel as [|fuel IH]; intros fuel' p H1 H2.
  - destruct p; [destruct fuel'; reflexivity|cbn in H1; lia].
  - destruct p as [|b t]; [destruct fuel'; reflexivity|].
    destruct fuel' as [|fuel']; [cbn in H2; lia|].
    cbn [runes]. f_equal.
    pose proof (rune_step_bounds (b :: t) ltac:(discriminate)) as Hs.
    apply IH; rewrite length_skipn; cbn [List.length] in *; lia.
Qed.

Lemma rune_count_nil : rune_count [] = 0.
Proof. reflexivity. Qed.

Lemma rune_count_step p :
  p <> [] -> rune_count p = 1 + rune_count (skipn (Z.to_nat (utf8_count.rune_step p)) p).
Proof.
  intros Hp. unfold rune_count. destruct p as [|b t]; [congruence|].
  cbn [List.length runes]. f_equal.
  pose proof (rune_step_bounds (b :: t) ltac:(discriminate)) as Hs.
  apply runes_fuel; rewrite ?length_skipn; cbn [List.length]; lia.
Qed.

Lemma runes_nonneg fuel : forall p, 0 <= runes fuel p.
Proof.
  induction fuel as [|fuel IH]; intros p; destruct p; cbn [runes]; try lia.
  specialize (IH (skipn (Z.to_nat (utf8_count.rune_step (b :: p))) (b :: p))). lia.
Qed.

Lemma rune_count_nonneg p : 0 <= rune_count p.
Proof. apply runes_nonneg. Qed.

(** The loop returns the count, given fuel for every byte. *)
Lemma rune_loop_runes fuel : forall rest n,
  (List.length rest <= fuel)%nat -> utf8_count.rune_loop fuel rest n = Ret (n + runes fuel rest).
Proof.
  induction fuel as [|fuel IH]; intros rest n Hf.
  - destruct rest; [|cbn in Hf; lia]. cbn. f_equal. lia.
  - destruct rest as [|b t]; [cbn; f_equal; lia|].
    cbn [utf8_count.rune_loop runes].
    pose proof (rune_step_bounds (b :: t) ltac:(discriminate)) as Hs.
    rewrite IH by (rewrite length_skipn; cbn [List.length] in *; lia).
    f_equal. lia.
Qed.

Lemma RuneCountInString_count s : utf8_count.RuneCountInString s = Ret (rune_count s).
Proof.
  unfold utf8_count.RuneCountInString. rewrite rune_loop_runes by apply Nat.le_refl. reflexivity.
Qed.

(** What follows does not change the first rune of [p], if it starts with
    an ASCII byte. *)
Lemma rune_step_app_ascii p a y :
  p <> [] -> u8 a < 0x80 -> utf8_count.rune_step (p ++ a :: y) = utf8_count.rune_step p.
Proof.
  intros Hp Ha. destruct (analyze.cut_short p) eqn:Hc.
  - rewrite cut_short_then_ascii by assumption.
    rewrite rune_step_decode by assumption.
    unfold analyze.cut_short in Hc. destruct (utf8.DecodeRune p) as [r size].
    apply andb_prop in Hc. destruct Hc as [Hc _]. apply andb_prop in Hc. destruct Hc as [_ Hc].
    apply Z.eqb_eq in Hc. subst. reflexivity.
  - rewrite !rune_step_decode by (assumption || (destruct p; [congruence|discriminate])).
    destruct (cut_short_stable p (a :: y) Hp Hc) as [-> _]. reflexivity.
Qed.

Lemma rune_count_app_ascii x a y :
  u8 a < 0x80 -> rune_count (x ++ a :: y) = rune_count x + rune_count (a :: y).
Proof.
  intros Ha. remember (List.length x) as n eqn:Hn. revert x Hn.
  induction n as [n IH] using (well_founded_induction lt_wf). intros x ->.
  destruct x as [|b t]; [cbn [app]; rewrite rune_count_nil; lia|].
  pose proof (rune_step_bounds (b :: t) ltac:(discriminate)) as Hs.
  rewrite (rune_count_step ((b :: t) ++ a :: y)) by discriminate.
  rewrite (rune_count_step (b :: t)) by discriminate.
  rewrite rune_step_app_ascii by (discriminate || assumption).
  rewrite skipn_app.
  replace (Z.to_nat (utf8_count.rune_step (b :: t)) - List.length (b :: t))%nat with 0%nat
    by (unfold len in Hs; lia).
  cbn [skipn].
  rewrite (IH (List.length (skipn (Z.to_nat (utf8_count.rune_step (b :: t))) (b :: t)))); [lia| |reflexivity].
  rewrite length_skipn. cbn [List.length]. lia.
Qed.

Lemma rune_count_glyph g y : glyph g -> rune_count (g ++ y) = 1 + rune_count y.
Proof.
  intros [Hne Hg]. rewrite rune_count_step by (destruct g; [congruence|discriminate]).
  rewrite Hg. f_equal. unfold len. rewrite Nat2Z.id, skipn_app, skipn_all, Nat.sub_diag. reflexivity.
Qed.

Lemma glyph_ascii a : u8 a < 0x80 -> glyph [a].
Proof.
  intros Ha. split; [discriminate|]. intros y. cbn [app].
  unfold utf8_count.rune_step, utf8_count.RuneSelf, at_. cbn [nth].
  destruct (Z.ltb_spec (u8 a) 128); [reflexivity|lia].
Qed.

Lemma glyph_three b0 b1 b2 :
  utf8.first (u8 b0) = utf8.s3 -> 0x80 <= u8 b1 <= 0xBF -> 0x80 <= u8 b2 <= 0xBF ->
  glyph [b0; b1; b2].
Proof.
  intros Hf H1 H2. split; [discriminate|]. intros y. cbn [app].
  unfold utf8_count.rune_step, utf8_count.RuneSelf, at_. cbn [nth]. rewrite Hf.
  assert (Hl : 3 <= len4 (b0 :: b1 :: b2 :: y)) by (rewrite len4_min; unfold len; cbn [List.length]; lia).
  assert (H0 : 0x80 <= u8 b0).
  { pose proof (u8_range b0) as Hr. destruct (first_rows (u8 b0) Hr) as [[? E]|Hd]; [|lia].
    rewrite E in Hf. discriminate. }
  generalize dependent (len4 (b0 :: b1 :: b2 :: y)). intros m Hm.
  cbv zeta. eval_row utf8.s3. unfold utf8.locb, utf8.hicb.
  repeat head_if; bool_hyps; try lia; try reflexivity; try discriminate.
Qed.

(* ================================================================= *)
(** ** Thousands separators *)

Lemma slice_ok s i j :
  0 <= i <= j -> j <= len s ->
  util.slice s i j = Ret (firstn (Z.to_nat (j - i)) (skipn (Z.to_nat i) s)).
Proof.
  intros H1 H2. unfold util.slice.
  destruct (Z.leb_spec 0 i); [|lia]. destruct (Z.leb_spec i j); [|lia].
  destruct (Z.leb_spec j (len s)); [|lia]. reflexivity.
Qed.

Lemma len_skipn {A} k (l : list A) : 0 <= k <= len l -> len (skipn (Z.to_nat k) l) = len l - k.
Proof. unfold len. intros H. rewrite length_skipn. lia. Qed.

Lemma skipn_skipn_Z {A} (l : list A) i k :
  0 <= i -> 0 <= k -> skipn (Z.to_nat k) (skipn (Z.to_nat i) l) = skipn (Z.to_nat (i + k)) l.
Proof.
  intros Hi Hk. rewrite skipn_skipn. f_equal. lia.
Qed.

(** The loop writes a comma before every three of the bytes from [i] on,
    which it finds to be a multiple of three. *)
Lemma comma_loop_grouped fuel : forall s i b,
  0 <= i <= len s -> (len s - i) mod 3 = 0 -> len s - i <= 3 * Z.of_nat fuel ->
  util.comma_loop fuel s i b = Ret (b ++ grouped (skipn (Z.to_nat i) s)).
Proof.
  induction fuel as [|fuel IH]; intros s i b Hi Hm Hf.
  - assert (i = len s) by lia. subst i. cbn [util.comma_loop].
    rewrite Z.ltb_irrefl. rewrite skipn_all2 by (unfold len; lia). cbn. rewrite app_nil_r. reflexivity.
  - cbn [util.comma_loop]. destruct (Z.ltb_spec i (len s)).
    + assert (Hi3 : i + 3 <= len s) by (Z.to_euclidean_division_equations; lia).
      rewrite slice_ok by lia.
      rewrite IH; [|lia| |lia].
      2:{ Z.to_euclidean_division_equations; lia. }
      f_equal. rewrite <- app_assoc. f_equal.
      replace (i + 3 - i) with 3 by lia.
      pose proof (len_skipn i s ltac:(lia)) as Hl.
      rewrite <- (skipn_skipn_Z s i 3) by lia.
      destruct (skipn (Z.to_nat i) s) as [|x [|y [|z t]]]; unfold len in *; cbn [List.length] in Hl; try lia.
      reflexivity.
    + assert (i = len s) by lia. subst i.
      rewrite skipn_all2 by (unfold len; lia). cbn. rewrite app_nil_r. reflexivity.
Qed.

Lemma commaUnsigned_grouped s :
  util.commaUnsigned s =
  Ret (if len s <=? 3 then s
       else firstn (Z.to_nat (head_len s)) s ++ grouped (skipn (Z.to_nat (head_len s)) s)).
Proof.
  unfold util.commaUnsigned. destruct (Z.leb_spec (len s) 3); [reflexivity|].
  cbv zeta.
  assert (Hrem : (if Z.rem (len s) 3 =? 0 then 3 else Z.rem (len s) 3) = head_len s).
  { unfold head_len. rewrite Z.rem_mod_nonneg by lia.
    destruct (Z.eqb_spec (len s mod 3) 0); Z.to_euclidean_division_equations; lia. }
  rewrite Hrem.
  assert (Hh : 1 <= head_len s <= 3) by (unfold head_len; Z.to_euclidean_division_equations; lia).
  rewrite slice_ok by lia. rewrite Z.sub_0_r. change (skipn (Z.to_nat 0) s) with s.
  apply comma_loop_grouped; [lia| |unfold len in *; lia].
  unfold head_len. Z.to_euclidean_division_equations; lia.
Qed.

Lemma strip_grouped l : len l mod 3 = 0 -> strip_commas (grouped l) = strip_commas l.
Proof.
  remember (List.length l) as n eqn:Hn. revert l Hn.
  induction n as [n IH] using (well_founded_induction lt_wf). intros l -> Hm.
  destruct l as [|a [|b [|c t]]]; try reflexivity;
    try (unfold len in Hm; cbn in Hm; discriminate).
  cbn [grouped]. unfold strip_commas in *. cbn [filter].
  change (is_comma ","%byte) with true. cbn [negb].
  rewrite (IH (List.length t)); [reflexivity|cbn; lia|reflexivity|].
  unfold len in *. cbn [List.length] in Hm. Z.to_euclidean_division_equations; lia.
Qed.

Lemma len_grouped l : len l mod 3 = 0 -> 3 * len (grouped l) = 4 * len l.
Proof.
  remember (List.length l) as n eqn:Hn. revert l Hn.
  induction n as [n IH] using (well_founded_induction lt_wf). intros l -> Hm.
  destruct l as [|a [|b [|c t]]]; try reflexivity;
    try (unfold len in Hm; cbn in Hm; discriminate).
  cbn [grouped]. 
  assert (Ht : len t mod 3 = 0).
  { unfold len in *. cbn [List.length] in Hm. Z.to_euclidean_division_equations; lia. }
  specialize (IH (List.length t) ltac:(cbn; lia) t eq_refl Ht).
  unfold len in *. cbn [List.length]. lia.
Qed.

(** In the grouped bytes the commas stand at every fourth place. *)
Lemma nth_grouped l : (forall b, In b l -> is_comma b = false) -> len l mod 3 = 0 ->
  forall k, (k < List.length (grouped l))%nat ->
  (is_comma (nth k (grouped l) Byte.x00) = true <-> (Z.of_nat k) mod 4 = 0).
Proof.
  remember (List.length l) as n eqn:Hn. revert l Hn.
  induction n as [n IH] using (well_founded_induction lt_wf). intros l -> Hc Hm k Hk.
  destruct l as [|a [|b [|c t]]]; try (cbn in Hk; lia);
    try (unfold len in Hm; cbn in Hm; discriminate).
  assert (Ht : len t mod 3 = 0).
  { unfold len in *. cbn [List.length] in Hm. Z.to_euclidean_division_equations; lia. }
  cbn [grouped] in *.
  destruct k as [|[|[|[|k]]]]; cbn [nth].
  - split; reflexivity.
  - rewrite (Hc a) by (cbn; tauto). split; [discriminate|intros H; vm_compute in H; discriminate].
  - rewrite (Hc b) by (cbn; tauto). split; [discriminate|intros H; vm_compute in H; discriminate].
  - rewrite (Hc c) by (cbn; tauto). split; [discriminate|intros H; vm_compute in H; discriminate].
  - rewrite (IH (List.length t) ltac:(cbn; lia) t eq_refl); [| |exact Ht|cbn [List.length] in Hk; lia].
    + Z.to_euclidean_division_equations; lia.
    + intros x Hx. apply Hc. cbn. tauto.
Qed.

Lemma u8_digit d : 0 <= d <= 9 -> u8 (fmt.digit d) = 48 + d.
Proof.
  intros H.
  assert (E : d = 0 \/ d = 1 \/ d = 2 \/ d = 3 \/ d = 4 \/ d = 5 \/ d = 6 \/ d = 7 \/ d = 8 \/ d = 9) by lia.
  repeat (destruct E as [->|E]; [reflexivity|]). subst d. reflexivity.
Qed.

Lemma value_of_snoc s b : value_of (s ++ [b]) = 10 * value_of s + (u8 b - 48).
Proof. unfold value_of. rewrite fold_left_app. reflexivity. Qed.

(** The loop returns the decimal digits of [u], most significant first,
    before what the buffer held. *)
Lemma digits_spec fuel : forall u buf,
  0 <= u < 10 ^ (Z.of_nat fuel + 1) ->
  exists ds, fmt.digits fuel u buf = Ret (ds ++ buf) /\ ds <> [] /\
             value_of ds = u /\ Forall (fun b => is_digit b = true) ds.
Proof.
  induction fuel as [|fuel IH]; intros u buf Hu.
  - cbn [fmt.digits]. change (10 ^ (Z.of_nat 0 + 1)) with 10 in Hu.
    destruct (Z.geb_spec u 10); [lia|]. exists [fmt.digit u].
    split; [reflexivity|]. split; [discriminate|].
    unfold value_of, is_digit. cbn [fold_left]. rewrite u8_digit by lia.
    split; [lia|]. constructor; [|constructor]. rewrite u8_digit by lia.
    apply andb_true_intro. split; apply Z.leb_le; lia.
  - cbn [fmt.digits]. destruct (Z.geb_spec u 10).
    + cbv zeta.
      assert (Hp : 10 ^ (Z.of_nat (S fuel) + 1) = 10 * 10 ^ (Z.of_nat fuel + 1)).
      { replace (Z.of_nat (S fuel) + 1) with (Z.succ (Z.of_nat fuel + 1)) by lia.
        apply Z.pow_succ_r. lia. }
      destruct (IH (u / 10) (fmt.digit (u - u / 10 * 10) :: buf)) as (ds & E & Hne & Hv & Hd).
      { split; [apply Z.div_pos; lia|]. apply Z.div_lt_upper_bound; lia. }
      exists (ds ++ [fmt.digit (u - u / 10 * 10)]).
      assert (Hr : 0 <= u - u / 10 * 10 <= 9) by (Z.to_euclidean_division_equations; lia).
      rewrite <- app_assoc. split; [exact E|]. split; [destruct ds; discriminate|].
      rewrite value_of_snoc, Hv, u8_digit by lia. split; [lia|].
      apply Forall_app. split; [assumption|]. constructor; [|constructor].
      unfold is_digit. rewrite u8_digit by lia.
      apply andb_true_intro. split; apply Z.leb_le; lia.
    + exists [fmt.digit u]. split; [reflexivity|]. split; [discriminate|].
      unfold value_of, is_digit. cbn [fold_left]. rewrite u8_digit by lia.
      split; [lia|]. constructor; [|constructor]. rewrite u8_digit by lia.
      apply andb_true_intro. split; apply Z.leb_le; lia.
Qed.

Lemma strip_commas_free s :
  (forall b, In b s -> is_comma b = false) -> strip_commas s = s.
Proof.
  induction s as [|a t IH]; intros H; [reflexivity|].
  unfold strip_commas in *. cbn [filter]. rewrite (H a) by (cbn; tauto). cbn [negb].
  f_equal. apply IH. intros b Hb. apply H. cbn. tauto.
Qed.

Lemma strip_commas_app x y : strip_commas (x ++ y) = strip_commas x ++ strip_commas y.
Proof. unfold strip_commas. apply filter_app. Qed.

Lemma commaUnsigned_facts s :
  (forall b, In b s -> is_comma b = false) ->
  exists out, util.commaUnsigned s = Ret out /\ strip_commas out = s /\
    len out = len s + Z.quot (len s - 1) 3 /\
    forall k, 0 <= k < len out ->
      (is_comma (nth (Z.to_nat k) out Byte.x00) = true <-> (len out - k) mod 4 = 0).
Proof.
  intros Hs. rewrite commaUnsigned_grouped. eexists. split; [reflexivity|].
  destruct (Z.leb_spec (len s) 3) as [Hle|Hgt].
  - split; [apply strip_commas_free; assumption|].
    pose proof (len_nonneg s). split.
    + assert (E : len s = 0 \/ len s = 1 \/ len s = 2 \/ len s = 3) by lia.
      destruct E as [E|[E|[E|E]]]; rewrite E; reflexivity.
    + intros k Hk. rewrite Hs by (apply nth_In; unfold len in *; lia).
      split; [discriminate|]. Z.to_euclidean_division_equations; lia.
  - set (h := head_len s).
    assert (Hh : 1 <= h <= 3) by (unfold h, head_len; Z.to_euclidean_division_equations; lia).
    assert (Hm : len (skipn (Z.to_nat h) s) mod 3 = 0).
    { rewrite len_skipn by lia. unfold h, head_len. Z.to_euclidean_division_equations; lia. }
    assert (Hfree : forall b, In b (skipn (Z.to_nat h) s) -> is_comma b = false).
    { intros b Hb. apply Hs. rewrite <- (firstn_skipn (Z.to_nat h) s). apply in_or_app. tauto. }
    assert (Hfree1 : forall b, In b (firstn (Z.to_nat h) s) -> is_comma b = false).
    { intros b Hb. apply Hs. rewrite <- (firstn_skipn (Z.to_nat h) s). apply in_or_app. tauto. }
    assert (Hlh : len (firstn (Z.to_nat h) s) = h).
    { unfold len in *. rewrite length_firstn. lia. }
    pose proof (len_grouped _ Hm) as Hg. rewrite len_skipn in Hg by lia.
    split; [|split].
    + rewrite strip_commas_app, strip_grouped by assumption.
      rewrite <- strip_commas_app, firstn_skipn. apply strip_commas_free; assumption.
    + rewrite len_app, Hlh. unfold h, head_len in *.
      Z.to_euclidean_division_equations; lia.
    + rewrite len_app, Hlh. intros k Hk.
      destruct (Z.lt_ge_cases k h) as [Hkh|Hkh].
      * rewrite app_nth1 by (unfold len in Hlh; lia).
        rewrite Hfree1 by (apply nth_In; unfold len in Hlh; lia).
        split; [discriminate|]. Z.to_euclidean_division_equations; lia.
      * rewrite app_nth2 by (unfold len in Hlh; lia).
        rewrite nth_grouped; [|assumption|assumption|unfold len in *; lia].
        unfold len in Hlh. 
        replace (Z.of_nat (Z.to_nat k - List.length (firstn (Z.to_nat h) s))) with (k - h) by lia.
        Z.to_euclidean_division_equations; lia.
Qed.



Lemma digit_not_comma b : is_digit b = true -> is_comma b = false /\ Byte.eqb b "-"%byte = false.
Proof.
  unfold is_digit, is_comma. intros H. apply andb_prop in H. destruct H as [H1 H2].
  apply Z.leb_le in H1, H2.
  split.
  - destruct (Byte.eqb b ","%byte) eqn:E; [|reflexivity].
    apply Byte.byte_dec_bl in E. subst b. vm_compute in H1. exfalso. apply H1. reflexivity.
  - destruct (Byte.eqb b "-"%byte) eqn:E; [|reflexivity].
    apply Byte.byte_dec_bl in E. subst b. vm_compute in H1. exfalso. apply H1. reflexivity.
Qed.

Lemma Sprintf_d_spec n :
  - 2 ^ 63 <= n < 2 ^ 63 ->
  exists ds, fmt.Sprintf_d n = Ret ((if n <? 0 then ["-"%byte] else []) ++ ds) /\
    ds <> [] /\ value_of ds = Z.abs n /\ Forall (fun b => is_digit b = true) ds.
Proof.
  intros Hn. unfold fmt.Sprintf_d. destruct (Z.ltb_spec n 0).
  - destruct (digits_spec 19 (- n) []) as (ds & E & Hne & Hv & Hd).
    { change (10 ^ (Z.of_nat 19 + 1)) with 100000000000000000000. lia. }
    rewrite E, app_nil_r. exists ds. repeat split; try assumption. lia.
  - destruct (digits_spec 19 n []) as (ds & E & Hne & Hv & Hd).
    { change (10 ^ (Z.of_nat 19 + 1)) with 100000000000000000000. lia. }
    rewrite E, app_nil_r. exists ds. repeat split; try assumption. lia.
Qed.

(** [CommaInt] of a 64-bit integer is a minus sign if it is negative, then
    a body of digits and commas that reads back as the magnitude once the
    commas are removed, with a comma at every fourth place from the end
    of the body and nowhere else. *)
Theorem CommaInt_reads_back n (Hn : - 2 ^ 63 <= n < 2 ^ 63) :
  exists body,
    util.CommaInt n = Ret ((if n <? 0 then ["-"%byte] else []) ++ body) /\
    read_int (strip_commas ((if n <? 0 then ["-"%byte] else []) ++ body)) = n /\
    Forall (fun b => is_digit b = true) (strip_commas body) /\
    forall k, 0 <= k < len body ->
      (is_comma (nth (Z.to_nat k) body Byte.x00) = true <-> (len body - k) mod 4 = 0).
Proof.
  destruct (Sprintf_d_spec n Hn) as (ds & E & Hne & Hv & Hd).
  assert (Hfree : forall b, In b ds -> is_comma b = false).
  { intros b Hb. rewrite Forall_forall in Hd. apply digit_not_comma. apply Hd. assumption. }
  destruct (commaUnsigned_facts ds Hfree) as (body & Eb & Hstrip & _ & Hpos).
  exists body. unfold util.CommaInt. rewrite E.
  assert (Hhead : util.HasPrefix_minus ds = false).
  { destruct ds as [|d t]; [reflexivity|]. cbn. apply digit_not_comma.
    rewrite Forall_forall in Hd. apply Hd. cbn. tauto. }
  rewrite Hstrip. split; [|split; [|split; [assumption|assumption]]].
  - unfold util.commaSigned. destruct (n <? 0).
    + cbn [app util.HasPrefix_minus]. change (Byte.eqb "-" "-") with true. cbv iota.
      rewrite slice_ok by (unfold len; cbn [List.length]; lia).
      change (Z.to_nat 1) with 1%nat. cbn [skipn].
      rewrite firstn_all2 by (unfold len; cbn [List.length]; lia).
      rewrite Eb. reflexivity.
    + cbn [app]. rewrite Hhead. exact Eb.
  - rewrite strip_commas_app, Hstrip. destruct (Z.ltb_spec n 0).
    + change (strip_commas ["-"%byte]) with ["-"%byte]. cbn [app]. unfold read_int.
      change (Byte.eqb "-" "-") with true. cbv iota. rewrite Hv. lia.
    + cbn [strip_commas filter app]. unfold read_int.
      destruct ds as [|d t]; [congruence|]. cbn in Hhead. rewrite Hhead, Hv. lia.
Qed.

Lemma CommaInt_reads_back_witness :
  exists body,
    util.CommaInt (-9876543) = Ret ((if -9876543 <? 0 then ["-"%byte] else []) ++ body) /\
    read_int (strip_commas ((if -9876543 <? 0 then ["-"%byte] else []) ++ body)) = -9876543 /\
    Forall (fun b => is_digit b = true) (strip_commas body) /\
    forall k, 0 <= k < len body ->
      (is_comma (nth (Z.to_nat k) body Byte.x00) = true <-> (len body - k) mod 4 = 0).
Proof. apply CommaInt_reads_back. lia. Defined.

Example CommaInt_examples :
  util.CommaInt 1234 = Ret ["1"; ","; "2"; "3"; "4"]%byte /\
  util.CommaInt (-9876543) = Ret ["-"; "9"; ","; "8"; "7"; "6"; ","; "5"; "4"; "3"]%byte /\
  util.CommaInt 0 = Ret ["0"]%byte /\
  util.CommaInt 999 = Ret ["9"; "9"; "9"]%byte /\
  util.CommaInt (-1000) = Ret ["-"; "1"; ","; "0"; "0"; "0"]%byte.
Proof. repeat split. Qed.

Lemma commaUnsigned_strip s :
  exists out, util.commaUnsigned s = Ret out /\ strip_commas out = strip_commas s.
Proof.
  rewrite commaUnsigned_grouped. eexists. split; [reflexivity|].
  destruct (Z.leb_spec (len s) 3); [reflexivity|].
  assert (Hh : 1 <= head_len s <= 3) by (unfold head_len; Z.to_euclidean_division_equations; lia).
  rewrite strip_commas_app, strip_grouped.
  - rewrite <- strip_commas_app, firstn_skipn. reflexivity.
  - rewrite len_skipn by lia. unfold head_len. Z.to_euclidean_division_equations; lia.
Qed.

Lemma commaSigned_strip s :
  exists out, util.commaSigned s = Ret out /\ strip_commas out = strip_commas s.
Proof.
  unfold util.commaSigned. destruct s as [|b t]; [exists []; split; reflexivity|].
  cbn [util.HasPrefix_minus]. destruct (Byte.eqb b "-"%byte) eqn:E.
  - rewrite slice_ok by (unfold len; cbn [List.length]; lia).
    change (Z.to_nat 1) with 1%nat. cbn [skipn].
    rewrite firstn_all2 by (unfold len; cbn [List.length]; lia).
    destruct (commaUnsigned_strip t) as (out & -> & Hs).
    exists ("-"%byte :: out). split; [reflexivity|].
    apply Byte.byte_dec_bl in E. subst b. unfold strip_commas in *. cbn [filter].
    change (is_comma "-"%byte) with false. cbn [negb]. f_equal. exact Hs.
  - apply commaUnsigned_strip.
Qed.

(** [commaSigned] never slices out of range, whatever the string, and
    keeps every byte that is not a comma, in order. *)
Theorem commaSigned_keeps_bytes s :
  exists out, util.commaSigned s = Ret out /\ strip_commas out = strip_commas s.
Proof. apply commaSigned_strip. Qed.

(* ================================================================= *)
(** ** Human-readable sizes *)

(** The unit chosen for [bytes]: the loop stops at the largest power of
    1024 that does not exceed [bytes], or at the last unit. *)
Lemma scale_loop_spec bytes :
  1024 <= bytes < 2 ^ 63 ->
  exists exp, util.scale_loop 5 bytes util.unit 0 = Ret (1024 ^ (exp + 1), exp) /\
    0 <= exp <= 5 /\ 1024 ^ (exp + 1) <= bytes /\ (exp < 5 -> bytes < 1024 ^ (exp + 2)).
Proof.
  intros Hb. unfold util.unit.
  change (2 ^ 63) with 9223372036854775808 in Hb.
  cbn [util.scale_loop]. unfold util.unit.
  change (len util.units - 1) with 5.
  change (0 <? 5) with true. cbn [andb].
  change (util.wrap64 (1024 * 1024)) with 1048576.
  destruct (Z.geb_spec bytes 1048576); [|exists 0; repeat split; try lia].
  change (0 + 1 <? 5) with true. cbn [andb].
  change (util.wrap64 (1048576 * 1024)) with 1073741824.
  destruct (Z.geb_spec bytes 1073741824); [|exists 1; repeat split; try lia].
  change (0 + 1 + 1 <? 5) with true. cbn [andb].
  change (util.wrap64 (1073741824 * 1024)) with 1099511627776.
  destruct (Z.geb_spec bytes 1099511627776); [|exists 2; repeat split; try lia].
  change (0 + 1 + 1 + 1 <? 5) with true. cbn [andb].
  change (util.wrap64 (1099511627776 * 1024)) with 1125899906842624.
  destruct (Z.geb_spec bytes 1125899906842624); [|exists 3; repeat split; try lia].
  change (0 + 1 + 1 + 1 + 1 <? 5) with true. cbn [andb].
  change (util.wrap64 (1125899906842624 * 1024)) with 1152921504606846976.
  destruct (Z.geb_spec bytes 1152921504606846976); [|exists 4; repeat split; try lia].
  change (0 + 1 + 1 + 1 + 1 + 1 <? 5) with false. cbn [andb].
  exists 5; repeat split; try lia.
Qed.

(** [HumanBytes] prints a size below 1024 in bytes; from 1024 on it picks
    the largest unit of [units] that does not exceed the size (the last
    one for sizes of 1024 EiB and more, which an [int64] does not reach),
    without ever indexing [units] out of range or overflowing [div]. *)
Theorem HumanBytes_unit f0 f2 bytes (Hb : - 2 ^ 63 <= bytes < 2 ^ 63) :
  (bytes < 1024 ->
   exists s, fmt.Sprintf_d bytes = Ret s /\
             util.HumanBytes f0 f2 bytes = Ret (s ++ [" "; "B"]%byte)) /\
  (1024 <= bytes ->
   exists exp u, 0 <= exp <= 5 /\ util.units_at exp = Ret u /\
     1024 ^ (exp + 1) <= bytes /\ (exp < 5 -> bytes < 1024 ^ (exp + 2)) /\
     util.HumanBytes f0 f2 bytes =
       Ret ((if Z.rem bytes (1024 ^ (exp + 1)) =? 0
             then f0 bytes (1024 ^ (exp + 1)) else f2 bytes (1024 ^ (exp + 1)))
            ++ [" "%byte] ++ u)).
Proof.
  unfold util.HumanBytes, util.unit. split; intros H.
  - destruct (Z.ltb_spec bytes 1024); [|lia].
    destruct (Sprintf_d_spec bytes Hb) as (ds & E & _). rewrite E.
    eexists. split; reflexivity.
  - destruct (Z.ltb_spec bytes 1024); [lia|].
    destruct (scale_loop_spec bytes ltac:(lia)) as (exp & E & He & Hlo & Hhi).
    unfold util.unit in E. rewrite E.
    assert (Hu : exists u, util.units_at exp = Ret u).
    { unfold util.units_at. change (len util.units) with 6.
      destruct (Z.leb_spec 0 exp); [|lia]. destruct (Z.ltb_spec exp 6); [|lia].
      eexists; reflexivity. }
    destruct Hu as [u Hu]. rewrite Hu. exists exp, u.
    repeat (split; [assumption || lia|]).
    destruct (Z.rem bytes (1024 ^ (exp + 1)) =? 0); reflexivity.
Qed.

Lemma HumanBytes_unit_witness :
  exists exp u, 0 <= exp <= 5 /\ util.units_at exp = Ret u /\
    1024 ^ (exp + 1) <= 1536 /\ (exp < 5 -> 1536 < 1024 ^ (exp + 2)) /\
    util.HumanBytes (fun _ _ => []) (fun _ _ => ["1"; "."; "5"; "0"]%byte) 1536 =
      Ret ((if Z.rem 1536 (1024 ^ (exp + 1)) =? 0 then []
            else ["1"; "."; "5"; "0"]%byte) ++ [" "%byte] ++ u).
Proof.
  apply (HumanBytes_unit (fun _ _ => []) (fun _ _ => ["1"; "."; "5"; "0"]%byte) 1536); lia.
Defined.

Lemma HumanBytes_returns f0 f2 bytes :
  - 2 ^ 63 <= bytes < 2 ^ 63 -> exists s, util.HumanBytes f0 f2 bytes = Ret s.
Proof.
  intros Hb. unfold util.HumanBytes, util.unit.
  destruct (Z.ltb_spec bytes 1024).
  - destruct (Sprintf_d_spec bytes Hb) as (ds & E & _). rewrite E. eexists; reflexivity.
  - destruct (scale_loop_spec bytes ltac:(lia)) as (exp & E & He & _).
    unfold util.unit in E. rewrite E.
    unfold util.units_at. change (len util.units) with 6.
    destruct (Z.leb_spec 0 exp); [|lia]. destruct (Z.ltb_spec exp 6); [|lia].
    cbn [andb]. destruct (Z.rem bytes (1024 ^ (exp + 1)) =? 0); eexists; reflexivity.
Qed.

Lemma CommaInt_returns n :
  - 2 ^ 63 <= n < 2 ^ 63 -> exists s, util.CommaInt n = Ret s.
Proof.
  intros Hn. unfold util.CommaInt.
  destruct (Sprintf_d_spec n Hn) as (ds & -> & _).
  destruct (commaSigned_strip ((if n <? 0 then ["-"%byte] else []) ++ ds)) as (out & -> & _).
  eexists; reflexivity.
Qed.

Lemma wrap64_range z : - 2 ^ 63 <= util.wrap64 z < 2 ^ 63.
Proof. unfold util.wrap64. Z.to_euclidean_division_equations; lia. Qed.

Lemma wrap64_id z : - 2 ^ 63 <= z < 2 ^ 63 -> util.wrap64 z = z.
Proof. unfold util.wrap64. intros H. Z.to_euclidean_division_equations; lia. Qed.

Lemma wrap64_add z y : util.wrap64 (util.wrap64 z + y) = util.wrap64 (z + y).
Proof.
  unfold util.wrap64. f_equal.
  replace ((z + 2 ^ 63) mod 2 ^ 64 - 2 ^ 63 + y + 2 ^ 63) with ((z + 2 ^ 63) mod 2 ^ 64 + y) by lia.
  rewrite Zplus_mod_idemp_l. f_equal. lia.
Qed.

(* ================================================================= *)
(** ** The order of the report *)

Lemma string_compare_refl s : String.compare s s = Eq.
Proof.
  induction s as [|c s IH]; [reflexivity|]. cbn [String.compare].
  unfold Ascii.compare. rewrite N.compare_refl. exact IH.
Qed.

Lemma string_compare_trans c : forall x y z,
  String.compare x y = c -> String.compare y z = c -> String.compare x z = c.
Proof.
  intros x. induction x as [|a x IH]; intros y z H1 H2.
  - destruct y, z; cbn in *; congruence.
  - destruct y as [|b y]; [destruct z; cbn in *; congruence|].
    destruct z as [|d z]; [cbn in *; congruence|].
    cbn [String.compare] in *. unfold Ascii.compare in *.
    destruct (N.compare_spec (Ascii.N_of_ascii a) (Ascii.N_of_ascii b)) as [E1|E1|E1];
    destruct (N.compare_spec (Ascii.N_of_ascii b) (Ascii.N_of_ascii d)) as [E2|E2|E2];
    try congruence.
    + rewrite E1, E2, N.compare_refl. eapply IH; eassumption.
    + rewrite E1. rewrite (proj2 (N.compare_lt_iff _ _) E2). assumption.
    + rewrite E1. rewrite (proj2 (N.compare_gt_iff _ _) E2). assumption.
    + rewrite <- E2. rewrite (proj2 (N.compare_lt_iff _ _) E1). assumption.
    + rewrite (proj2 (N.compare_lt_iff _ _) (N.lt_trans _ _ _ E1 E2)). assumption.
    + rewrite <- E2. rewrite (proj2 (N.compare_gt_iff _ _) E1). assumption.
    + rewrite (proj2 (N.compare_gt_iff _ _) (N.lt_trans _ _ _ E2 E1)). assumption.
Qed.

Lemma string_compare_eq x y : String.compare x y = Eq <-> x = y.
Proof.
  split; [apply String.compare_eq_iff|intros ->; apply string_compare_refl].
Qed.

Lemma ltb_irrefl s : String.ltb s s = false.
Proof. unfold String.ltb. rewrite string_compare_refl. reflexivity. Qed.

Lemma ltb_trans x y z : String.ltb x y = true -> String.ltb y z = true -> String.ltb x z = true.
Proof.
  unfold String.ltb. intros H1 H2.
  destruct (String.compare x y) eqn:E1; try discriminate.
  destruct (String.compare y z) eqn:E2; try discriminate.
  rewrite (string_compare_trans Lt _ _ _ E1 E2). reflexivity.
Qed.

Lemma ltb_negtrans x y z : String.ltb x y = false -> String.ltb y z = false -> String.ltb x z = false.
Proof.
  unfold String.ltb. intros H1 H2.
  destruct (String.compare x y) eqn:E1; try discriminate;
  destruct (String.compare y z) eqn:E2; try discriminate.
  - apply string_compare_eq in E1, E2. subst. rewrite string_compare_refl. reflexivity.
  - apply string_compare_eq in E1. subst. rewrite E2. reflexivity.
  - apply string_compare_eq in E2. subst. rewrite E1. reflexivity.
  - rewrite (string_compare_trans Gt _ _ _ E1 E2). reflexivity.
Qed.

Section SortLemmas.

Variable ToLower : string -> string.

(** The comparison is by group first, then by the key, reversed when
    [desc] is set. *)
Lemma sortStats_less_group sortBy desc a b :
  run.sortStats_less ToLower sortBy desc a b =
  if group a <? group b then true
  else if group b <? group a then false
  else xorb desc (run.less_key ToLower (ToLower sortBy) a b).
Proof.
  unfold run.sortStats_less, group. cbv zeta.
  destruct (analyze.HasError a), (analyze.HasError b); cbn [andb negb];
  destruct (String.eqb_spec (analyze.Kind a) (analyze.Kind b)) as [E|E]; cbn [andb negb];
  try rewrite E;
  destruct (String.eqb_spec (analyze.Kind b) "binary") as [Eb|Eb];
  try (destruct (String.eqb_spec (analyze.Kind a) "binary") as [Ea|Ea]);
  try congruence;
  cbn [Z.add Z.ltb Z.compare Pos.compare Pos.compare_cont Pos.add Pos.succ];
  destruct desc, (run.less_key ToLower (ToLower sortBy) a b); reflexivity.
Qed.

Ltac key_cases sortBy :=
  unfold run.less_key;
  destruct (sortBy =? "name")%string; [|
  destruct (sortBy =? "ext")%string; [|
  destruct (sortBy =? "size")%string; [|
  destruct (sortBy =? "lines")%string; [|
  destruct (sortBy =? "words")%string; [|
  destruct (sortBy =? "chars")%string; [|
  destruct (sortBy =? "modified")%string]]]]]].

Ltac z_tests :=
  repeat match goal with
  | |- context [?x <? ?y] => destruct (Z.ltb_spec x y)
  | |- context [?x =? ?y] => destruct (Z.eqb_spec x y)
  end; cbn [negb orb].

Lemma less_key_trans sortBy a b c :
  run.less_key ToLower sortBy a b = true -> run.less_key ToLower sortBy b c = true ->
  run.less_key ToLower sortBy a c = true.
Proof.
  key_cases sortBy; try apply ltb_trans; try (z_tests; (discriminate || lia || reflexivity)).
  z_tests; try discriminate; try lia; try reflexivity; try apply ltb_trans.
Qed.

Lemma less_key_negtrans sortBy a b c :
  run.less_key ToLower sortBy a b = false -> run.less_key ToLower sortBy b c = false ->
  run.less_key ToLower sortBy a c = false.
Proof.
  key_cases sortBy; try apply ltb_negtrans; try (z_tests; (discriminate || lia || reflexivity)).
  z_tests; try discriminate; try lia; try reflexivity; try apply ltb_negtrans.
Qed.

Lemma less_key_irrefl sortBy a : run.less_key ToLower sortBy a a = false.
Proof.
  key_cases sortBy; try apply ltb_irrefl; try apply Z.ltb_irrefl.
  destruct (negb (analyze.ModUnix a =? 0) || negb (analyze.ModUnix a =? 0));
    [apply Z.ltb_irrefl|apply ltb_irrefl].
Qed.

End SortLemmas.

(** The comparison that [sortStats] hands to [sort.Slice] is, for every
    key and both directions, a transitive ordering in the sense that
    [sort.Interface] asks for; ascending it holds of no record against
    itself, descending it holds of every record against itself. *)
Theorem sortStats_less_ordering ToLower sortBy desc a b c :
  (run.sortStats_less ToLower sortBy desc a b = true ->
   run.sortStats_less ToLower sortBy desc b c = true ->
   run.sortStats_less ToLower sortBy desc a c = true) /\
  (run.sortStats_less ToLower sortBy desc a b = false ->
   run.sortStats_less ToLower sortBy desc b c = false ->
   run.sortStats_less ToLower sortBy desc a c = false) /\
  run.sortStats_less ToLower sortBy desc a a = desc.
Proof.
  rewrite !sortStats_less_group.
  pose proof (less_key_trans ToLower (ToLower sortBy) a b c) as Ht.
  pose proof (less_key_negtrans ToLower (ToLower sortBy) a b c) as Hn.
  rewrite (less_key_irrefl ToLower (ToLower sortBy) a), Z.ltb_irrefl.
  destruct (Z.ltb_spec (group a) (group b)), (Z.ltb_spec (group b) (group a)),
           (Z.ltb_spec (group b) (group c)), (Z.ltb_spec (group c) (group b)),
           (Z.ltb_spec (group a) (group c)), (Z.ltb_spec (group c) (group a));
    try lia; (split; [|split; [|destruct desc; reflexivity]]); try (intros; congruence || reflexivity).
  all: destruct desc, (run.less_key ToLower (ToLower sortBy) a b),
         (run.less_key ToLower (ToLower sortBy) b c),
         (run.less_key ToLower (ToLower sortBy) a c); cbn [xorb]; intros; 
       try reflexivity; try discriminate;
       try (symmetry; apply Ht; reflexivity); try (symmetry; apply Hn; reflexivity);
       try (apply Ht; reflexivity); try (apply Hn; reflexivity).
Qed.

(** Whatever the key and the direction, a record of an earlier group
    compares less than one of a later group, and never the other way
    round: failed files sort after analysed ones, binary after text. *)
Theorem sortStats_groups ToLower sortBy desc a b (Hg : group a < group b) :
  run.sortStats_less ToLower sortBy desc a b = true /\
  run.sortStats_less ToLower sortBy desc b a = false.
Proof.
  rewrite !sortStats_less_group.
  destruct (Z.ltb_spec (group a) (group b)); [|lia].
  destruct (Z.ltb_spec (group b) (group a)); [lia|]. split; reflexivity.
Qed.

Lemma sortStats_groups_witness :
  run.sortStats_less (fun s => s) "size" true text_record failed_record = true /\
  run.sortStats_less (fun s => s) "size" true failed_record text_record = false.
Proof. apply sortStats_groups. vm_compute. reflexivity. Defined.

(* ================================================================= *)
(** ** The command line *)

Lemma has_key_In m key : cli.has_key m key = true <-> In key m.
Proof.
  unfold cli.has_key. rewrite existsb_exists. split.
  - intros (x & Hx & E). apply String.eqb_eq in E. subst. assumption.
  - intros H. exists key. split; [assumption|apply String.eqb_refl].
Qed.

Lemma len_zero {A} (l : list A) : (len l =? 0) = true <-> l = [].
Proof.
  rewrite Z.eqb_eq. destruct l; unfold len; cbn [List.length]; split; intros; congruence || lia.
Qed.

(** A configuration that [ParseArgs] returns for a run that is not
    [-version] is validated: its sort key and format are the lowered
    values asked for and belong to the accepted ones, and it has one job
    at least and one file at least.  The files are the arguments if there
    are any; if there are none, standard input is there, is not a
    terminal and was read without error, and the files are its lines,
    trimmed, in their order, less those of which nothing is left.  The
    other fields are the flags as given. *)
Theorem ParseArgs_validated ToLower TrimSpace quote parsed stdin cfg
  (Hok : cli.ParseArgs ToLower TrimSpace quote parsed stdin = inl cfg)
  (Hrun : cli.ShowVersion cfg = false) :
  In (cli.SortBy cfg) cli.validSortBy /\ In (cli.Format cfg) cli.validFormat /\
  1 <= cli.Jobs cfg /\ cli.Files cfg <> [] /\
  exists fl, parsed = Some fl /\
    cli.SortBy cfg = ToLower (asked_sort fl) /\
    cli.Format cfg = ToLower (asked_format fl) /\
    (cli.flag_args fl <> [] -> cli.Files cfg = cli.flag_args fl) /\
    (cli.flag_args fl = [] ->
       exists f, stdin = Some f /\ cli.hasPipedInput f = true /\ cli.stdin_Err f = None /\
         cli.Files cfg = filter not_blank (map TrimSpace (cli.stdin_lines f)) /\
         Forall (fun p => p <> EmptyString) (cli.Files cfg)) /\
    cli.ShowSum cfg = cli.flag_sum fl /\ cli.Desc cfg = cli.flag_desc fl /\
    cli.NoHeader cfg = cli.flag_no_header fl /\ cli.Plain cfg = cli.flag_plain fl /\
    cli.Progress cfg = cli.flag_progress fl /\ cli.Commas cfg = cli.flag_commas fl.
Proof.
  unfold cli.ParseArgs in Hok. destruct parsed as [fl|]; [|discriminate].
  cbv zeta in Hok.
  destruct (cli.flag_version fl); [injection Hok as <-; discriminate|].
  fold (asked_sort fl) (asked_format fl) in Hok.
  destruct (cli.has_key cli.validSortBy (ToLower (asked_sort fl))) eqn:Hs; [|discriminate].
  destruct (cli.has_key cli.validFormat (ToLower (asked_format fl))) eqn:Hf; [|discriminate].
  cbn [negb] in Hok. apply has_key_In in Hs, Hf.
  pose proof (ParseArgs_Jobs_positive (cli.flag_jobs fl)) as Hj.
  destruct (len (cli.flag_args fl) =? 0) eqn:Ha.
  - apply len_zero in Ha.
    destruct stdin as [f|]; [|discriminate].
    destruct (cli.hasPipedInput f) eqn:Hpipe; [|discriminate].
    unfold cli.readPathsFrom in Hok. destruct (cli.stdin_Err f) eqn:Herr; [discriminate|].
    fold not_blank in Hok.
    destruct (len (filter not_blank _) =? 0) eqn:Hp; [discriminate|].
    injection Hok as <-. cbn.
    repeat (split; [assumption|]). split.
    + intros E. rewrite E in Hp. discriminate.
    + exists fl. split; [reflexivity|]. split; [reflexivity|]. split; [reflexivity|].
      split; [congruence|]. split; [|repeat split]. intros _.
      exists f. split; [reflexivity|]. split; [exact Hpipe|]. split; [exact Herr|].
      split; [reflexivity|].
      apply Forall_forall. intros p Hp'. apply filter_In in Hp'. destruct Hp' as [_ Hp'].
      unfold not_blank in Hp'.
      destruct (String.eqb_spec p EmptyString); [discriminate|assumption].
  - injection Hok as <-. cbn. repeat (split; [assumption|]). split.
    + intros E. rewrite E in Ha. discriminate.
    + exists fl. split; [reflexivity|]. split; [reflexivity|]. split; [reflexivity|].
      split; [reflexivity|]. split; [|repeat split].
      intros E. rewrite E in Ha. discriminate.
Qed.

(** Three lines on standard input, one of them blank and one to trim, give
    two files; the sort key is lowered and the number of jobs raised to 1. *)
Lemma ParseArgs_validated_witness :
  exists cfg,
    cli.ParseArgs (fun s => if (s =? "SIZE")%string then "size"%string else s)
      (fun s => if (s =? " a.txt")%string then "a.txt"%string else s)
      (fun s => s) (Some piped_flags) (Some piped_stdin) = inl cfg /\
    cli.Files cfg = ["a.txt"; "b.txt"]%string /\ cli.SortBy cfg = "size"%string /\
    cli.Format cfg = "table"%string /\ 1 <= cli.Jobs cfg /\ cli.Desc cfg = true.
Proof.
  eexists. split; [reflexivity|].
  destruct (ParseArgs_validated (fun s => if (s =? "SIZE")%string then "size"%string else s)
              (fun s => if (s =? " a.txt")%string then "a.txt"%string else s)
              (fun s => s) (Some piped_flags) (Some piped_stdin) _ eq_refl eq_refl)
    as (_ & _ & Hjobs & _ & fl & Efl & Hsort & Hformat & _ & Hfiles & _ & Hdesc & _).
  injection Efl as <-.
  destruct (Hfiles eq_refl) as (f & Ef & _ & _ & Hf & _). injection Ef as <-.
  split; [exact Hf|]. split; [exact Hsort|]. split; [exact Hformat|].
  split; [exact Hjobs|exact Hdesc].
Defined.

(** The exit codes of a run that ends before any analysis: 0 exactly
    when [-version] was given; 2 exactly when the value of [-sort] or of
    [-format] is rejected; 1 exactly when the flags do not parse, or no
    argument is given and standard input yields no path (it is absent, a
    terminal, empty or unreadable). *)
Theorem Run_exit_codes ToLower TrimSpace quote parsed stdin
  (Hscan : plain_scan_error stdin) :
  let r := run.Run_early (cli.ParseArgs ToLower TrimSpace quote parsed stdin) in
  (r = Some 0 <-> exists fl, parsed = Some fl /\ cli.flag_version fl = true) /\
  (r = Some 2 <-> exists fl, parsed = Some fl /\ cli.flag_version fl = false /\
                    (~ In (ToLower (asked_sort fl)) cli.validSortBy \/
                     ~ In (ToLower (asked_format fl)) cli.validFormat)) /\
  (r = Some 1 <-> parsed = None \/
                  exists fl, parsed = Some fl /\ cli.flag_version fl = false /\
                    In (ToLower (asked_sort fl)) cli.validSortBy /\
                    In (ToLower (asked_format fl)) cli.validFormat /\
                    cli.flag_args fl = [] /\
                    forall f, stdin = Some f -> cli.hasPipedInput f = true ->
                      cli.stdin_Err f = None ->
                      filter (fun line => negb (line =? EmptyString)%string)
                             (map TrimSpace (cli.stdin_lines f)) = []).
Proof.
  cbv zeta. unfold cli.ParseArgs.
  destruct parsed as [fl|].
  2:{ cbn. split; [|split]; split; try discriminate; try (intros; reflexivity); try tauto.
      - intros (fl & E & _); discriminate.
      - intros (fl & E & _); discriminate. }
  cbv zeta. fold (asked_sort fl) (asked_format fl).
  destruct (cli.flag_version fl) eqn:Hv.
  { cbn. split; [|split]; split; try discriminate; try (intros; reflexivity); eauto.
    - intros (fl' & E & E' & _). congruence.
    - intros [E|(fl' & E & E' & _)]; congruence. }
  destruct (cli.has_key cli.validSortBy (ToLower (asked_sort fl))) eqn:Hs; cbn [negb].
  2:{ assert (Hs' : ~ In (ToLower (asked_sort fl)) cli.validSortBy)
        by (rewrite <- has_key_In; congruence).
      cbn. split; [|split]; split; try discriminate; try (intros; reflexivity).
      - intros (fl' & E & E'). congruence.
      - intros _. exists fl. split; [reflexivity|]. split; [assumption|]. left; assumption.
      - intros [E|(fl' & E & _ & Hin & _)]; [discriminate|]. injection E as <-. elim (Hs' Hin). }
  destruct (cli.has_key cli.validFormat (ToLower (asked_format fl))) eqn:Hf; cbn [negb].
  2:{ assert (Hf' : ~ In (ToLower (asked_format fl)) cli.validFormat)
        by (rewrite <- has_key_In; congruence).
      cbn. split; [|split]; split; try discriminate; try (intros; reflexivity).
      - intros (fl' & E & E'). congruence.
      - intros _. exists fl. split; [reflexivity|]. split; [assumption|]. right; assumption.
      - intros [E|(fl' & E & _ & _ & Hin & _)]; [discriminate|]. injection E as <-. elim (Hf' Hin). }
  apply has_key_In in Hs, Hf.
  assert (Hno2 : ~ (exists fl0, Some fl = Some fl0 /\ cli.flag_version fl0 = false /\
            (~ In (ToLower (asked_sort fl0)) cli.validSortBy \/
             ~ In (ToLower (asked_format fl0)) cli.validFormat))).
  { intros (fl' & E & _ & H). injection E as <-. tauto. }
  assert (Hno0 : ~ (exists fl0, Some fl = Some fl0 /\ cli.flag_version fl0 = true)).
  { intros (fl' & E & H). injection E as <-. congruence. }
  destruct (len (cli.flag_args fl) =? 0) eqn:Ha.
  2:{ cbn. split; [|split]; split; try discriminate; try (intros; reflexivity); try tauto.
      intros [E|(fl' & E & _ & _ & _ & Hargs & _)]; [discriminate|]. injection E as <-.
      rewrite Hargs in Ha. discriminate. }
  apply len_zero in Ha.
  destruct stdin as [f|].
  2:{ cbn. split; [|split]; split; try discriminate; try (intros; reflexivity); try tauto.
      intros _. right. exists fl. split; [reflexivity|]. split; [assumption|].
      split; [exact Hs|]. split; [exact Hf|]. split; [assumption|]. intros f E. discriminate. }
  destruct (cli.hasPipedInput f) eqn:Hpipe.
  2:{ cbn. split; [|split]; split; try discriminate; try (intros; reflexivity); try tauto.
      intros _. right. exists fl. split; [reflexivity|]. split; [assumption|].
      split; [exact Hs|]. split; [exact Hf|]. split; [assumption|].
      intros f' E. injection E as <-. congruence. }
  unfold cli.readPathsFrom. destruct (cli.stdin_Err f) as [msg|] eqn:He.
  { destruct (Hscan f msg eq_refl He) as [H1 H2].
    cbn [run.Run_early cli.Error]. rewrite H1, H2. cbn [orb].
    split; [|split]; split; try discriminate; try (intros; reflexivity); try tauto.
    intros _. right. exists fl. split; [reflexivity|]. split; [assumption|].
      split; [exact Hs|]. split; [exact Hf|]. split; [assumption|].
    intros f' E. injection E as <-. congruence. }
  destruct (len (filter _ _) =? 0) eqn:Hp.
  - apply len_zero in Hp. cbn.
    split; [|split]; split; try discriminate; try (intros; reflexivity); try tauto.
    intros _. right. exists fl. split; [reflexivity|]. split; [assumption|].
      split; [exact Hs|]. split; [exact Hf|]. split; [assumption|].
    intros f' E. injection E as <-. intros _ _. exact Hp.
  - cbn. split; [|split]; split; try discriminate; try (intros; reflexivity); try tauto.
    intros [E|(fl' & E & _ & _ & _ & _ & Hall)]; [discriminate|].
    rewrite (Hall f eq_refl Hpipe He) in Hp. discriminate.
Qed.

Lemma Run_exit_codes_witness :
  run.Run_early (cli.ParseArgs (fun s => s) (fun s => s) (fun s => s) (Some bogus_flags) None) = Some 2.
Proof.
  assert (Hscan : plain_scan_error None) by (intros f msg E; discriminate E).
  apply (proj2 (proj1 (proj2 (Run_exit_codes (fun s => s) (fun s => s) (fun s => s)
                                 (Some bogus_flags) None Hscan)))).
  exists bogus_flags. split; [reflexivity|]. split; [reflexivity|]. left.
  cbn. intros H. repeat (destruct H as [H|H]; [discriminate H|]). exact H.
Defined.

(* ================================================================= *)
(** ** The table *)

Lemma bind_Ret {A B} (x : outcome A) (k : A -> outcome B) b :
  bind x k = Ret b -> exists a, x = Ret a /\ k a = Ret b.
Proof. destruct x; cbn; intros H; try discriminate. eauto. Qed.

Lemma sumZ_permutation l l' : Permutation l l' -> sumZ l = sumZ l'.
Proof. unfold sumZ. induction 1; cbn [fold_right] in *; lia. Qed.

Lemma Permutation_filter {A} (f : A -> bool) l l' :
  Permutation l l' -> Permutation (filter f l) (filter f l').
Proof.
  induction 1; cbn [filter].
  - constructor.
  - destruct (f x); [constructor|]; assumption.
  - destruct (f x), (f y); try constructor; apply Permutation_refl.
  - eapply Permutation_trans; eassumption.
Qed.

Lemma fmtInt_returns commas n : in_int n -> exists s, run.fmtInt commas n = Ret s.
Proof.
  intros Hn. unfold run.fmtInt. destruct commas.
  - apply CommaInt_returns. exact Hn.
  - destruct (Sprintf_d_spec n Hn) as (ds & -> & _). eexists; reflexivity.
Qed.

(** The loop over [stats]: one row of eight cells for every record, and the
    sums it accumulates. *)
Lemma collect_sums commas : forall records rows0 t0 rows t,
  run.collect commas records rows0 t0 = Ret (rows, t) ->
  totals_in_range t0 ->
  Forall (fun r => List.length r = 8%nat) rows0 ->
  run.totalBytes t = util.wrap64 (run.totalBytes t0 + sumZ (map analyze.SizeBytes (filter analysed records))) /\
  run.totalLines t = util.wrap64 (run.totalLines t0 + sumZ (map analyze.Lines (filter analysed_text records))) /\
  run.totalWords t = util.wrap64 (run.totalWords t0 + sumZ (map analyze.Words (filter analysed_text records))) /\
  run.totalChars t = util.wrap64 (run.totalChars t0 + sumZ (map analyze.Chars (filter analysed_text records))) /\
  List.length rows = (List.length rows0 + List.length records)%nat /\
  Forall (fun r => List.length r = 8%nat) rows.
Proof.
  induction records as [|fs more IH]; intros rows0 t0 rows t Hc Ht Hr.
  - cbn in Hc. injection Hc as <- <-. destruct Ht as (H1 & H2 & H3 & H4).
    cbn [filter map sumZ fold_right]. rewrite !Z.add_0_r, !wrap64_id by assumption.
    repeat split; try reflexivity; [cbn; lia|assumption].
  - cbn [run.collect] in Hc. cbn [filter].
    change (analysed fs) with (negb (analyze.HasError fs)).
    change (analysed_text fs)
      with (negb (analyze.HasError fs) && negb (analyze.Kind fs =? "binary")%string).
    destruct (analyze.HasError fs) eqn:He; cbn [negb andb].
    + destruct (IH _ _ _ _ Hc Ht) as (E1 & E2 & E3 & E4 & El & Hf).
      { apply Forall_app. split; [assumption|]. constructor; [reflexivity|constructor]. }
      repeat split; try assumption. rewrite El, length_app. cbn [List.length]. lia.
    + apply bind_Ret in Hc. destruct Hc as (lstr & _ & Hc).
      apply bind_Ret in Hc. destruct Hc as (wstr & _ & Hc).
      apply bind_Ret in Hc. destruct Hc as (cstr & _ & Hc). cbv zeta in Hc.
      destruct Ht as (H1 & H2 & H3 & H4).
      pose proof (wrap64_range (run.totalBytes t0 + analyze.SizeBytes fs)).
      pose proof (wrap64_range (run.totalLines t0 + analyze.Lines fs)).
      pose proof (wrap64_range (run.totalWords t0 + analyze.Words fs)).
      pose proof (wrap64_range (run.totalChars t0 + analyze.Chars fs)).
      assert (Hrows : forall row, List.length row = 8%nat ->
                Forall (fun r => List.length r = 8%nat) (rows0 ++ [row])).
      { intros row Hrow. apply Forall_app. split; [assumption|]. repeat constructor. assumption. }
      destruct (analyze.Kind fs =? "binary")%string; cbn [negb] in Hc |- *.
      * assert (Hrange : totals_in_range
                  {| run.totalBytes := util.wrap64 (run.totalBytes t0 + analyze.SizeBytes fs);
                     run.totalLines := run.totalLines t0;
                     run.totalWords := run.totalWords t0;
                     run.totalChars := run.totalChars t0 |}).
        { unfold totals_in_range, in_int in *. cbn. repeat split; lia || apply H1 || apply H2 || apply H3 || apply H4. }
        destruct (IH _ _ _ _ Hc Hrange ltac:(apply Hrows; reflexivity)) as (E1 & E2 & E3 & E4 & El & Hf).
        rewrite E1, E2, E3, E4, El, length_app. cbn [List.length]. unfold sumZ.
        cbn [run.totalBytes run.totalLines run.totalWords run.totalChars map fold_right].
        rewrite ?wrap64_add.
        repeat split; try assumption; try (f_equal; lia); lia.
      * assert (Hrange : totals_in_range
                  {| run.totalBytes := util.wrap64 (run.totalBytes t0 + analyze.SizeBytes fs);
                     run.totalLines := util.wrap64 (run.totalLines t0 + analyze.Lines fs);
                     run.totalWords := util.wrap64 (run.totalWords t0 + analyze.Words fs);
                     run.totalChars := util.wrap64 (run.totalChars t0 + analyze.Chars fs) |}).
        { unfold totals_in_range, in_int in *. cbn. repeat split; lia. }
        destruct (IH _ _ _ _ Hc Hrange ltac:(apply Hrows; reflexivity)) as (E1 & E2 & E3 & E4 & El & Hf).
        rewrite E1, E2, E3, E4, El, length_app. cbn [List.length]. unfold sumZ.
        cbn [run.totalBytes run.totalLines run.totalWords run.totalChars map fold_right].
        rewrite ?wrap64_add.
        repeat split; try assumption; try (f_equal; lia); lia.
Qed.

Lemma collect_returns commas : forall records rows0 t0,
  Forall int_counts records -> exists rows t, run.collect commas records rows0 t0 = Ret (rows, t).
Proof.
  induction records as [|fs more IH]; intros rows0 t0 Hs.
  - eexists _, _. reflexivity.
  - inversion Hs as [|? ? (Hl & Hw & Hc) Hmore]; subst. cbn [run.collect].
    destruct (analyze.HasError fs); [apply IH; assumption|].
    destruct (fmtInt_returns commas _ Hl) as [ls ->].
    destruct (fmtInt_returns commas _ Hw) as [ws ->].
    destruct (fmtInt_returns commas _ Hc) as [cs ->].
    cbn [bind]. apply IH. assumption.
Qed.

Lemma collect_totals commas records :
  Forall int_counts records ->
  exists rows t,
    run.collect commas records [] run.zero_totals = Ret (rows, t) /\
    len rows = len records /\
    run.totalBytes t = util.wrap64 (sumZ (map analyze.SizeBytes (filter analysed records))) /\
    run.totalLines t = util.wrap64 (sumZ (map analyze.Lines (filter analysed_text records))) /\
    run.totalWords t = util.wrap64 (sumZ (map analyze.Words (filter analysed_text records))) /\
    run.totalChars t = util.wrap64 (sumZ (map analyze.Chars (filter analysed_text records))).
Proof.
  intros Hs. destruct (collect_returns commas records [] run.zero_totals Hs) as (rows & t & E).
  exists rows, t. split; [exact E|].
  destruct (collect_sums commas records [] run.zero_totals rows t E) as (E1 & E2 & E3 & E4 & El & _).
  - unfold totals_in_range, in_int. cbn. lia.
  - constructor.
  - cbn [run.zero_totals run.totalBytes run.totalLines run.totalWords run.totalChars] in *.
    rewrite Z.add_0_l in *. unfold len. rewrite El. cbn [List.length]. repeat split; assumption.
Qed.

Lemma Permutation_int_counts records records' :
  Permutation records records' -> Forall int_counts records -> Forall int_counts records'.
Proof.
  intros Hp Hs. rewrite Forall_forall in *. intros x Hx. apply Hs.
  apply (Permutation_in x (Permutation_sym Hp) Hx).
Qed.

(** The loop of [writeTable] makes one row for every record, and its
    totals are the sums, modulo 2^64, of the sizes of the analysed files
    and of the counts of the analysed files that are not binary; the order
    of the records does not matter to them. *)
Theorem table_totals commas records (Hs : Forall int_counts records) :
  exists rows t,
    run.collect commas records [] run.zero_totals = Ret (rows, t) /\
    len rows = len records /\
    run.totalBytes t = util.wrap64 (sumZ (map analyze.SizeBytes (filter analysed records))) /\
    run.totalLines t = util.wrap64 (sumZ (map analyze.Lines (filter analysed_text records))) /\
    run.totalWords t = util.wrap64 (sumZ (map analyze.Words (filter analysed_text records))) /\
    run.totalChars t = util.wrap64 (sumZ (map analyze.Chars (filter analysed_text records))) /\
    forall records', Permutation records records' ->
      exists rows', run.collect commas records' [] run.zero_totals = Ret (rows', t).
Proof.
  destruct (collect_totals commas records Hs) as (rows & t & E & El & E1 & E2 & E3 & E4).
  exists rows, t. repeat (split; [assumption|]).
  intros records' Hp.
  destruct (collect_totals commas records' (Permutation_int_counts _ _ Hp Hs))
    as (rows' & t' & E' & _ & E1' & E2' & E3' & E4').
  exists rows'. rewrite E'. f_equal. f_equal.
  destruct t, t'. cbn in *. subst.
  rewrite (sumZ_permutation _ _ (Permutation_map analyze.SizeBytes (Permutation_filter analysed _ _ Hp))).
  rewrite (sumZ_permutation _ _ (Permutation_map analyze.Lines (Permutation_filter analysed_text _ _ Hp))).
  rewrite (sumZ_permutation _ _ (Permutation_map analyze.Words (Permutation_filter analysed_text _ _ Hp))).
  rewrite (sumZ_permutation _ _ (Permutation_map analyze.Chars (Permutation_filter analysed_text _ _ Hp))).
  reflexivity.
Qed.

Lemma good_glyphs_box : good_glyphs run.box.
Proof.
  unfold good_glyphs, run.box; cbn.
  repeat split; try discriminate; apply glyph_three; vm_compute; try reflexivity;
    split; discriminate.
Qed.

Lemma good_glyphs_ascii : good_glyphs run.ascii_box.
Proof.
  unfold good_glyphs, run.ascii_box; cbn.
  repeat split; try discriminate; apply glyph_ascii; vm_compute; reflexivity.
Qed.

Lemma displayWidth_count s : run.displayWidth s = Ret (rune_count s).
Proof. apply RuneCountInString_count. Qed.

Lemma rune_count_glyph_alone g : glyph g -> rune_count g = 1.
Proof.
  intros Hg. rewrite <- (app_nil_r g). rewrite rune_count_glyph by assumption.
  rewrite rune_count_nil. lia.
Qed.

Lemma rune_count_repeat g n y :
  glyph g -> rune_count (List.concat (repeat g n) ++ y) = Z.of_nat n + rune_count y.
Proof.
  intros Hg. induction n as [|n IH]; [cbn [repeat List.concat app]; lia|].
  cbn [repeat List.concat]. rewrite <- app_assoc, rune_count_glyph, IH by assumption. lia.
Qed.

Lemma Repeat_returns s n :
  0 <= n -> run.Repeat s n = Ret (List.concat (repeat s (Z.to_nat n))).
Proof. intros Hn. unfold run.Repeat. destruct (Z.ltb_spec n 0); [lia|reflexivity]. Qed.

Lemma glyph_space : glyph [" "%byte].
Proof. apply glyph_ascii. vm_compute. reflexivity. Qed.

(** A padded cell is as wide as its column, whatever ASCII byte follows:
    the cell itself may end in the middle of a sequence. *)
Lemma pad_width (right : bool) cell w :
  rune_count cell <= w ->
  exists P, (if right then run.padLeft cell w else run.padRight cell w) = Ret P /\
    forall a y, u8 a < 0x80 -> rune_count (P ++ a :: y) = w + rune_count (a :: y).
Proof.
  intros Hw. unfold run.padLeft, run.padRight.
  rewrite displayWidth_count. cbn [bind]. cbv zeta.
  destruct (Z.gtb_spec (w - rune_count cell) 0) as [Hp|Hp].
  - rewrite Repeat_returns by lia. cbn [bind].
    destruct (Z.to_nat (w - rune_count cell)) as [|n] eqn:En; [lia|].
    destruct right; eexists; (split; [reflexivity|]); intros a y Ha.
    + rewrite <- app_assoc, rune_count_repeat by apply glyph_space.
      rewrite rune_count_app_ascii by assumption. lia.
    + rewrite <- app_assoc. cbn [repeat List.concat app].
      rewrite rune_count_app_ascii by (vm_compute; reflexivity).
      change (" "%byte :: List.concat (repeat [" "%byte] n) ++ a :: y)
        with (List.concat (repeat [" "%byte] (S n)) ++ a :: y).
      rewrite rune_count_repeat by apply glyph_space. lia.
  - assert (rune_count cell = w) by lia.
    destruct right; exists cell; (split; [reflexivity|]); intros a y Ha;
      rewrite rune_count_app_ascii by assumption; lia.
Qed.

Lemma update_length {A} (l : list A) : forall i v, List.length (run.update l i v) = List.length l.
Proof.
  induction l as [|x t IH]; intros i v; [reflexivity|].
  destruct i; cbn [run.update List.length]; [reflexivity|]. rewrite IH. reflexivity.
Qed.

Lemma update_nth (l : list Z) : forall i v k, (i < List.length l)%nat ->
  nth k (run.update l i v) 0 = if (k =? i)%nat then v else nth k l 0.
Proof.
  induction l as [|x t IH]; intros i v k Hi; [cbn in Hi; lia|].
  destruct i, k; cbn [run.update nth Nat.eqb]; try reflexivity.
  apply IH. cbn in Hi. lia.
Qed.

Lemma le_all_refl ws : le_all ws ws.
Proof. split; [reflexivity|intros; lia]. Qed.

Lemma le_all_trans a b c : le_all a b -> le_all b c -> le_all a c.
Proof.
  intros [L1 H1] [L2 H2]. split; [congruence|]. intros k. specialize (H1 k). specialize (H2 k). lia.
Qed.

Lemma widen_spec ws i w :
  (i < List.length ws)%nat ->
  exists ws', run.widen ws i w = Ret ws' /\ le_all ws ws' /\ w <= nth i ws' 0.
Proof.
  intros Hi. unfold run.widen.
  destruct (nth_error ws i) as [cur|] eqn:E; [|apply nth_error_None in E; lia].
  apply (nth_error_nth _ _ 0) in E.
  destruct (Z.gtb_spec w cur).
  - eexists. split; [reflexivity|]. split.
    + split; [rewrite update_length; reflexivity|].
      intros k. rewrite update_nth by assumption.
      destruct (Nat.eqb_spec k i); [subst; lia|lia].
    + rewrite update_nth by assumption. rewrite Nat.eqb_refl. lia.
  - exists ws. split; [reflexivity|]. split; [apply le_all_refl|lia].
Qed.

Lemma widen_cells_spec : forall cells ws i,
  (i + List.length cells <= List.length ws)%nat ->
  exists ws', run.widen_cells ws i cells = Ret ws' /\ le_all ws ws' /\
    forall k, (k < List.length cells)%nat -> rune_count (nth k cells []) <= nth (i + k) ws' 0.
Proof.
  induction cells as [|cell rest IH]; intros ws i Hi.
  - exists ws. split; [reflexivity|]. split; [apply le_all_refl|]. intros k Hk. cbn in Hk. lia.
  - cbn [run.widen_cells List.length] in *. rewrite displayWidth_count. cbn [bind].
    destruct (widen_spec ws i (rune_count cell) ltac:(lia)) as (ws1 & -> & Hle1 & Hw). cbn [bind].
    destruct (IH ws1 (S i)) as (ws' & E & Hle & Hc).
    { destruct Hle1 as [<- _]. lia. }
    exists ws'. split; [exact E|]. split; [eapply le_all_trans; eassumption|].
    intros [|k] Hk; cbn [nth].
    + rewrite Nat.add_0_r. destruct Hle as [_ Hle]. specialize (Hle i). lia.
    + replace (i + S k)%nat with (S i + k)%nat by lia. apply Hc. lia.
Qed.

Lemma covers_le ws ws' cells : le_all ws ws' -> covers ws cells -> covers ws' cells.
Proof.
  intros [Hl Hle] Hc k Hk. specialize (Hc k ltac:(lia)). specialize (Hle k). lia.
Qed.

Lemma covers_short ws ws' cells :
  le_all ws ws' -> Forall (fun w => 0 <= w) ws ->
  (forall k, (k < List.length cells)%nat -> rune_count (nth k cells []) <= nth k ws' 0) ->
  covers ws' cells.
Proof.
  intros [Hl Hle] Hpos Hc k Hk.
  destruct (Nat.lt_ge_cases k (List.length cells)) as [H|H]; [apply Hc; assumption|].
  rewrite (nth_overflow cells) by assumption. rewrite rune_count_nil.
  specialize (Hle k). rewrite Forall_forall in Hpos.
  assert (0 <= nth k ws 0) by (apply Hpos; apply nth_In; lia). lia.
Qed.

Lemma le_all_nonneg ws ws' :
  le_all ws ws' -> Forall (fun w => 0 <= w) ws -> Forall (fun w => 0 <= w) ws'.
Proof.
  intros [Hl Hle] Hpos. rewrite Forall_forall in *. intros x Hx.
  destruct (In_nth _ _ 0 Hx) as (k & Hk & <-).
  specialize (Hle k). assert (0 <= nth k ws 0) by (apply Hpos; apply nth_In; lia). lia.
Qed.

Lemma widen_rows_spec : forall rows ws,
  Forall (fun r => List.length r = List.length ws) rows ->
  Forall (fun w => 0 <= w) ws ->
  exists ws', run.widen_rows ws rows = Ret ws' /\ le_all ws ws' /\ Forall (covers ws') rows.
Proof.
  induction rows as [|row more IH]; intros ws Hr Hpos.
  - exists ws. split; [reflexivity|]. split; [apply le_all_refl|constructor].
  - inversion Hr as [|? ? Hrow Hmore]; subst. cbn [run.widen_rows].
    destruct (widen_cells_spec row ws 0 ltac:(lia)) as (ws1 & -> & Hle1 & Hc1). cbn [bind].
    destruct (IH ws1) as (ws' & E & Hle & Hcs).
    { destruct Hle1 as [<- _]. assumption. }
    { eapply le_all_nonneg; eassumption. }
    exists ws'. split; [exact E|]. split; [eapply le_all_trans; eassumption|].
    constructor; [|assumption].
    apply (covers_le ws1); [assumption|].
    apply (covers_short ws); assumption.
Qed.

Lemma header_widths_spec hs : run.header_widths hs = Ret (map rune_count hs).
Proof.
  induction hs as [|h rest IH]; [reflexivity|].
  cbn [run.header_widths map]. rewrite displayWidth_count, IH. reflexivity.
Qed.

Lemma drawLine_cols_width horiz_ sep : forall ws,
  glyph horiz_ -> glyph sep -> Forall (fun w => 0 <= w) ws ->
  exists cols, run.drawLine_cols horiz_ sep ws = Ret cols /\
    forall y, rune_count (cols ++ y) = cols_width ws + rune_count y.
Proof.
  intros ws Hh Hs. induction ws as [|w rest IH]; intros Hpos.
  - exists []. split; [reflexivity|]. intros y. cbn [app cols_width]. lia.
  - inversion Hpos as [|? ? Hw Hrest]; subst. cbn [run.drawLine_cols].
    rewrite Repeat_returns by lia. cbn [bind].
    destruct (IH Hrest) as (tail & -> & Htail). cbn [bind].
    eexists. split; [reflexivity|]. intros y.
    rewrite <- !app_assoc, rune_count_repeat by assumption. cbn [cols_width].
    destruct rest as [|w' rest'].
    + cbn [app]. rewrite Htail. cbn [cols_width]. lia.
    + rewrite rune_count_glyph, Htail by assumption. lia.
Qed.

Lemma drawLine_width g ws left sep right :
  glyph (run.horiz g) -> glyph left -> glyph sep -> glyph right ->
  Forall (fun w => 0 <= w) ws ->
  exists line, run.drawLine g ws left sep right = Ret line /\ rune_count line = table_width ws.
Proof.
  intros Hh Hl Hs Hr Hpos. unfold run.drawLine.
  destruct (drawLine_cols_width (run.horiz g) sep ws Hh Hs Hpos) as (cols & -> & Hc).
  cbn [bind]. eexists. split; [reflexivity|].
  rewrite rune_count_glyph, Hc, rune_count_glyph_alone by assumption.
  unfold table_width. lia.
Qed.

Lemma drawRow_cols_width vert_ cells : forall ws i,
  glyph vert_ ->
  (forall k, (k < List.length ws)%nat -> rune_count (nth (i + k) cells []) <= nth k ws 0) ->
  exists cols, run.drawRow_cols vert_ cells i ws = Ret cols /\
    forall y, rune_count (cols ++ y) = cols_width ws + rune_count y.
Proof.
  intros ws i Hv. revert i. induction ws as [|w rest IH]; intros i Hc.
  - exists []. split; [reflexivity|]. intros y. cbn [app cols_width]. lia.
  - cbn [run.drawRow_cols]. cbv zeta.
    destruct (pad_width (run.rightAligned i) (nth i cells []) w) as (P & -> & HP).
    { specialize (Hc 0%nat ltac:(cbn; lia)). rewrite Nat.add_0_r in Hc. exact Hc. }
    cbn [bind].
    destruct (IH (S i)) as (tail & -> & Htail).
    { intros k Hk. replace (S i + k)%nat with (i + S k)%nat by lia.
      apply (Hc (S k)). cbn [List.length]. lia. }
    cbn [bind]. eexists. split; [reflexivity|]. intros y.
    rewrite <- !app_assoc. rewrite rune_count_glyph by apply glyph_space.
    cbn [app]. rewrite HP by (vm_compute; reflexivity).
    change (" "%byte :: ?x) with ([" "%byte] ++ x).
    rewrite (rune_count_glyph [" "%byte]) by apply glyph_space.
    cbn [cols_width]. destruct rest as [|w' rest'].
    + cbn [app]. rewrite Htail. cbn [cols_width]. lia.
    + rewrite rune_count_glyph, Htail by assumption. lia.
Qed.

Lemma drawRow_width g ws cells :
  glyph (run.vert g) -> covers ws cells ->
  exists line, run.drawRow g ws cells = Ret line /\ rune_count line = table_width ws.
Proof.
  intros Hv Hc. unfold run.drawRow.
  destruct (drawRow_cols_width (run.vert g) cells ws 0 Hv) as (cols & -> & Hcols).
  { intros k Hk. apply Hc. assumption. }
  cbn [bind]. eexists. split; [reflexivity|].
  rewrite rune_count_glyph, Hcols, rune_count_glyph_alone by assumption.
  unfold table_width. lia.
Qed.

Lemma draw_body_width g ws : forall rows,
  good_glyphs g -> Forall (fun w => 0 <= w) ws -> Forall (covers ws) rows ->
  exists body, run.draw_body g ws rows = Ret body /\
    Forall (fun l => rune_count l = table_width ws) body /\
    len body = match rows with [] => 0 | _ :: _ => 2 * len rows - 1 end.
Proof.
  intros rows Hg Hpos. destruct Hg as (Hv & Hh & _ & _ & _ & Hml & Hms & Hmr & _).
  induction rows as [|row more IH]; intros Hc.
  - exists []. repeat split. constructor.
  - inversion Hc as [|? ? Hrow Hmore]; subst. cbn [run.draw_body].
    destruct (drawRow_width g ws row Hv Hrow) as (l & -> & Hl). cbn [bind].
    destruct more as [|row' more'].
    + exists [l]. repeat split. constructor; [assumption|constructor].
    + destruct (drawLine_width g ws _ _ _ Hh Hml Hms Hmr Hpos) as (m & -> & Hm). cbn [bind].
      destruct (IH Hmore) as (tail & -> & Ht & Hlen). cbn [bind].
      eexists. split; [reflexivity|]. split; [repeat constructor; assumption|].
      unfold len in *. cbn [List.length] in *. lia.
Qed.

Lemma footer_cells_returns f0 f2 commas n t :
  in_int n -> totals_in_range t ->
  exists cells, run.footer_cells f0 f2 commas n t = Ret cells /\ List.length cells = 8%nat.
Proof.
  intros Hn (H1 & H2 & H3 & H4). unfold run.footer_cells.
  destruct (Sprintf_d_spec n Hn) as (ds & -> & _). cbn [bind].
  destruct (HumanBytes_returns f0 f2 _ H1) as (s & ->). cbn [bind].
  destruct (fmtInt_returns commas _ H2) as (l & ->). cbn [bind].
  destruct (fmtInt_returns commas _ H3) as (w & ->). cbn [bind].
  destruct (fmtInt_returns commas _ H4) as (c & ->). cbn [bind].
  eexists. split; reflexivity.
Qed.

Lemma covers_headers : covers (map rune_count run.headers) run.headers.
Proof.
  intros k Hk. rewrite <- (map_nth rune_count). rewrite rune_count_nil. lia.
Qed.

(** *** Strings without a newline *)

Lemma nl_free_app x y : nl_free (x ++ y) <-> nl_free x /\ nl_free y.
Proof. apply Forall_app. Qed.

Lemma nl_free_forallb s :
  forallb (fun b => negb (Byte.eqb b Byte.x0a)) s = true -> nl_free s.
Proof.
  intros H. apply Forall_forall. intros b Hb E. subst b.
  rewrite forallb_forall in H. specialize (H _ Hb). discriminate H.
Qed.

Ltac nl_closed := apply nl_free_forallb; vm_compute; reflexivity.

Lemma nl_free_concat_repeat s n : nl_free s -> nl_free (List.concat (repeat s n)).
Proof.
  intros Hs. induction n as [|n IH]; cbn [repeat List.concat]; [constructor|].
  apply nl_free_app. split; assumption.
Qed.

Lemma Repeat_nl_free s n out : run.Repeat s n = Ret out -> nl_free s -> nl_free out.
Proof.
  unfold run.Repeat. destruct (n <? 0); [discriminate|]. intros E Hs. injection E as <-.
  apply nl_free_concat_repeat. exact Hs.
Qed.

Lemma pad_nl_free (right : bool) cell w out :
  (if right then run.padLeft cell w else run.padRight cell w) = Ret out ->
  nl_free cell -> nl_free out.
Proof.
  intros E Hc. assert (Hsp : nl_free [" "%byte]) by nl_closed.
  destruct right; [unfold run.padLeft in E|unfold run.padRight in E];
    apply bind_Ret in E; destruct E as (wd & _ & E);
    (destruct (w - wd >? 0); [|injection E as <-; exact Hc]);
    apply bind_Ret in E; destruct E as (sp & Er & E); injection E as <-;
    apply nl_free_app; split; try exact Hc; eapply Repeat_nl_free; eassumption.
Qed.

Lemma digit_nl d : fmt.digit d <> Byte.x0a.
Proof.
  unfold fmt.digit.
  destruct (nth_in_or_default (Z.to_nat d)
              ["0"; "1"; "2"; "3"; "4"; "5"; "6"; "7"; "8"; "9"]%byte "0"%byte) as [H| ->];
    [|discriminate].
  revert H. generalize (nth (Z.to_nat d) ["0"; "1"; "2"; "3"; "4"; "5"; "6"; "7"; "8"; "9"]%byte "0"%byte).
  intros b Hb. cbn [In] in Hb.
  repeat (destruct Hb as [<-|Hb]; [discriminate|]). elim Hb.
Qed.

Lemma digits_nl_free fuel : forall u buf out,
  fmt.digits fuel u buf = Ret out -> nl_free buf -> nl_free out.
Proof.
  induction fuel as [|fuel IH]; intros u buf out E Hb; cbn [fmt.digits] in E;
    destruct (u >=? 10).
  - discriminate.
  - injection E as <-. constructor; [apply digit_nl|exact Hb].
  - eapply IH; [exact E|]. constructor; [apply digit_nl|exact Hb].
  - injection E as <-. constructor; [apply digit_nl|exact Hb].
Qed.

Lemma Sprintf_d_nl_free n out : fmt.Sprintf_d n = Ret out -> nl_free out.
Proof.
  unfold fmt.Sprintf_d. destruct (n <? 0).
  - destruct (fmt.digits 19 (- n) []) as [s| |] eqn:E; try discriminate.
    intros E'. injection E' as <-. constructor; [discriminate|].
    eapply digits_nl_free; [exact E|constructor].
  - intros E. eapply digits_nl_free; [exact E|constructor].
Qed.

(** Commas are not newlines. *)
Lemma strip_commas_nl_free s : nl_free (strip_commas s) -> nl_free s.
Proof.
  unfold strip_commas, nl_free. rewrite !Forall_forall. intros H b Hb E. subst b.
  apply (H Byte.x0a); [|reflexivity]. apply filter_In. split; [exact Hb|reflexivity].
Qed.

Lemma nl_free_strip_commas s : nl_free s -> nl_free (strip_commas s).
Proof.
  unfold strip_commas, nl_free. rewrite !Forall_forall. intros H b Hb.
  apply filter_In in Hb. apply H. tauto.
Qed.

Lemma CommaInt_nl_free n out : util.CommaInt n = Ret out -> nl_free out.
Proof.
  unfold util.CommaInt. destruct (fmt.Sprintf_d n) as [s| |] eqn:E; try discriminate.
  intros Ec. destruct (commaSigned_strip s) as (out' & Eo & Hs).
  rewrite Eo in Ec. injection Ec as <-.
  apply strip_commas_nl_free. rewrite Hs. apply nl_free_strip_commas.
  eapply Sprintf_d_nl_free. exact E.
Qed.

Lemma fmtInt_nl_free commas n out : run.fmtInt commas n = Ret out -> nl_free out.
Proof.
  unfold run.fmtInt. destruct commas; [apply CommaInt_nl_free|apply Sprintf_d_nl_free].
Qed.

Lemma units_at_nl_free exp u : util.units_at exp = Ret u -> nl_free u.
Proof.
  unfold util.units_at. destruct ((0 <=? exp) && (exp <? len util.units)); [|discriminate].
  intros E. injection E as <-.
  destruct (Z.to_nat exp) as [|[|[|[|[|[|[|n]]]]]]]; try nl_closed; constructor.
Qed.

Lemma HumanBytes_nl_free f0 f2 n out :
  (forall b d, nl_free (f0 b d)) -> (forall b d, nl_free (f2 b d)) ->
  util.HumanBytes f0 f2 n = Ret out -> nl_free out.
Proof.
  intros H0 H2. unfold util.HumanBytes. destruct (n <? util.unit).
  - destruct (fmt.Sprintf_d n) as [s| |] eqn:E; try discriminate.
    intros E'. injection E' as <-. apply nl_free_app. split.
    + eapply Sprintf_d_nl_free; exact E.
    + nl_closed.
  - destruct (util.scale_loop 5 n util.unit 0) as [[div exp]| |]; try discriminate.
    destruct (util.units_at exp) as [u| |] eqn:Eu; try discriminate.
    pose proof (units_at_nl_free _ _ Eu) as Hu.
    assert (Hsp : nl_free [" "%byte]) by nl_closed.
    destruct (Z.rem n div =? 0); intros E; injection E as <-;
      (apply nl_free_app; split; [apply H0 || apply H2|constructor; [discriminate|assumption]]).
Qed.

(** *** The strings of the table *)

Lemma glyphs_nl_free (plain : bool) : nl_free_glyphs (if plain then run.ascii_box else run.box).
Proof. destruct plain; repeat split; nl_closed. Qed.

Lemma drawLine_cols_nl_free h sep : forall ws out,
  run.drawLine_cols h sep ws = Ret out -> nl_free h -> nl_free sep -> nl_free out.
Proof.
  induction ws as [|w rest IH]; intros out E Hh Hs; cbn [run.drawLine_cols] in E.
  - injection E as <-. constructor.
  - apply bind_Ret in E. destruct E as (hh & Eh & E).
    apply bind_Ret in E. destruct E as (tail & Et & E). injection E as <-.
    apply nl_free_app. split; [eapply Repeat_nl_free; eassumption|].
    apply nl_free_app. split; [destruct rest; [constructor|exact Hs]|].
    apply IH; assumption.
Qed.

Lemma drawLine_nl_free g ws left sep right out :
  run.drawLine g ws left sep right = Ret out ->
  nl_free (run.horiz g) -> nl_free left -> nl_free sep -> nl_free right -> nl_free out.
Proof.
  unfold run.drawLine. intros E Hh Hl Hs Hr.
  apply bind_Ret in E. destruct E as (cols & Ec & E). injection E as <-.
  apply nl_free_app. split; [exact Hl|]. apply nl_free_app. split; [|exact Hr].
  eapply drawLine_cols_nl_free; eassumption.
Qed.

Lemma nth_nl_free cells i : Forall nl_free cells -> nl_free (nth i cells []).
Proof.
  intros H. destruct (nth_in_or_default i cells []) as [Hin| ->]; [|constructor].
  rewrite Forall_forall in H. apply H. exact Hin.
Qed.

Lemma drawRow_cols_nl_free v cells : forall ws i out,
  run.drawRow_cols v cells i ws = Ret out -> nl_free v -> Forall nl_free cells -> nl_free out.
Proof.
  induction ws as [|w rest IH]; intros i out E Hv Hc; cbn [run.drawRow_cols] in E.
  - injection E as <-. constructor.
  - cbv zeta in E. apply bind_Ret in E. destruct E as (padded & Ep & E).
    apply bind_Ret in E. destruct E as (tail & Et & E). injection E as <-.
    constructor; [discriminate|].
    apply nl_free_app. split.
    { apply (pad_nl_free (run.rightAligned i) (nth i cells []) w); [exact Ep|].
      apply nth_nl_free. exact Hc. }
    constructor; [discriminate|].
    apply nl_free_app. split; [destruct rest; [constructor|exact Hv]|].
    eapply IH; eassumption.
Qed.

Lemma drawRow_nl_free g ws cells out :
  run.drawRow g ws cells = Ret out -> nl_free (run.vert g) -> Forall nl_free cells -> nl_free out.
Proof.
  unfold run.drawRow. intros E Hv Hc.
  apply bind_Ret in E. destruct E as (cols & Ec & E). injection E as <-.
  apply nl_free_app. split; [exact Hv|]. apply nl_free_app. split; [|exact Hv].
  eapply drawRow_cols_nl_free; eassumption.
Qed.

Lemma draw_body_nl_free g ws : forall rows body,
  run.draw_body g ws rows = Ret body -> nl_free_glyphs g ->
  Forall (Forall nl_free) rows -> Forall nl_free body.
Proof.
  induction rows as [|row more IH]; intros body E Hg Hrows; cbn [run.draw_body] in E.
  - injection E as <-. constructor.
  - pose proof Hg as (Hv & Hh & _ & _ & _ & Hml & Hms & Hmr & _).
    inversion Hrows as [|? ? Hrow Hmore]; subst.
    apply bind_Ret in E. destruct E as (l & El & E).
    pose proof (drawRow_nl_free _ _ _ _ El Hv Hrow) as Hl.
    destruct more as [|row' more'].
    + injection E as <-. constructor; [exact Hl|constructor].
    + apply bind_Ret in E. destruct E as (m & Em & E).
      apply bind_Ret in E. destruct E as (tail & Et & E). injection E as <-.
      constructor; [exact Hl|]. constructor.
      * eapply drawLine_nl_free; eassumption.
      * apply IH; assumption.
Qed.

Lemma dash_nl_free : nl_free run.dash.
Proof. nl_closed. Qed.

Lemma collect_nl_free commas : forall records rows0 t0 rows t,
  run.collect commas records rows0 t0 = Ret (rows, t) ->
  Forall plain_fields records -> Forall (Forall nl_free) rows0 ->
  Forall (Forall nl_free) rows.
Proof.
  induction records as [|fs more IH]; intros rows0 t0 rows t E Hp H0; cbn [run.collect] in E.
  - injection E as <- _. exact H0.
  - inversion Hp as [|? ? (Hn & He & Hk & Hs & Hm & Ht) Hmore]; subst.
    pose proof dash_nl_free as Hd.
    destruct (HasError fs).
    + eapply IH; [exact E|exact Hmore|].
      apply Forall_app. split; [exact H0|]. apply Forall_cons; [|apply Forall_nil].
      repeat (apply Forall_cons; [assumption|]). apply Forall_nil.
    + apply bind_Ret in E. destruct E as (lstr & El & E).
      apply bind_Ret in E. destruct E as (wstr & Ew & E).
      apply bind_Ret in E. destruct E as (cstr & Ec & E).
      cbv zeta in E.
      apply fmtInt_nl_free in El, Ew, Ec.
      eapply IH; [exact E|exact Hmore|].
      apply Forall_app. split; [exact H0|].
      apply Forall_cons; [|apply Forall_nil].
      destruct (Kind fs =? "binary")%string;
        repeat (apply Forall_cons; [assumption|]); apply Forall_nil.
Qed.

Lemma footer_cells_nl_free f0 f2 commas n t cells :
  (forall b d, nl_free (f0 b d)) -> (forall b d, nl_free (f2 b d)) ->
  run.footer_cells f0 f2 commas n t = Ret cells -> Forall nl_free cells.
Proof.
  intros H0 H2 E. unfold run.footer_cells in E.
  apply bind_Ret in E. destruct E as (ns & En & E).
  apply bind_Ret in E. destruct E as (size & Es & E).
  apply bind_Ret in E. destruct E as (l & El & E).
  apply bind_Ret in E. destruct E as (w & Ew & E).
  apply bind_Ret in E. destruct E as (c & Ec & E). injection E as <-.
  apply fmtInt_nl_free in El, Ew, Ec. apply Sprintf_d_nl_free in En.
  apply (HumanBytes_nl_free f0 f2 _ _ H0 H2) in Es.
  assert (Hnil : nl_free []) by constructor.
  apply Forall_cons.
  { repeat (apply Forall_cons; [discriminate|]).
    apply nl_free_app. split; [exact En|nl_closed]. }
  repeat (apply Forall_cons; [assumption|]). apply Forall_nil.
Qed.

Lemma headers_nl_free : Forall nl_free run.headers.
Proof.
  unfold run.headers. cbn [map]. repeat (apply Forall_cons; [nl_closed|]). apply Forall_nil.
Qed.

(** The strings of the table hold no newline if the records hold none. *)
Lemma writeTable_nl_free f0 f2 records showSum plain commas strings :
  (forall b d, nl_free (f0 b d)) -> (forall b d, nl_free (f2 b d)) ->
  Forall plain_fields records ->
  run.writeTable f0 f2 records showSum plain commas = Ret strings ->
  Forall nl_free strings.
Proof.
  intros H0 H2 Hp E. unfold run.writeTable in E.
  apply bind_Ret in E. destruct E as ([rows t] & Ec & E).
  pose proof (collect_nl_free _ _ _ _ _ _ Ec Hp (Forall_nil _)) as Hrows.
  apply bind_Ret in E. destruct E as (w0 & _ & E).
  apply bind_Ret in E. destruct E as (w1 & _ & E).
  apply bind_Ret in E. destruct E as ([footer ws] & Ef & E).
  pose proof (glyphs_nl_free plain) as Hg. cbv zeta in E.
  set (g := if plain then run.ascii_box else run.box) in *.
  pose proof Hg as (Hv & Hh & Htl & Hts & Htr & Hml & Hms & Hmr & Hbl & Hbs & Hbr).
  assert (Hfoot : match footer with Some cells => Forall nl_free cells | None => True end).
  { destruct showSum.
    - apply bind_Ret in Ef. destruct Ef as (cells & Ecells & Ef).
      apply bind_Ret in Ef. destruct Ef as (w2 & _ & Ef). injection Ef as <- _.
      exact (footer_cells_nl_free f0 f2 _ _ _ _ H0 H2 Ecells).
    - injection Ef as <- _. exact I. }
  apply bind_Ret in E. destruct E as (top & Etop & E).
  apply bind_Ret in E. destruct E as (hdr & Ehdr & E).
  apply bind_Ret in E. destruct E as (mid & Emid & E).
  apply bind_Ret in E. destruct E as (body & Ebody & E).
  apply bind_Ret in E. destruct E as (foot & Efoot & E).
  apply bind_Ret in E. destruct E as (bot & Ebot & E). injection E as <-.
  pose proof (drawLine_nl_free _ _ _ _ _ _ Etop Hh Htl Hts Htr) as Ht.
  pose proof (drawRow_nl_free _ _ _ _ Ehdr Hv headers_nl_free) as Hhd.
  pose proof (drawLine_nl_free _ _ _ _ _ _ Emid Hh Hml Hms Hmr) as Hmd.
  pose proof (draw_body_nl_free _ _ _ _ Ebody Hg Hrows) as Hbd.
  pose proof (drawLine_nl_free _ _ _ _ _ _ Ebot Hh Hbl Hbs Hbr) as Hbt.
  assert (Hft : Forall nl_free foot).
  { destruct footer as [cells|]; [|injection Efoot as <-; constructor].
    apply bind_Ret in Efoot. destruct Efoot as (sep & Esep & Efoot).
    apply bind_Ret in Efoot. destruct Efoot as (f & Ef' & Efoot). injection Efoot as <-.
    apply Forall_app. split.
    - destruct (len rows >? 0).
      + apply bind_Ret in Esep. destruct Esep as (m & Em & Esep). injection Esep as <-.
        constructor; [|constructor]. eapply drawLine_nl_free; eassumption.
      + injection Esep as <-. constructor.
    - constructor; [|constructor]. eapply drawRow_nl_free; eassumption. }
  repeat (apply Forall_cons; [assumption|]).
  apply Forall_app. split; [exact Hbd|].
  apply Forall_app. split; [exact Hft|]. constructor; [exact Hbt|constructor].
Qed.

(** *** The lines of the output *)

Lemma lines_from_line l : forall cur rest,
  nl_free l -> lines_from cur (l ++ Byte.x0a :: rest) = (cur ++ l) :: lines_from [] rest.
Proof.
  induction l as [|b l IH]; intros cur rest Hl.
  - cbn [app lines_from]. change (Byte.eqb Byte.x0a Byte.x0a) with true. cbv iota.
    rewrite app_nil_r. reflexivity.
  - inversion Hl as [|? ? Hb Hl']; subst. cbn [app lines_from].
    destruct (Byte.eqb b Byte.x0a) eqn:E.
    + apply Byte.byte_dec_bl in E. contradiction.
    + rewrite IH by assumption. rewrite <- app_assoc. reflexivity.
Qed.

(** Strings without a newline, printed one by one, are the lines of what
    is printed. *)
Lemma output_lines_Fprintln strings :
  Forall nl_free strings -> output_lines (List.concat (map run.Fprintln strings)) = strings.
Proof.
  unfold output_lines. induction 1 as [|l more Hl Hmore IH]; [reflexivity|].
  cbn [map List.concat]. unfold run.Fprintln at 1. rewrite <- app_assoc. cbn [app].
  rewrite lines_from_line by assumption. cbn [app]. rewrite IH. reflexivity.
Qed.

(** [writeTable] returns without a panic, and the strings it hands to
    [fmt.Fprintln], one for each call of [drawLine] and [drawRow], all have
    the same display width, whatever bytes the names and messages hold:
    they are the borders, the header, the rows with a rule between two of
    them, and the footer if asked for.  If no string of a record holds a
    newline byte, these strings are the lines of standard output, which
    is then a rectangle; a newline in the name of a file breaks its row
    in two. *)
Theorem writeTable_rectangular f0 f2 records showSum plain commas
  (Hcounts : Forall int_counts records) (Hlen : len records < 2 ^ 63) :
  exists strings W out,
    run.writeTable f0 f2 records showSum plain commas = Ret strings /\
    run.writeTable_stdout f0 f2 records showSum plain commas = Ret out /\
    Forall (fun l => run.displayWidth l = Ret W) strings /\
    len strings = 4 + (if len records =? 0 then 0 else 2 * len records - 1)
                    + (if showSum then (if len records =? 0 then 1 else 2) else 0) /\
    ((forall b d, nl_free (f0 b d)) -> (forall b d, nl_free (f2 b d)) ->
     Forall plain_fields records -> output_lines out = strings).
Proof.
  assert (Hstrings : exists lines W,
    run.writeTable f0 f2 records showSum plain commas = Ret lines /\
    Forall (fun l => run.displayWidth l = Ret W) lines /\
    len lines = 4 + (if len records =? 0 then 0 else 2 * len records - 1)
                  + (if showSum then (if len records =? 0 then 1 else 2) else 0)).
  {
    unfold run.writeTable.
    destruct (collect_returns commas records [] run.zero_totals Hcounts) as (rows & t & E).
    destruct (collect_sums commas records [] run.zero_totals rows t E) as (E1 & E2 & E3 & E4 & El & Hrows).
    { unfold totals_in_range, in_int. cbn. lia. }
    { constructor. }
    assert (Ht : totals_in_range t).
    { unfold totals_in_range, in_int. rewrite E1, E2, E3, E4. repeat split; apply wrap64_range. }
    cbn [List.length Nat.add] in El.
    rewrite E. cbn [bind]. rewrite header_widths_spec. cbn [bind].
    set (W0 := map rune_count run.headers).
    assert (HW0 : Forall (fun w => 0 <= w) W0).
    { apply Forall_forall. intros x Hx. apply in_map_iff in Hx. destruct Hx as (h & <- & _).
      apply rune_count_nonneg. }
    destruct (widen_rows_spec rows W0) as (W1 & -> & Hle1 & Hcov1); [exact Hrows|exact HW0|].
    cbn [bind].
    assert (HW1 : Forall (fun w => 0 <= w) W1) by (eapply le_all_nonneg; eassumption).
    assert (Hlen1 : List.length W1 = 8%nat) by (destruct Hle1 as [<- _]; reflexivity).
    set (g := if plain then run.ascii_box else run.box).
    assert (Hg : good_glyphs g) by (destruct plain; [apply good_glyphs_ascii|apply good_glyphs_box]).
    assert (Hn : len rows = len records) by (unfold len; rewrite El; reflexivity).
    (* the rest, for final widths W that cover the header and the rows *)
    assert (Hdraw : forall W footer,
      le_all W1 W ->
      match footer with Some cells => covers W cells | None => True end ->
      exists lines Wd,
        (top <- run.drawLine g W (run.topLeft g) (run.topSep g) (run.topRight g) ;;
         hdr <- run.drawRow g W run.headers ;;
         mid <- run.drawLine g W (run.midLeft g) (run.midSep g) (run.midRight g) ;;
         body <- run.draw_body g W rows ;;
         foot <- match footer with
                | Some cells =>
                    sep <- (if len rows >? 0
                            then m <- run.drawLine g W (run.midLeft g) (run.midSep g) (run.midRight g) ;; Ret [m]
                            else Ret []) ;;
                    f <- run.drawRow g W cells ;;
                    Ret (sep ++ [f])
                | None => Ret []
                end ;;
         bot <- run.drawLine g W (run.botLeft g) (run.botSep g) (run.botRight g) ;;
         Ret ([top; hdr; mid] ++ body ++ foot ++ [bot])) = Ret lines /\
        Forall (fun l => run.displayWidth l = Ret Wd) lines /\
        len lines = 4 + (if len records =? 0 then 0 else 2 * len records - 1)
                      + (match footer with Some _ => (if len records =? 0 then 1 else 2) | None => 0 end)).
    { intros W footer Hle Hfoot.
      assert (HW : Forall (fun w => 0 <= w) W) by (eapply le_all_nonneg; eassumption).
      assert (Hcov : Forall (covers W) rows).
      { rewrite Forall_forall in *. intros r Hr. apply (covers_le W1); auto. }
      assert (Hhdr : covers W run.headers).
      { apply (covers_le W1); [assumption|]. apply (covers_le W0); [assumption|]. apply covers_headers. }
      pose proof Hg as (Hv & Hh & Htl & Hts & Htr & Hml & Hms & Hmr & Hbl & Hbs & Hbr).
      destruct (drawLine_width g W _ _ _ Hh Htl Hts Htr HW) as (top & -> & Htop). cbn [bind].
      destruct (drawRow_width g W _ Hv Hhdr) as (hdr & -> & Hhd). cbn [bind].
      destruct (drawLine_width g W _ _ _ Hh Hml Hms Hmr HW) as (mid & Emid & Hmid).
      rewrite Emid. cbn [bind].
      destruct (draw_body_width g W rows Hg HW Hcov) as (body & -> & Hbody & Hblen). cbn [bind].
      destruct (drawLine_width g W _ _ _ Hh Hbl Hbs Hbr HW) as (bot & Ebot & Hbot).
      assert (Hall : forall l, rune_count l = table_width W ->
                        run.displayWidth l = Ret (table_width W)).
      { intros l <-. apply displayWidth_count. }
      assert (Hbody' : Forall (fun l => run.displayWidth l = Ret (table_width W)) body).
      { rewrite Forall_forall in *. auto. }
      assert (Hblen' : len body = if len records =? 0 then 0 else 2 * len records - 1).
      { rewrite Hblen, <- Hn. destruct rows; [reflexivity|].
        unfold len. cbn [List.length]. destruct (Z.eqb_spec (Z.of_nat (S (List.length rows))) 0); lia. }
      destruct footer as [cells|].
      - destruct (drawRow_width g W cells Hv Hfoot) as (f & Ef & Hf).
        destruct (Z.gtb_spec (len rows) 0) as [Hpos|Hpos].
        + cbn [bind]. rewrite Ef. cbn [bind]. rewrite Ebot. cbn [bind].
          eexists _, (table_width W). split; [reflexivity|]. split.
          * repeat (apply Forall_cons; [auto|]).
            apply Forall_app. split; [assumption|].
            repeat (apply Forall_cons; [auto|]). constructor.
          * rewrite Hn in Hpos. destruct (Z.eqb_spec (len records) 0); [lia|].
            unfold len in *. cbn [List.length app]. rewrite length_app. cbn [List.length app]. lia.
        + cbn [bind]. rewrite Ef. cbn [bind]. rewrite Ebot. cbn [bind].
          eexists _, (table_width W). split; [reflexivity|]. split.
          * repeat (apply Forall_cons; [auto|]).
            apply Forall_app. split; [assumption|].
            repeat (apply Forall_cons; [auto|]). constructor.
          * rewrite Hn in Hpos. pose proof (len_nonneg records).
            destruct (Z.eqb_spec (len records) 0); [|lia].
            unfold len in *. cbn [List.length app]. rewrite length_app. cbn [List.length app]. lia.
      - cbn [bind]. rewrite Ebot. cbn [bind].
        eexists _, (table_width W). split; [reflexivity|]. split.
        + repeat (apply Forall_cons; [auto|]).
          apply Forall_app. split; [assumption|].
          repeat (apply Forall_cons; [auto|]). constructor.
        + unfold len in *. cbn [List.length app]. rewrite length_app. cbn [List.length app]. lia. }
    destruct showSum.
    - destruct (footer_cells_returns f0 f2 commas (len records) t) as (cells & -> & Hcl);
        [unfold in_int; pose proof (len_nonneg records); lia|exact Ht|].
      cbn [bind].
      destruct (widen_cells_spec cells W1 0 ltac:(lia)) as (W2 & -> & Hle2 & Hc2). cbn [bind].
      apply (Hdraw W2 (Some cells)); [assumption|].
      apply (covers_short W1); assumption.
    - cbn [bind].
      destruct (Hdraw W1 None (le_all_refl W1) I) as (lines & Wd & Hl & Hw & Hlen').
      exists lines, Wd. split; [exact Hl|]. split; [exact Hw|]. rewrite Hlen'. reflexivity.
  }
  destruct Hstrings as (strings & W & Hw & Hwidth & Hnum).
  exists strings, W, (List.concat (map run.Fprintln strings)).
  split; [exact Hw|]. split; [unfold run.writeTable_stdout; rewrite Hw; reflexivity|].
  split; [exact Hwidth|]. split; [exact Hnum|].
  intros H0 H2 Hplain. apply output_lines_Fprintln.
  exact (writeTable_nl_free f0 f2 records showSum plain commas strings H0 H2 Hplain Hw).
Qed.


Lemma table_totals_witness :
  exists rows t,
    run.collect true [text_record; binary_record; failed_record] [] run.zero_totals = Ret (rows, t) /\
    len rows = 3 /\
    run.totalBytes t = util.wrap64 (1234567 + (10 + 0)) /\
    run.totalLines t = util.wrap64 (12345 + 0) /\
    run.totalWords t = util.wrap64 (99 + 0) /\
    run.totalChars t = util.wrap64 (1234567 + 0) /\
    forall records', Permutation [text_record; binary_record; failed_record] records' ->
      exists rows', run.collect true records' [] run.zero_totals = Ret (rows', t).
Proof.
  apply (table_totals true [text_record; binary_record; failed_record]).
  repeat constructor; vm_compute; congruence.
Defined.

Lemma writeTable_rectangular_witness :
  exists strings W out,
    run.writeTable (fun _ _ => []) (fun _ _ => ["1"; "."; "1"; "8"]%byte)
      [text_record; binary_record; failed_record] true false true = Ret strings /\
    run.writeTable_stdout (fun _ _ => []) (fun _ _ => ["1"; "."; "1"; "8"]%byte)
      [text_record; binary_record; failed_record] true false true = Ret out /\
    Forall (fun l => run.displayWidth l = Ret W) strings /\
    len strings = 11 /\ output_lines out = strings.
Proof.
  destruct (writeTable_rectangular (fun _ _ => []) (fun _ _ => ["1"; "."; "1"; "8"]%byte)
              [text_record; binary_record; failed_record] true false true)
    as (strings & W & out & Hw & Ho & Hwidth & Hnum & Hlines).
  - repeat constructor; vm_compute; congruence.
  - vm_compute. reflexivity.
  - exists strings, W, out. split; [exact Hw|]. split; [exact Ho|]. split; [exact Hwidth|].
    split; [exact Hnum|]. apply Hlines.
    + intros b d. constructor.
    + intros b d. nl_closed.
    + repeat (apply Forall_cons; [repeat split; nl_closed|]). apply Forall_nil.
Defined.

(** A newline in the name of a file: the row of the file is printed on
    two lines, and the lines are not all as wide. *)
Example newline_in_name :
  let fs := set_kind (new_stats ("a" ++ cli.newline ++ "b") EmptyString) "text" in
  exists strings out,
    run.writeTable (fun _ _ => []) (fun _ _ => []) [fs] false true false = Ret strings /\
    run.writeTable_stdout (fun _ _ => []) (fun _ _ => []) [fs] false true false = Ret out /\
    len strings = 5 /\ len (output_lines out) = 6 /\
    map run.displayWidth (output_lines out) = map Ret [63; 63; 63; 3; 59; 63].
Proof.
  eexists _, _. split; [vm_compute; reflexivity|]. split; [vm_compute; reflexivity|].
  vm_compute. repeat split.
Qed.
